(** * Image split-and-expand utility: a shallow embedding and its properties

    The development follows the layout of the repository:

    - [Types]          : src/types.ts
    - [ImageUtils]     : src/services/imageUtils.ts  (the splitter)
    - [GeminiService]  : services/geminiService      (the expander client)
    - [Dropzone]       : src/components/Dropzone.tsx (the upload filter)
    - [App]            : the application component   (the item state tracker)

    Browser facilities (image decoding, the canvas, the file reader, the
    identifier generator, the network) are not code of the repository; they
    are taken as an explicit environment record, so that every definition
    stays executable once an environment is supplied. *)

From Stdlib Require Import List String Ascii Bool Arith NArith Lia.
Import ListNotations.
Open Scope string_scope.
Open Scope list_scope.

(* ===================================================================== *)
(** ** Exceptions and results                                             *)
(* ===================================================================== *)

(** A JavaScript exception value, as far as the program distinguishes them:
    an [Error] object with its message, or the event a browser facility
    rejects a promise with. *)
Inductive Exn : Type :=
| JsError (message : string)
| LoadRejected                  (* img.onerror *)
| ReadRejected                  (* FileReader.onerror *)
| NetworkRejected (detail : string).

(** The outcome of a call that may throw (or of a promise that may reject). *)
Inductive Result (A : Type) : Type :=
| Ok (value : A)
| Throw (e : Exn).
Arguments Ok {A} value.
Arguments Throw {A} e.

(** JavaScript truthiness of a [string] and of a [string | null]. *)
Definition truthy (s : string) : bool := negb (String.eqb s "").

Definition truthyOpt (o : option string) : bool :=
  match o with
  | Some s => truthy s
  | None => false
  end.

(* ===================================================================== *)
(** ** src/types.ts                                                       *)
(* ===================================================================== *)

Module Types.

Inductive SplitDirection : Type :=
| Horizontal   (* Left/Right *)
| Vertical.    (* Top/Bottom *)

Inductive ProcessStatus : Type :=
| Idle
| Splitting
| Expanding
| Done
| Error.

Definition status_eqb (a b : ProcessStatus) : bool :=
  match a, b with
  | Idle, Idle | Splitting, Splitting | Expanding, Expanding
  | Done, Done | Error, Error => true
  | _, _ => false
  end.

(** A browser [File]: only the attributes the program reads. *)
Record File : Type := mkFile {
  name : string;
  type : string;          (* MIME type *)
  contents : string
}.

(** One half of a processed image (the anonymous object type of
    [splitPart1] and [splitPart2]). *)
Record SplitPart : Type := mkPart {
  url : option string;
  expandedUrl : option string;
  status : ProcessStatus
}.

Record ProcessedImage : Type := mkItem {
  id : string;
  originalUrl : string;
  file : File;
  splitPart1 : SplitPart;
  splitPart2 : SplitPart
}.

(** The literal type [1 | 2] used to select a half. *)
Inductive PartNumber : Type := One | Two.

End Types.
Import Types.

(* ===================================================================== *)
(** ** src/services/imageUtils.ts                                         *)
(* ===================================================================== *)

Module ImageUtils.

(** A pixel is transparent ([None]) or carries a colour. *)
Definition Pixel : Type := option N.

(** A decoded bitmap: an [HTMLImageElement] after [onload], or the contents
    of a canvas. Coordinates outside the bitmap are never read. *)
Record Raster : Type := mkRaster {
  width : N;
  height : N;
  pixelAt : N -> N -> Pixel
}.

(** The browser as the program sees it. *)
Record Browser : Type := mkBrowser {
  decodeImage : string -> option Raster; (* None: img.onerror fires *)
  context2d : bool;                      (* canvas.getContext('2d') is not null *)
  toDataURL : Raster -> string;          (* canvas.toDataURL('image/png') *)
  readAsDataURL : File -> option string; (* None: reader.onerror fires *)
  uuidv4 : nat -> string                 (* the n-th identifier generated *)
}.

Definition readFileAsDataURL (B : Browser) (file : File) : Result string :=
  match readAsDataURL B file with
  | Some result => Ok result
  | None => Throw ReadRejected
  end.

Definition loadImage (B : Browser) (src : string) : Result Raster :=
  match decodeImage B src with
  | Some img => Ok img
  | None => Throw LoadRejected
  end.

(** *** The canvas operations used by the splitter *)

(** [document.createElement('canvas')]: 300 x 150, transparent. *)
Definition createCanvas : Raster :=
  mkRaster 300 150 (fun _ _ => None).

(** Assigning [canvas.width] or [canvas.height] resizes and clears. *)
Definition setWidth (w : N) (c : Raster) : Raster :=
  mkRaster w (height c) (fun _ _ => None).

Definition setHeight (h : N) (c : Raster) : Raster :=
  mkRaster (width c) h (fun _ _ => None).

Definition inRect (x y rx ry rw rh : N) : bool :=
  ((rx <=? x) && (x <? rx + rw) && (ry <=? y) && (y <? ry + rh))%N.

(** Source-over compositing of a pixel onto the canvas. *)
Definition over (src dst : Pixel) : Pixel :=
  match src with
  | Some c => Some c
  | None => dst
  end.

(** [ctx.drawImage(img, sx, sy, sw, sh, dx, dy, dw, dh)]. Every call of the
    program has [dw = sw] and [dh = sh], so the copy is unscaled; the part
    of the source rectangle outside the image draws nothing. *)
Definition drawImage (img : Raster) (sx sy sw sh dx dy dw dh : N)
    (c : Raster) : Raster :=
  mkRaster (width c) (height c)
    (fun x y =>
       if inRect x y dx dy dw dh then
         let u := (sx + (x - dx))%N in
         let v := (sy + (y - dy))%N in
         if inRect u v sx sy sw sh && inRect u v 0 0 (width img) (height img)
         then over (pixelAt img u v) (pixelAt c x y)
         else pixelAt c x y
       else pixelAt c x y).

(** [ctx.clearRect(x, y, w, h)]. *)
Definition clearRect (rx ry rw rh : N) (c : Raster) : Raster :=
  mkRaster (width c) (height c)
    (fun x y => if inRect x y rx ry rw rh then None else pixelAt c x y).

(** The canvas part of [splitImage]: the two bitmaps that are encoded. *)
Definition splitRaster (img : Raster) (direction : SplitDirection)
    : Raster * Raster :=
  let canvas := createCanvas in
  let w := width img in
  let h := height img in
  match direction with
  | Horizontal =>
      let halfWidth := (w / 2)%N in            (* Math.floor(w / 2) *)
      (* Part 1: Left *)
      let canvas := setWidth halfWidth canvas in
      let canvas := setHeight h canvas in
      let canvas := drawImage img 0 0 halfWidth h 0 0 halfWidth h canvas in
      let part1 := canvas in
      (* Part 2: Right *)
      let canvas := clearRect 0 0 halfWidth h canvas in
      let canvas := drawImage img halfWidth 0 halfWidth h 0 0 halfWidth h canvas in
      (part1, canvas)
  | Vertical =>
      let halfHeight := (h / 2)%N in           (* Math.floor(h / 2) *)
      (* Part 1: Top *)
      let canvas := setWidth w canvas in
      let canvas := setHeight halfHeight canvas in
      let canvas := drawImage img 0 0 w halfHeight 0 0 w halfHeight canvas in
      let part1 := canvas in
      (* Part 2: Bottom *)
      let canvas := clearRect 0 0 w halfHeight canvas in
      let canvas := drawImage img 0 halfHeight w halfHeight 0 0 w halfHeight canvas in
      (part1, canvas)
  end.

(** [splitImage]: decode, obtain a context, crop twice, encode. *)
Definition splitImage (B : Browser) (imageSrc : string)
    (direction : SplitDirection) : Result (string * string) :=
  match loadImage B imageSrc with
  | Throw e => Throw e
  | Ok img =>
      if context2d B then
        let (part1, part2) := splitRaster img direction in
        Ok (toDataURL B part1, toDataURL B part2)
      else Throw (JsError "Could not get canvas context")
  end.

End ImageUtils.

(* ===================================================================== *)
(** ** services/geminiService                                             *)
(* ===================================================================== *)

Module GeminiService.

Record GeminiSettings : Type := mkSettings {
  apiKey : string;
  baseUrl : option string;
  modelName : option string
}.

(** The one request the client sends ([ai.models.generateContent]). *)
Record Request : Type := mkRequest {
  rq_apiKey : string;
  rq_baseUrl : option string;
  rq_model : string;
  rq_text : string;
  rq_mimeType : string;
  rq_data : string;
  rq_aspectRatio : string
}.

(** The response of the service, with the optional fields the client
    guards against. *)
Record InlineData : Type := mkInline {
  mimeType : option string;
  data : option string
}.

Record Part : Type := mkRPart {
  text : option string;
  inlineData : option InlineData
}.

Record Content : Type := mkContent { parts : option (list Part) }.

Record Candidate : Type := mkCandidate { content : option Content }.

Record GenerateContentResponse : Type := mkResponse {
  candidates : option (list Candidate)
}.

(** What one call of the client did: its result, the requests it put on
    the network, and what it wrote with [console.error]. *)
Record ExpandRun : Type := mkRun {
  outcome : Result string;
  sent : list Request;
  logged : list Exn
}.

Definition prompt : string :=
  "This is a cropped section of a larger image. Generate a new, complete high-quality version of this image that fits a 3:4 aspect ratio. Seamlessly extend the background and content to fill the new aspect ratio while preserving the original style, lighting, and details.".

Definition missingKey : Exn :=
  JsError "API Key is missing. Please configure it in settings.".

Definition noImageData : Exn :=
  JsError "No image data returned from Gemini. Please check if the selected model supports image generation.".

(** [s.split(sep)] for a one-character separator. *)
Fixpoint split (sep : ascii) (s : string) : list string :=
  match s with
  | EmptyString => [""]
  | String c rest =>
      if Ascii.eqb c sep then "" :: split sep rest
      else match split sep rest with
           | seg :: segs => String c seg :: segs
           | [] => [String c ""]
           end
  end.

(** [a || b] where [a] may be undefined. *)
Definition orString (a : option string) (b : string) : string :=
  match a with
  | Some s => if truthy s then s else b
  | None => b
  end.

(** [a || undefined]. *)
Definition orUndefined (a : option string) : option string :=
  if truthyOpt a then a else None.

(** Remove header if present (e.g., "data:image/png;base64,"). *)
Definition cleanBase64 (base64Image : string) : string :=
  orString (nth_error (split "," base64Image) 1) base64Image.

Definition buildRequest (base64Image : string) (settings : GeminiSettings)
    : Request :=
  mkRequest (apiKey settings)
            (orUndefined (baseUrl settings))
            (orString (modelName settings) "gemini-2.5-flash-image")
            prompt
            "image/png"
            (cleanBase64 base64Image)
            "3:4".

(** [response.candidates?.[0]?.content?.parts] *)
Definition responseParts (response : GenerateContentResponse)
    : option (list Part) :=
  match candidates response with
  | Some (c :: _) =>
      match content c with
      | Some ct => parts ct
      | None => None
      end
  | _ => None
  end.

(** The loop over the parts: the first part with non-empty inline data. *)
Fixpoint firstInlineData (ps : list Part) : option string :=
  match ps with
  | [] => None
  | part :: rest =>
      match inlineData part with
      | Some d =>
          match data d with
          | Some payload =>
              if truthy payload then Some payload else firstInlineData rest
          | None => firstInlineData rest
          end
      | None => firstInlineData rest
      end
  end.

(** What the statements about the client call the image payloads of a
    response, written from the shape of the response alone and not from
    the client's loop: a part carries a payload when it has inline data
    that is a non-empty string, and the payloads of a response are those
    of the parts of its first candidate, in their order. *)
Definition payloadOf (part : Part) : list string :=
  match part with
  | mkRPart _ (Some (mkInline _ (Some payload))) =>
      if String.eqb payload "" then [] else [payload]
  | _ => []
  end.

Definition firstCandidateParts (response : GenerateContentResponse)
    : list Part :=
  match response with
  | mkResponse (Some (mkCandidate (Some (mkContent (Some ps))) :: _)) => ps
  | _ => []
  end.

Definition responseImages (response : GenerateContentResponse)
    : list string :=
  flat_map payloadOf (firstCandidateParts response).

Definition expandImageWithGemini
    (generateContent : Request -> Result GenerateContentResponse)
    (base64Image : string) (settings : GeminiSettings) : ExpandRun :=
  if negb (truthy (apiKey settings)) then
    mkRun (Throw missingKey) [] []
  else
    let request := buildRequest base64Image settings in
    match generateContent request with
    | Throw error => mkRun (Throw error) [request] [error]
    | Ok response =>
        match responseParts response with
        | Some ps =>
            match firstInlineData ps with
            | Some payload =>
                mkRun (Ok ("data:image/png;base64," ++ payload)%string) [request] []
            | None => mkRun (Throw noImageData) [request] [noImageData]
            end
        | None => mkRun (Throw noImageData) [request] [noImageData]
        end
    end.

(** The requests a call issues do not depend on what the network answers:
    they are put on the wire before the first suspension point. *)
Definition requestsOf (base64Image : string) (settings : GeminiSettings)
    : list Request :=
  if truthy (apiKey settings) then [buildRequest base64Image settings] else [].

(** Whether the character [c] occurs in [s]. *)
Fixpoint occurs (c : ascii) (s : string) : bool :=
  match s with
  | EmptyString => false
  | String c' rest => Ascii.eqb c' c || occurs c rest
  end.

End GeminiService.

(* ===================================================================== *)
(** ** src/components/Dropzone.tsx                                        *)
(* ===================================================================== *)

Module Dropzone.

(** [s.startsWith(p)] *)
Fixpoint startsWith (p s : string) : bool :=
  match p, s with
  | EmptyString, _ => true
  | String a p', String b s' => Ascii.eqb a b && startsWith p' s'
  | String _ _, EmptyString => false
  end.

Definition isImage (file : File) : bool := startsWith "image/" (type file).

(** A [FileSystemEntry] as returned by [webkitGetAsEntry]. For a directory
    the entries are what [readAllEntries] collects from its reader, or
    [None] when a read fails. *)
#[warnings="-register-all"] Inductive FileSystemEntry : Type :=
| FileEntry (f : File)
| DirectoryEntry (dirName : string) (entries : option (list FileSystemEntry))
| OtherEntry.

(** Recursive folder scanning. *)
Fixpoint traverseFileTree (item : FileSystemEntry) (path : string)
    : list File :=
  match item with
  | FileEntry f =>
      (* Only accept images *)
      if isImage f then [f] else []
  | DirectoryEntry dirName (Some entries) =>
      flat_map (fun entry => traverseFileTree entry (path ++ dirName ++ "/")%string)
               entries
  | DirectoryEntry _ None => []
  | OtherEntry => []
  end.

(** The [DataTransfer] of a drop event. *)
Record DataTransfer : Type := mkTransfer {
  dt_items : option (list (option FileSystemEntry));
  dt_files : list File
}.

Fixpoint droppedEntries (l : list (option FileSystemEntry))
    : list FileSystemEntry :=
  match l with
  | [] => []
  | Some item :: rest => item :: droppedEntries rest
  | None :: rest => droppedEntries rest
  end.

(** [handleDrop]: the files passed to [onFilesAdded] ([None]: not called). *)
Definition handleDrop (isProcessing : bool) (dt : DataTransfer)
    : option (list File) :=
  if isProcessing then None
  else
    let files :=
      match dt_items dt with
      | Some items =>
          flat_map (fun item => traverseFileTree item "") (droppedEntries items)
      | None =>
          (* Fallback for older browsers *)
          filter isImage (dt_files dt)
      end in
    if (0 <? List.length files)%nat then Some files else None.

(** [handleFileSelect]: [targetFiles] is [e.target.files]. *)
Definition handleFileSelect (isProcessing : bool)
    (targetFiles : option (list File)) : option (list File) :=
  match targetFiles with
  | Some fs => if negb isProcessing then Some (filter isImage fs) else None
  | None => None
  end.

(** A directory reader, as [readAllEntries] uses it: what its successive
    [readEntries] calls deliver (a batch, or an error); once these are used
    up it delivers empty batches. *)
Definition DirectoryReader (E : Type) : Type := list (Result (list E)).

(** Helper to reliably read all entries from a directory reader: batches
    are concatenated until an empty one arrives; an error rejects the
    whole read. *)
Fixpoint readAllEntries {E : Type} (dirReader : DirectoryReader E)
    : Result (list E) :=
  match dirReader with
  | [] => Ok []
  | Throw err :: _ => Throw err
  | Ok [] :: _ => Ok []
  | Ok (entry :: batch) :: later =>
      match readAllEntries later with
      | Ok entries => Ok ((entry :: batch) ++ entries)
      | Throw err => Throw err
      end
  end.

(** The directory entry whose reader is [dirReader]. *)
Definition directoryEntry (dirName : string)
    (dirReader : DirectoryReader FileSystemEntry) : FileSystemEntry :=
  DirectoryEntry dirName
    (match readAllEntries dirReader with
     | Ok entries => Some entries
     | Throw _ => None
     end).


End Dropzone.

(* ===================================================================== *)
(** ** The application component (item state tracker)                     *)
(* ===================================================================== *)

(** The component is modelled as an event loop over an explicit state.

    - Every [setItems(prev => ...)] is applied to the latest list, in the
      order of the calls, and each one is a write of its own (the replaced
      value is kept in [history]).
    - An [async] handler runs up to its [await] in one turn; what it does
      after the awaited call settles is a later turn ([FilesRead],
      [SplitSettled], [ExpansionSettled]), and other events may come in
      between. The suspended calls are kept in the state together with
      what their closures captured.
    - A handler started from the page sees the state of the latest render.
    - The reads of one upload are taken together: its identifiers are drawn
      and its items appear when the upload has been read.
    - User actions are those the rendered page offers: the start button is
      disabled while a batch runs, the retry button exists on a half in
      error only, the remove button on a listed item only. The handlers
      themselves ([startProcessing], [retryPart], ...) are total functions
      on the state and are also studied on their own. *)

Module App.
Import ImageUtils GeminiService.

Definition DEFAULT_MODEL : string := "gemini-2.5-flash-image".

(** The three keys of [localStorage] the component uses. *)
Record LocalStorage : Type := mkStorage {
  gemini_api_key : option string;
  gemini_base_url : option string;
  gemini_model : option string
}.

(** A suspended call of [startProcessing]: it awaits [splitImage] for
    [b_item]; [b_rest] is the remainder of [itemsToProcess]; the settings
    and the direction are the ones its closure captured. *)
Record Batch : Type := mkBatch {
  b_item : ProcessedImage;
  b_rest : list ProcessedImage;
  b_settings : GeminiSettings;
  b_direction : SplitDirection
}.

(** A suspended call of [processImagePart]: it awaits
    [expandImageWithGemini]. *)
Record Expansion : Type := mkExpansion {
  e_itemId : string;
  e_partNumber : PartNumber;
  e_cropped : string;
  e_settings : GeminiSettings
}.

(** Lines written with [console.error], by their label. *)
Inductive LogEntry : Type :=
| GeminiExpansionError (e : Exn)   (* "Gemini expansion error:" *)
| ExpansionFailed (e : Exn)        (* "Expansion failed" *)
| SplittingError (e : Exn).        (* "Splitting error" *)

(** The component state ([useState] cells), the suspended asynchronous
    calls (uploads being read, batches awaiting a split, expansions awaiting
    the network), and the observable traces: requests put on the network, calls of
    the splitter, console lines, and every earlier value of [items]
    (newest first). *)
Record AppState : Type := mkState {
  items : list ProcessedImage;
  splitDirection : SplitDirection;
  isProcessing : bool;
  showSettings : bool;
  settings : GeminiSettings;
  storage : LocalStorage;
  uuidCalls : nat;
  uploads : list (list File);
  batches : list Batch;
  expansions : list Expansion;
  requests : list Request;
  splitCalls : list (string * SplitDirection);
  console : list LogEntry;
  history : list (list ProcessedImage)
}.

(** *** State setters *)

(** [setItems(prev => f(prev))]; the replaced value goes to the history. *)
Definition setItems (f : list ProcessedImage -> list ProcessedImage)
    (st : AppState) : AppState :=
  mkState (f (items st)) (splitDirection st) (isProcessing st)
          (showSettings st) (settings st) (storage st) (uuidCalls st)
          (uploads st) (batches st) (expansions st) (requests st)
          (splitCalls st) (console st) (items st :: history st).

Definition setSplitDirection (d : SplitDirection)
    (st : AppState) : AppState :=
  mkState (items st) d (isProcessing st) (showSettings st) (settings st)
          (storage st) (uuidCalls st) (uploads st) (batches st)
          (expansions st) (requests st) (splitCalls st) (console st)
          (history st).

Definition setIsProcessing (b : bool)
    (st : AppState) : AppState :=
  mkState (items st) (splitDirection st) b (showSettings st) (settings st)
          (storage st) (uuidCalls st) (uploads st) (batches st)
          (expansions st) (requests st) (splitCalls st) (console st)
          (history st).

Definition setShowSettings (b : bool)
    (st : AppState) : AppState :=
  mkState (items st) (splitDirection st) (isProcessing st) b (settings st)
          (storage st) (uuidCalls st) (uploads st) (batches st)
          (expansions st) (requests st) (splitCalls st) (console st)
          (history st).

Definition setSettings (s : GeminiSettings)
    (st : AppState) : AppState :=
  mkState (items st) (splitDirection st) (isProcessing st) (showSettings st)
          s (storage st) (uuidCalls st) (uploads st) (batches st)
          (expansions st) (requests st) (splitCalls st) (console st)
          (history st).

Definition setStorage (ls : LocalStorage)
    (st : AppState) : AppState :=
  mkState (items st) (splitDirection st) (isProcessing st) (showSettings st)
          (settings st) ls (uuidCalls st) (uploads st) (batches st)
          (expansions st) (requests st) (splitCalls st) (console st)
          (history st).

Definition setUuidCalls (n : nat)
    (st : AppState) : AppState :=
  mkState (items st) (splitDirection st) (isProcessing st) (showSettings st)
          (settings st) (storage st) n (uploads st) (batches st)
          (expansions st) (requests st) (splitCalls st) (console st)
          (history st).

Definition setUploads (us : list (list File))
    (st : AppState) : AppState :=
  mkState (items st) (splitDirection st) (isProcessing st) (showSettings st)
          (settings st) (storage st) (uuidCalls st) us (batches st)
          (expansions st) (requests st) (splitCalls st) (console st)
          (history st).

Definition setBatches (bs : list Batch)
    (st : AppState) : AppState :=
  mkState (items st) (splitDirection st) (isProcessing st) (showSettings st)
          (settings st) (storage st) (uuidCalls st) (uploads st) bs
          (expansions st) (requests st) (splitCalls st) (console st)
          (history st).

Definition setExpansions (es : list Expansion)
    (st : AppState) : AppState :=
  mkState (items st) (splitDirection st) (isProcessing st) (showSettings st)
          (settings st) (storage st) (uuidCalls st) (uploads st)
          (batches st) es (requests st) (splitCalls st) (console st)
          (history st).

Definition addRequests (rs : list Request)
    (st : AppState) : AppState :=
  mkState (items st) (splitDirection st) (isProcessing st) (showSettings st)
          (settings st) (storage st) (uuidCalls st) (uploads st)
          (batches st) (expansions st) (requests st ++ rs) (splitCalls st)
          (console st) (history st).

Definition addSplitCall (c : string * SplitDirection)
    (st : AppState) : AppState :=
  mkState (items st) (splitDirection st) (isProcessing st) (showSettings st)
          (settings st) (storage st) (uuidCalls st) (uploads st)
          (batches st) (expansions st) (requests st) (splitCalls st ++ [c])
          (console st) (history st).

Definition consoleError (ls : list LogEntry)
    (st : AppState) : AppState :=
  mkState (items st) (splitDirection st) (isProcessing st) (showSettings st)
          (settings st) (storage st) (uuidCalls st) (uploads st)
          (batches st) (expansions st) (requests st) (splitCalls st)
          (console st ++ ls) (history st).

(** *** Mounting *)

Definition initialState : AppState :=
  mkState [] Horizontal false false
          (mkSettings "" (Some "") (Some DEFAULT_MODEL))
          (mkStorage None None None) 0 [] [] [] [] [] [] [].

(** Load settings from localStorage on mount. *)
Definition mount (ls : LocalStorage) : AppState :=
  let st := setStorage ls initialState in
  let st := setSettings
              (mkSettings (orString (gemini_api_key ls) "")
                          (Some (orString (gemini_base_url ls) ""))
                          (Some (orString (gemini_model ls) DEFAULT_MODEL)))
              st in
  (* Auto-open settings if no key is found *)
  if negb (truthyOpt (gemini_api_key ls)) then setShowSettings true st else st.

(** Save settings. *)
Definition saveSettings (newSettings : GeminiSettings) (st : AppState)
    : AppState :=
  let st := setSettings newSettings st in
  let st := setStorage
              (mkStorage (Some (apiKey newSettings))
                         (orUndefined (baseUrl newSettings))
                         (orUndefined (modelName newSettings)))
              st in
  setShowSettings false st.

(** *** Handle new file uploads *)

Definition idlePart : SplitPart := mkPart None None Idle.

(** The loop of [handleFilesAdded]: [calls] counts the identifiers drawn so
    far; a rejected read aborts the handler. *)
Fixpoint buildItems (B : Browser) (files : list File) (calls : nat)
    : Result (list ProcessedImage) * nat :=
  match files with
  | [] => (Ok [], calls)
  | file :: rest =>
      match readFileAsDataURL B file with
      | Throw e => (Throw e, calls)
      | Ok originalUrl =>
          let item := mkItem (uuidv4 B calls) originalUrl file
                             idlePart idlePart in
          match buildItems B rest (S calls) with
          | (Ok newItems, calls') => (Ok (item :: newItems), calls')
          | (Throw e, calls') => (Throw e, calls')
          end
      end
  end.

Definition handleFilesAdded (B : Browser) (files : list File)
    (st : AppState) : AppState :=
  match buildItems B files (uuidCalls st) with
  | (Ok newItems, calls) =>
      setItems (fun prev => newItems ++ prev) (setUuidCalls calls st)
  | (Throw _, calls) => setUuidCalls calls st
  end.

(** The call [onFilesAdded(files)] made by the drop zone starts
    [handleFilesAdded], which is suspended while the files are read. *)
Definition onFilesAdded (files : list File) (st : AppState) : AppState :=
  setUploads (uploads st ++ [files]) st.

(** *** Updaters passed to [setItems] *)

Definition getPart (partNumber : PartNumber) (item : ProcessedImage)
    : SplitPart :=
  match partNumber with
  | One => splitPart1 item
  | Two => splitPart2 item
  end.

(** [{ ...item, [partKey]: v }] *)
Definition setPart (partNumber : PartNumber) (v : SplitPart)
    (item : ProcessedImage) : ProcessedImage :=
  match partNumber with
  | One => mkItem (id item) (originalUrl item) (file item) v (splitPart2 item)
  | Two => mkItem (id item) (originalUrl item) (file item) (splitPart1 item) v
  end.

Definition withStatus (s : ProcessStatus) (p : SplitPart) : SplitPart :=
  mkPart (url p) (expandedUrl p) s.

Definition markExpanding (itemId : string) (partNumber : PartNumber)
    (item : ProcessedImage) : ProcessedImage :=
  if negb (String.eqb (id item) itemId) then item
  else setPart partNumber (withStatus Expanding (getPart partNumber item)) item.

Definition markDone (itemId : string) (partNumber : PartNumber)
    (expandedBase64 : string) (item : ProcessedImage) : ProcessedImage :=
  if negb (String.eqb (id item) itemId) then item
  else setPart partNumber
         (mkPart (url (getPart partNumber item)) (Some expandedBase64) Done)
         item.

Definition markError (itemId : string) (partNumber : PartNumber)
    (item : ProcessedImage) : ProcessedImage :=
  if negb (String.eqb (id item) itemId) then item
  else setPart partNumber (withStatus Error (getPart partNumber item)) item.

Definition markSplitting (itemId : string) (i : ProcessedImage)
    : ProcessedImage :=
  if String.eqb (id i) itemId then
    mkItem (id i) (originalUrl i) (file i)
           (withStatus Splitting (splitPart1 i))
           (withStatus Splitting (splitPart2 i))
  else i.

Definition storeParts (itemId : string) (part1 part2 : string)
    (i : ProcessedImage) : ProcessedImage :=
  if String.eqb (id i) itemId then
    mkItem (id i) (originalUrl i) (file i)
           (mkPart (Some part1) (expandedUrl (splitPart1 i)) Idle)
           (mkPart (Some part2) (expandedUrl (splitPart2 i)) Idle)
  else i.

(** *** Process a single part of an image *)

(** The synchronous part of [processImagePart]: the status update, then the
    call of the client up to its suspension. *)
Definition processImagePart (itemId : string) (partNumber : PartNumber)
    (croppedBase64 : string) (currentSettings : GeminiSettings)
    (st : AppState) : AppState :=
  let st := setItems (map (markExpanding itemId partNumber)) st in
  let st := addRequests (requestsOf croppedBase64 currentSettings) st in
  setExpansions
    (expansions st ++
       [mkExpansion itemId partNumber croppedBase64 currentSettings])
    st.

Fixpoint removeNth {A : Type} (k : nat) (l : list A) : list A :=
  match l, k with
  | [], _ => []
  | _ :: rest, O => rest
  | x :: rest, S k' => x :: removeNth k' rest
  end.

(** The rest of [processImagePart], run when the awaited call of the [k]-th
    suspended expansion settles with the network's [response]. *)
Definition expansionSettled (k : nat)
    (response : Result GenerateContentResponse) (st : AppState)
    : option AppState :=
  match nth_error (expansions st) k with
  | None => None
  | Some e =>
      let st := setExpansions (removeNth k (expansions st)) st in
      let run := expandImageWithGemini (fun _ => response)
                                       (e_cropped e) (e_settings e) in
      let st := consoleError (map GeminiExpansionError (logged run)) st in
      match outcome run with
      | Ok expandedBase64 =>
          Some (setItems
                  (map (markDone (e_itemId e) (e_partNumber e) expandedBase64))
                  st)
      | Throw error =>
          let st := consoleError [ExpansionFailed error] st in
          Some (setItems (map (markError (e_itemId e) (e_partNumber e))) st)
      end
  end.

(** The [k]-th suspended upload has read its files (or failed to). *)
Definition filesRead (B : Browser) (k : nat) (st : AppState)
    : option AppState :=
  match nth_error (uploads st) k with
  | None => None
  | Some files =>
      Some (handleFilesAdded B files
              (setUploads (removeNth k (uploads st)) st))
  end.

(** *** Main processing function trigger *)

Definition bothIdle (i : ProcessedImage) : bool :=
  status_eqb (status (splitPart1 i)) Idle
  && status_eqb (status (splitPart2 i)) Idle.

(** The [for] loop of [startProcessing] from its head up to the next
    [await]: either the loop is over, or the next item is marked and the
    splitter is called. *)
Definition processNext (todo : list ProcessedImage)
    (s : GeminiSettings) (d : SplitDirection) (st : AppState) : AppState :=
  match todo with
  | [] => setIsProcessing false st
  | item :: rest =>
      let st := setItems (map (markSplitting (id item))) st in
      let st := addSplitCall (originalUrl item, d) st in
      setBatches (batches st ++ [mkBatch item rest s d]) st
  end.

Definition startProcessing (st : AppState) : AppState :=
  if negb (truthy (apiKey (settings st))) then setShowSettings true st
  else
    let itemsToProcess := filter bothIdle (items st) in
    processNext itemsToProcess (settings st) (splitDirection st)
                (setIsProcessing true st).

(** The loop body after the [await], run when the call of the splitter
    awaited by the [k]-th suspended batch settles. *)
Definition splitSettled (B : Browser) (k : nat) (st : AppState)
    : option AppState :=
  match nth_error (batches st) k with
  | None => None
  | Some b =>
      let st := setBatches (removeNth k (batches st)) st in
      let item := b_item b in
      let st :=
        match splitImage B (originalUrl item) (b_direction b) with
        | Ok (part1, part2) =>
            let st := setItems (map (storeParts (id item) part1 part2)) st in
            (* Pass settings to the processor *)
            let st := processImagePart (id item) One part1 (b_settings b) st in
            processImagePart (id item) Two part2 (b_settings b) st
        | Throw e => consoleError [SplittingError e] st
        end in
      Some (processNext (b_rest b) (b_settings b) (b_direction b) st)
  end.

Definition retryPart (itemId : string) (part : PartNumber) (st : AppState)
    : AppState :=
  if negb (truthy (apiKey (settings st))) then setShowSettings true st
  else
    match find (fun i => String.eqb (id i) itemId) (items st) with
    | None => st
    | Some item =>
        let partData := getPart part item in
        match url partData with
        | Some u =>
            if truthy u then processImagePart itemId part u (settings st) st
            else st
        | None => st
        end
    end.

Definition removeItem (itemId : string) (st : AppState) : AppState :=
  setItems (filter (fun item => negb (String.eqb (id item) itemId))) st.

Definition clearAll (confirmed : bool) (st : AppState) : AppState :=
  if confirmed then setItems (fun _ => []) st else st.

(** *** The user-facing surface and the event loop *)

Inductive Event : Type :=
| FileSelect (targetFiles : option (list File))
| Drop (dt : Dropzone.DataTransfer)
| FilesRead (k : nat)
| ClickStart
| ClickRetry (itemId : string) (part : PartNumber)
| ClickRemove (itemId : string)
| ClickClearAll (confirmed : bool)
| OpenSettings
| CloseSettings
| SaveSettings (newSettings : GeminiSettings)
| ChooseDirection (d : SplitDirection)
| SplitSettled (k : nat)
| ExpansionSettled (k : nat) (response : Result GenerateContentResponse).

(** The [disabled] attribute of the start button. *)
Definition startDisabled (st : AppState) : bool :=
  isProcessing st
  || (List.length (items st) =? 0)%nat
  || forallb (fun i => status_eqb (status (splitPart1 i)) Done
                       || status_eqb (status (splitPart1 i)) Expanding)
             (items st).

(** The retry button of a half is rendered in its error overlay only. *)
Definition retryShown (itemId : string) (part : PartNumber) (st : AppState)
    : bool :=
  existsb (fun i => String.eqb (id i) itemId
                    && status_eqb (status (getPart part i)) Error)
          (items st).

Definition cardShown (itemId : string) (st : AppState) : bool :=
  existsb (fun i => String.eqb (id i) itemId) (items st).

Definition whenEnabled (guard : bool) (st : AppState) : option AppState :=
  if guard then Some st else None.

(** One turn of the event loop: a user action the rendered page offers, or
    the settling of a suspended call. [None]: the event cannot occur. *)
Definition exec (B : Browser) (ev : Event) (st : AppState) : option AppState :=
  match ev with
  | FileSelect targetFiles =>
      match Dropzone.handleFileSelect (isProcessing st) targetFiles with
      | Some files => Some (onFilesAdded files st)
      | None => Some st
      end
  | Drop dt =>
      match Dropzone.handleDrop (isProcessing st) dt with
      | Some files => Some (onFilesAdded files st)
      | None => Some st
      end
  | FilesRead k => filesRead B k st
  | ClickStart =>
      whenEnabled (negb (startDisabled st)) (startProcessing st)
  | ClickRetry itemId part =>
      whenEnabled (retryShown itemId part st) (retryPart itemId part st)
  | ClickRemove itemId =>
      whenEnabled (cardShown itemId st) (removeItem itemId st)
  | ClickClearAll confirmed =>
      whenEnabled (0 <? List.length (items st))%nat (clearAll confirmed st)
  | OpenSettings => Some (setShowSettings true st)
  | CloseSettings => whenEnabled (showSettings st) (setShowSettings false st)
  | SaveSettings newSettings =>
      whenEnabled (showSettings st) (saveSettings newSettings st)
  | ChooseDirection d => Some (setSplitDirection d st)
  | SplitSettled k => splitSettled B k st
  | ExpansionSettled k response => expansionSettled k response st
  end.

Fixpoint run (B : Browser) (evs : list Event) (st : AppState)
    : option AppState :=
  match evs with
  | [] => Some st
  | ev :: rest =>
      match exec B ev st with
      | Some st' => run B rest st'
      | None => None
      end
  end.

(** The states the application can be in. *)
Definition reachable (B : Browser) (st : AppState) : Prop :=
  exists ls evs, run B evs (mount ls) = Some st.

(** *** Vocabulary for the properties *)

(** The sibling of a half. *)
Definition other (partNumber : PartNumber) : PartNumber :=
  match partNumber with
  | One => Two
  | Two => One
  end.

(** [new] is [old] position by position, except possibly for the half
    [partNumber] of the items whose identifier is [itemId]. *)
Definition sameExcept (itemId : string) (partNumber : PartNumber)
    (old new : list ProcessedImage) : Prop :=
  Forall2
    (fun a b =>
       id b = id a /\ originalUrl b = originalUrl a /\ file b = file a /\
       getPart (other partNumber) b = getPart (other partNumber) a /\
       (id a <> itemId -> b = a))
    old new.

(** Every item, and every file of an upload still being read, is an
    image by its MIME type. *)
Definition OnlyImages (st : AppState) : Prop :=
  Forall (fun item => Dropzone.isImage (file item) = true) (items st) /\
  Forall (Forall (fun f => Dropzone.isImage f = true)) (uploads st).

(** The status of one half of an item. *)
Definition statusOf (partNumber : PartNumber) (item : ProcessedImage)
    : ProcessStatus :=
  status (getPart partNumber item).

Definition part_eqb (p q : PartNumber) : bool :=
  match p, q with
  | One, One | Two, Two => true
  | _, _ => false
  end.

(** The status changes a single write to the list may make to a half:
    none, Idle to Splitting (picked by the batch), Splitting to Idle (crop
    stored), Idle to Expanding (dispatched), Expanding to Done or to Error
    (the call settled), Error to Expanding (dispatched again). *)
Definition lifecycle (old new : ProcessStatus) : bool :=
  match old, new with
  | Idle, Idle | Splitting, Splitting | Expanding, Expanding
  | Done, Done | Error, Error => true
  | Idle, Splitting => true
  | Splitting, Idle => true
  | Idle, Expanding => true
  | Expanding, Done => true
  | Expanding, Error => true
  | Error, Expanding => true
  | _, _ => false
  end.

(** One write to the list, from [old] to [new]: the halves of an item that
    stays follow the lifecycle, and an item that appears is idle with
    nothing stored. *)
Definition writeOk (old new : list ProcessedImage) : Prop :=
  (forall a b p,
     In a old -> In b new -> id a = id b ->
     lifecycle (statusOf p a) (statusOf p b) = true) /\
  (forall b,
     In b new -> ~ In (id b) (map id old) ->
     splitPart1 b = idlePart /\ splitPart2 b = idlePart).

(** Every write in a sequence of values of the list, newest first. *)
Fixpoint chain (values : list (list ProcessedImage)) : Prop :=
  match values with
  | new :: ((old :: _) as earlier) => writeOk old new /\ chain earlier
  | _ => True
  end.

(** The number of suspended expansion calls for one half. *)
Definition inFlight (itemId : string) (partNumber : PartNumber)
    (es : list Expansion) : nat :=
  List.length
    (filter (fun e => String.eqb (e_itemId e) itemId
                      && part_eqb (e_partNumber e) partNumber) es).

(** The identifier generator never returns the same value twice. *)
Definition uniqueIds (B : Browser) : Prop :=
  forall m n, uuidv4 B m = uuidv4 B n -> m = n.

(** [x] is one of the first [calls] identifiers generated. *)
Definition issued (B : Browser) (calls : nat) (x : string) : Prop :=
  exists n, (n < calls)%nat /\ uuidv4 B n = x.

(** The part of the invariant about the list, the calls in flight and the
    history: identifiers are distinct and were issued; a half is Expanding
    exactly when one call is in flight for it, and no half has more; every
    write so far was a lifecycle write, starting from the empty list. *)
Definition Core (B : Browser) (its : list ProcessedImage)
    (es : list Expansion) (calls : nat)
    (hist : list (list ProcessedImage)) : Prop :=
  NoDup (map id its) /\
  (forall a, In a its -> issued B calls (id a)) /\
  (forall e, In e es -> issued B calls (e_itemId e)) /\
  (forall a p, In a its ->
     inFlight (id a) p es
       = if status_eqb (statusOf p a) Expanding then 1%nat else 0%nat) /\
  chain (its :: hist) /\
  last (its :: hist) [] = [].

(** The items of a suspended batch: the one being split has both halves
    Splitting, the ones still to come have both halves Idle. *)
Definition Tracked (B : Browser) (its : list ProcessedImage) (calls : nat)
    (current : ProcessedImage) (todo : list ProcessedImage) : Prop :=
  NoDup (map id (current :: todo)) /\
  (forall c, In c (current :: todo) -> issued B calls (id c)) /\
  (forall a, In a its -> id a = id current ->
     statusOf One a = Splitting /\ statusOf Two a = Splitting) /\
  (forall a, In a its -> In (id a) (map id todo) ->
     statusOf One a = Idle /\ statusOf Two a = Idle).

(** The invariant of the event loop: at most one batch is suspended, and
    only while [isProcessing] is set. *)
Definition Inv (B : Browser) (st : AppState) : Prop :=
  Core B (items st) (expansions st) (uuidCalls st) (history st) /\
  match batches st with
  | [] => True
  | [b] => isProcessing st = true /\
           Tracked B (items st) (uuidCalls st) (b_item b) (b_rest b)
  | _ => False
  end.

(** The order of the statuses as the specification words it: Idle, then
    Splitting, then Expanding, then Done or Error; a change is in order
    when it moves forward, or goes from Error back to Expanding. This is
    the reading the lifecycle of the code is compared with. *)
Definition rank (s : ProcessStatus) : nat :=
  match s with
  | Idle => 0
  | Splitting => 1
  | Expanding => 2
  | Done => 3
  | Error => 3
  end.

Definition claimedOrder (old new : ProcessStatus) : bool :=
  status_eqb old new
  || (rank old <? rank new)%nat
  || (status_eqb old Error && status_eqb new Expanding).

(** A change of the list that leaves alone the halves that are Done or
    Error. *)
Definition terminalFixed (old new : list ProcessedImage) : Prop :=
  forall a b p,
    In a old -> In b new -> id a = id b ->
    (statusOf p a = Done -> statusOf p b = Done) /\
    (statusOf p a = Error -> statusOf p b = Error).

(** What one turn of the event loop may do to a half that is Done or
    Error: nothing, except that the retry of that very half takes it from
    Error to Expanding. *)
Definition terminalKept (ev : Event) (old new : list ProcessedImage) : Prop :=
  forall a b p,
    In a old -> In b new -> id a = id b ->
    (statusOf p a = Done -> statusOf p b = Done) /\
    (statusOf p a = Error ->
       statusOf p b = Error \/
       (ev = ClickRetry (id a) p /\ statusOf p b = Expanding)).

(** The changes a single write to the list may make to a half, with what
    the half has stored: it is picked by the batch (Idle with no crop to
    Splitting), its crop is stored (Splitting to Idle with the crop), it is
    dispatched (Idle with its crop to Expanding), its call settles
    (Expanding to Done with the expanded image, or to Error), or it is
    dispatched again (Error to Expanding). Whatever is not named stays as
    it was. *)
Inductive partStep : SplitPart -> SplitPart -> Prop :=
| stays (p : SplitPart) : partStep p p
| picked (p : SplitPart) :
    status p = Idle -> url p = None ->
    partStep p (withStatus Splitting p)
| cropStored (p : SplitPart) (crop : string) :
    status p = Splitting ->
    partStep p (mkPart (Some crop) (expandedUrl p) Idle)
| dispatched (p : SplitPart) (crop : string) :
    status p = Idle -> url p = Some crop ->
    partStep p (withStatus Expanding p)
| succeeded (p : SplitPart) (expanded : string) :
    status p = Expanding ->
    partStep p (mkPart (url p) (Some expanded) Done)
| failed (p : SplitPart) :
    status p = Expanding ->
    partStep p (withStatus Error p)
| retried (p : SplitPart) :
    status p = Error ->
    partStep p (withStatus Expanding p).

(** One write to the list, from [old] to [new], half by half: every half
    of an item that stays makes one of the changes above, and an item that
    appears is idle with nothing stored. *)
Definition writeStep (old new : list ProcessedImage) : Prop :=
  (forall a b p,
     In a old -> In b new -> id a = id b ->
     partStep (getPart p a) (getPart p b)) /\
  (forall b,
     In b new -> ~ In (id b) (map id old) ->
     splitPart1 b = idlePart /\ splitPart2 b = idlePart).

(** Every write in a sequence of values of the list, newest first. *)
Fixpoint trail (values : list (list ProcessedImage)) : Prop :=
  match values with
  | new :: ((old :: _) as earlier) => writeStep old new /\ trail earlier
  | _ => True
  end.

(** What a half has stored, by its status: nothing before the split has
    succeeded, the crop from then on, and the expanded image (a PNG data
    URL) exactly when it is Done. *)
Definition storedPart (p : SplitPart) : Prop :=
  match status p with
  | Idle | Splitting => url p = None /\ expandedUrl p = None
  | Expanding | Error => (exists u, url p = Some u) /\ expandedUrl p = None
  | Done =>
      (exists u, url p = Some u) /\
      exists payload,
        truthy payload = true /\
        expandedUrl p = Some ("data:image/png;base64," ++ payload)%string
  end.

Definition Stored (st : AppState) : Prop :=
  forall a p, In a (items st) -> storedPart (getPart p a).

(** Every suspended batch and expansion captured settings with a key;
    every request sent carries a key; and the request of every suspended
    expansion is among the requests sent. *)
Definition Keyed (st : AppState) : Prop :=
  Forall (fun b => truthy (apiKey (b_settings b)) = true) (batches st) /\
  Forall (fun e => truthy (apiKey (e_settings e)) = true) (expansions st) /\
  Forall (fun rq => rq_apiKey rq <> "") (requests st) /\
  Forall (fun e => In (buildRequest (e_cropped e) (e_settings e))
                      (requests st))
         (expansions st).

(** What identifies an item and never changes: its identifier, its source
    image and its file. *)
Definition origin (item : ProcessedImage) : string * string * File :=
  (id item, originalUrl item, file item).

End App.

(* ===================================================================== *)
(** ** src/components/ResultCard.tsx                                      *)
(* ===================================================================== *)

Module ResultCard.

(** What the frame of a half shows. *)
Inductive Content : Type :=
| ExpandedImage (src : string)
| RawCrop (src : string)      (* the raw crop, dimmed *)
| Waiting.                    (* the waiting text *)

(** The elements of [ImagePart] that depend on its props. *)
Record ImagePartView : Type := mkView {
  doneBadge : bool;
  loadingOverlay : bool;
  retryButton : bool;
  content : Content;
  downloadHref : option string
}.

Definition ImagePart (url expandedUrl : option string)
    (status : ProcessStatus) : ImagePartView :=
  mkView (status_eqb status Done)
         (status_eqb status Expanding)
         (status_eqb status Error)
         (match expandedUrl with
          | Some e =>
              if truthy e then ExpandedImage e
              else match url with
                   | Some u => if truthy u then RawCrop u else Waiting
                   | None => Waiting
                   end
          | None =>
              match url with
              | Some u => if truthy u then RawCrop u else Waiting
              | None => Waiting
              end
          end)
         (if truthyOpt expandedUrl then expandedUrl else None).

(** The card of an item: its title, its thumbnail and its two halves. *)
Record CardView : Type := mkCard {
  title : string;
  thumbnail : string;
  half1 : ImagePartView;
  half2 : ImagePartView
}.

Definition ResultCard (item : ProcessedImage) : CardView :=
  mkCard (name (file item))
         (originalUrl item)
         (ImagePart (url (splitPart1 item)) (expandedUrl (splitPart1 item))
                    (status (splitPart1 item)))
         (ImagePart (url (splitPart2 item)) (expandedUrl (splitPart2 item))
                    (status (splitPart2 item))).

Definition halfView (partNumber : PartNumber) (card : CardView)
    : ImagePartView :=
  match partNumber with
  | One => half1 card
  | Two => half2 card
  end.

End ResultCard.

(* ===================================================================== *)
(** ** Concrete environments and inputs                                   *)
(* ===================================================================== *)

Module Sample.
Import ImageUtils GeminiService App.

(** A 3 x 2 image with pairwise distinct opaque pixels. *)
Definition img3x2 : Raster :=
  mkRaster 3 2 (fun x y => Some (x + 10 * y)%N).

Definition img4x2 : Raster :=
  mkRaster 4 2 (fun x y => Some (x + 10 * y)%N).

(** Identifiers: the n-th one is "u" followed by n strokes. *)
Fixpoint strokes (n : nat) : string :=
  match n with
  | O => ""
  | S k => String "|" (strokes k)
  end.

Definition uuid (n : nat) : string := String "u" (strokes n).

(** A browser that decodes two known data URLs, encodes a bitmap by its
    dimensions, and reads every non-empty file. *)
Definition browser : Browser :=
  mkBrowser
    (fun src => if String.eqb src "data:image/png;base64,ODD" then Some img3x2
                else if String.eqb src "data:image/png;base64,EVEN" then Some img4x2
                else None)
    true
    (fun r => ("data:image/png;base64,"
               ++ String (ascii_of_N (65 + width r))
                    (String (ascii_of_N (65 + height r))
                       (String (ascii_of_N
                                  (65 + match pixelAt r 0 0 with
                                        | Some c => c
                                        | None => 25
                                        end)) "")))%string)
    (fun f => if truthy (contents f)
              then Some ("data:" ++ type f ++ ";base64," ++ contents f)%string
              else None)
    uuid.

Definition pngOdd : File := mkFile "odd.png" "image/png" "ODD".
Definition pngEven : File := mkFile "even.png" "image/png" "EVEN".
Definition notes : File := mkFile "notes.txt" "text/plain" "hello".
Definition broken : File := mkFile "broken.png" "image/png" "".

Definition withKey : GeminiSettings :=
  mkSettings "AIzaSy-key" (Some "") (Some DEFAULT_MODEL).

(** The 3 x 2 image with another last column. *)
Definition img3x2' : Raster :=
  mkRaster 3 2 (fun x y => if (x =? 2)%N then None else Some (x + 10 * y)%N).

Definition keyStored : LocalStorage := mkStorage (Some "AIzaSy-key") None None.
Definition nothingStored : LocalStorage := mkStorage None None None.

(** A response with a text part and two image payloads. *)
Definition twoImages : GenerateContentResponse :=
  mkResponse
    (Some [mkCandidate
             (Some (mkContent
                      (Some [mkRPart (Some "Here you go") None;
                             mkRPart None (Some (mkInline (Some "image/png") (Some "QUJD")));
                             mkRPart None (Some (mkInline (Some "image/png") (Some "REVG")))])))]).

(** A response whose parts are a text and an inline datum that is the
    empty string. *)
Definition textOnly : GenerateContentResponse :=
  mkResponse
    (Some [mkCandidate
             (Some (mkContent
                      (Some [mkRPart (Some "I cannot do that") None;
                             mkRPart None (Some (mkInline (Some "image/png") (Some "")))])))]).

Definition orInitial (o : option AppState) : AppState :=
  match o with
  | Some st => st
  | None => initialState
  end.

(** The events of a session: mount with a stored key, select an image and
    a text file, let the upload be read, start the batch, let the split settle, let the first half
    fail on the network and the second one succeed, retry the first. *)
Definition session : list Event :=
  [FileSelect (Some [pngOdd; notes]); FilesRead 0; ClickStart;
   SplitSettled 0;
   ExpansionSettled 0 (Throw (NetworkRejected "timeout"));
   ExpansionSettled 0 (Ok twoImages);
   ClickRetry (uuid 0) One].

Definition after (n : nat) : AppState :=
  orInitial (run browser (firstn n session) (mount keyStored)).

Definition selected : AppState := after 1.
Definition uploaded : AppState := after 2.
Definition splittingState : AppState := after 3.
Definition expandingBoth : AppState := after 4.
Definition failedFirst : AppState := after 5.
Definition settledBoth : AppState := after 6.
Definition retried : AppState := after 7.

(** The page after mounting without a stored key and dismissing the
    settings dialog. *)
Definition dismissed : AppState :=
  orInitial (run browser [CloseSettings] (mount nothingStored)).

(** The item of the session once both calls have settled, and when only
    the first has. *)
Definition settledItem : ProcessedImage :=
  mkItem (uuid 0) "data:image/png;base64,ODD" pngOdd
         (mkPart (Some "data:image/png;base64,BCA") None Error)
         (mkPart (Some "data:image/png;base64,BCB")
                 (Some "data:image/png;base64,QUJD") Done).

Definition failedItem : ProcessedImage :=
  mkItem (uuid 0) "data:image/png;base64,ODD" pngOdd
         (mkPart (Some "data:image/png;base64,BCA") None Error)
         (mkPart (Some "data:image/png;base64,BCB") None Expanding).

(** Two images uploaded with a key stored, a text file between them. *)
Definition twoUploaded : AppState :=
  orInitial (run browser
                 [FileSelect (Some [pngOdd; notes; pngEven]); FilesRead 0]
                 (mount keyStored)).

(** Two images uploaded with no key stored, the dialog dismissed. *)
Definition twoIdleNoKey : AppState :=
  orInitial (run browser
                 [CloseSettings; FileSelect (Some [pngOdd; pngEven]);
                  FilesRead 0]
                 (mount nothingStored)).



(** A batch over two uploads: the first item's first call fails, its
    second and the second item's first succeed, the second item's second
    call fails, and the first item's failed half is retried. *)
Definition twoSession : list Event :=
  [FileSelect (Some [pngOdd; notes; pngEven]); FilesRead 0; ClickStart;
   SplitSettled 0; ExpansionSettled 0 (Throw (NetworkRejected "timeout"));
   SplitSettled 0; ExpansionSettled 0 (Ok twoImages);
   ExpansionSettled 0 (Ok twoImages);
   ExpansionSettled 0 (Throw (NetworkRejected "timeout"));
   ClickRetry (uuid 0) One].

Definition twoRetried : AppState :=
  orInitial (run browser twoSession (mount keyStored)).

(** The upload is removed while the batch awaits its split. *)
Definition removedWhileSplitting : AppState :=
  orInitial (run browser
                 [FileSelect (Some [pngOdd]); FilesRead 0; ClickStart;
                  ClickRemove (uuid 0)]
                 (mount keyStored)).

(** An upload whose image cannot be decoded, with the batch started. *)
Definition undecodable : File := mkFile "bad.png" "image/png" "GARBAGE".

Definition splittingUndecodable : AppState :=
  orInitial (run browser
                 [FileSelect (Some [undecodable]); FilesRead 0; ClickStart]
                 (mount keyStored)).

End Sample.

(* ===================================================================== *)
(** ** The splitter                                                       *)
(* ===================================================================== *)

Section Splitter.
Import ImageUtils.

Lemma over_transparent (p : Pixel) : over p None = p.
Proof. destruct p; reflexivity. Qed.

Lemma splitRaster_horizontal_size (img : Raster) :
  let (part1, part2) := splitRaster img Horizontal in
  width part1 = (width img / 2)%N /\ height part1 = height img /\
  width part2 = (width img / 2)%N /\ height part2 = height img.
Proof. simpl. repeat split. Qed.

Lemma splitRaster_vertical_size (img : Raster) :
  let (part1, part2) := splitRaster img Vertical in
  width part1 = width img /\ height part1 = (height img / 2)%N /\
  width part2 = width img /\ height part2 = (height img / 2)%N.
Proof. simpl. repeat split. Qed.

Lemma inRect_true (x y rx ry rw rh : N) :
  (rx <= x < rx + rw)%N -> (ry <= y < ry + rh)%N ->
  inRect x y rx ry rw rh = true.
Proof.
  intros [H1 H2] [H3 H4]. unfold inRect.
  apply N.leb_le in H1, H3. apply N.ltb_lt in H2, H4.
  rewrite H1, H2, H3, H4. reflexivity.
Qed.

Lemma drawImage_inside (img c : Raster) (sx sy sw sh x y : N) :
  (x < sw)%N -> (y < sh)%N ->
  (sx + x < width img)%N -> (sy + y < height img)%N ->
  pixelAt (drawImage img sx sy sw sh 0 0 sw sh c) x y
    = over (pixelAt img (sx + x)%N (sy + y)%N) (pixelAt c x y).
Proof.
  intros Hx Hy Hu Hv. unfold drawImage. cbn [pixelAt].
  rewrite !N.sub_0_r.
  rewrite (inRect_true x y 0 0 sw sh) by lia.
  rewrite (inRect_true (sx + x) (sy + y) sx sy sw sh) by lia.
  rewrite (inRect_true (sx + x) (sy + y) 0 0 (width img) (height img)) by lia.
  reflexivity.
Qed.

Lemma clearRect_inside (c : Raster) (w h x y : N) :
  (x < w)%N -> (y < h)%N -> pixelAt (clearRect 0 0 w h c) x y = None.
Proof.
  intros Hx Hy. unfold clearRect. cbn [pixelAt].
  rewrite (inRect_true x y 0 0 w h) by lia.
  reflexivity.
Qed.

(** The left part shows the columns [0, w/2) of the source, the right part
    the columns [w/2, 2 * (w/2)). *)
Lemma splitRaster_horizontal_pixels (img : Raster) (x y : N) :
  (x < width img / 2)%N -> (y < height img)%N ->
  pixelAt (fst (splitRaster img Horizontal)) x y = pixelAt img x y /\
  pixelAt (snd (splitRaster img Horizontal)) x y
    = pixelAt img (width img / 2 + x)%N y.
Proof.
  intros Hx Hy.
  assert (Hw : (2 * (width img / 2) <= width img)%N)
    by (apply N.Div0.mul_div_le).
  unfold splitRaster. cbn [fst snd]. split.
  - rewrite drawImage_inside by lia. rewrite !N.add_0_l.
    apply over_transparent.
  - rewrite drawImage_inside by lia. rewrite N.add_0_l.
    rewrite clearRect_inside by lia. apply over_transparent.
Qed.

Lemma splitRaster_vertical_pixels (img : Raster) (x y : N) :
  (x < width img)%N -> (y < height img / 2)%N ->
  pixelAt (fst (splitRaster img Vertical)) x y = pixelAt img x y /\
  pixelAt (snd (splitRaster img Vertical)) x y
    = pixelAt img x (height img / 2 + y)%N.
Proof.
  intros Hx Hy.
  assert (Hh : (2 * (height img / 2) <= height img)%N)
    by (apply N.Div0.mul_div_le).
  unfold splitRaster. cbn [fst snd]. split.
  - rewrite drawImage_inside by lia. rewrite !N.add_0_l.
    apply over_transparent.
  - rewrite drawImage_inside by lia. rewrite N.add_0_l.
    rewrite clearRect_inside by lia. apply over_transparent.
Qed.

(** C1, as amended. For every source that decodes to an image of width W
    and height H (and a canvas context being available), [splitImage]
    returns the encodings of two bitmaps: split horizontally, both have
    width floor(W/2) and height H; split vertically, both have height
    floor(H/2) and width W. The second part is drawn on the canvas sized
    for the first, so it never has the remainder W - floor(W/2). *)
Theorem splitImage_equal_halves
    (B : Browser) (imageSrc : string) (direction : SplitDirection)
    (img : Raster) :
  decodeImage B imageSrc = Some img ->
  context2d B = true ->
  exists part1 part2,
    splitImage B imageSrc direction
      = Ok (toDataURL B part1, toDataURL B part2) /\
    (part1, part2) = splitRaster img direction /\
    match direction with
    | Horizontal =>
        width part1 = (width img / 2)%N /\ height part1 = height img /\
        width part2 = (width img / 2)%N /\ height part2 = height img
    | Vertical =>
        width part1 = width img /\ height part1 = (height img / 2)%N /\
        width part2 = width img /\ height part2 = (height img / 2)%N
    end.
Proof.
  intros Hdec Hctx.
  unfold splitImage, loadImage. rewrite Hdec, Hctx.
  destruct (splitRaster img direction) as [part1 part2] eqn:Hsplit.
  exists part1, part2. split; [reflexivity|]. split; [reflexivity|].
  destruct direction.
  - pose proof (splitRaster_horizontal_size img) as H.
    rewrite Hsplit in H. exact H.
  - pose proof (splitRaster_vertical_size img) as H.
    rewrite Hsplit in H. exact H.
Qed.

Lemma splitImage_equal_halves_witness :
  exists part1 part2,
    splitImage Sample.browser "data:image/png;base64,ODD" Horizontal
      = Ok (toDataURL Sample.browser part1, toDataURL Sample.browser part2) /\
    (part1, part2) = splitRaster Sample.img3x2 Horizontal /\
    width part1 = 1%N /\ height part1 = 2%N /\
    width part2 = 1%N /\ height part2 = 2%N.
Proof.
  exact (splitImage_equal_halves Sample.browser
           "data:image/png;base64,ODD" Horizontal
           Sample.img3x2 eq_refl eq_refl).
Defined.

(** C1 as stated fails on an image of odd width: a 3 x 2 image split
    horizontally gives a second part of width 1, not 3 - 1 = 2. *)
Lemma split_odd_width_counterexample :
  ~ (width (fst (splitRaster Sample.img3x2 Horizontal))
       = (width Sample.img3x2 / 2)%N /\
     width (snd (splitRaster Sample.img3x2 Horizontal))
       = (width Sample.img3x2 - width Sample.img3x2 / 2)%N).
Proof. simpl. intros [_ H]. discriminate H. Qed.

End Splitter.

(* ===================================================================== *)
(** ** The expander client                                                *)
(* ===================================================================== *)

Section Expander.
Import GeminiService.

Lemma truthy_false_iff (s : string) : truthy s = false <-> s = "".
Proof.
  unfold truthy. rewrite negb_false_iff. apply String.eqb_eq.
Qed.

Lemma truthy_true_iff (s : string) : truthy s = true <-> s <> "".
Proof.
  unfold truthy. rewrite negb_true_iff. apply String.eqb_neq.
Qed.

Lemma firstInlineData_head (ps : list Part) :
  firstInlineData ps = hd_error (flat_map payloadOf ps).
Proof.
  induction ps as [|part rest IH]; simpl; [reflexivity|].
  destruct part as [t [[m [payload|]]|]]; simpl; try exact IH.
  unfold truthy. destruct (String.eqb payload ""); simpl;
    [exact IH|reflexivity].
Qed.

(** The parts the client loops over are those of the first candidate. *)
Lemma responseParts_first (r : GenerateContentResponse) :
  match responseParts r with
  | Some ps => flat_map payloadOf ps
  | None => []
  end = responseImages r.
Proof.
  unfold responseParts, responseImages, firstCandidateParts.
  destruct r as [[[|[[[[ps|]]|]] cs]|]]; reflexivity.
Qed.

Lemma expand_sent (net : Request -> Result GenerateContentResponse)
    (base64Image : string) (s : GeminiSettings) :
  sent (expandImageWithGemini net base64Image s) = requestsOf base64Image s.
Proof.
  unfold expandImageWithGemini, requestsOf.
  destruct (truthy (apiKey s)); simpl; [|reflexivity].
  destruct (net (buildRequest base64Image s)) as [r|e]; [|reflexivity].
  destruct (responseParts r) as [ps|]; [|reflexivity].
  destruct (firstInlineData ps); reflexivity.
Qed.

(** How a call with a configured key ends, by what the network answers. *)
Lemma expand_with_key (net : Request -> Result GenerateContentResponse)
    (base64Image : string) (s : GeminiSettings) :
  truthy (apiKey s) = true ->
  outcome (expandImageWithGemini net base64Image s) =
    match net (buildRequest base64Image s) with
    | Throw e => Throw e
    | Ok r =>
        match responseImages r with
        | payload :: _ => Ok ("data:image/png;base64," ++ payload)%string
        | [] => Throw noImageData
        end
    end.
Proof.
  intros Hkey. unfold expandImageWithGemini. rewrite Hkey.
  simpl. destruct (net (buildRequest base64Image s)) as [r|e]; [|reflexivity].
  rewrite <- responseParts_first.
  destruct (responseParts r) as [ps|]; [|reflexivity].
  rewrite firstInlineData_head.
  destruct (flat_map payloadOf ps); reflexivity.
Qed.

Lemma expand_without_key (net : Request -> Result GenerateContentResponse)
    (base64Image : string) (s : GeminiSettings) :
  truthy (apiKey s) = false ->
  expandImageWithGemini net base64Image s = mkRun (Throw missingKey) [] [].
Proof.
  intros Hkey. unfold expandImageWithGemini. rewrite Hkey. reflexivity.
Qed.

(** C5. The expander client throws exactly when no credential is
    configured, when the network call errors, or when the response carries
    no image payload, that is, when no part of its first candidate has
    non-empty inline data; otherwise it returns the first such payload of
    the response, as a PNG data URL. The error is surfaced: without a key
    it is the missing-key error and nothing is sent, a network error is
    rethrown as it is, and a response without payload gives the
    no-image-data error. At most one request is sent: there is no internal
    retry. *)
Theorem expandImageWithGemini_fails_exactly
    (net : Request -> Result GenerateContentResponse)
    (base64Image : string) (s : GeminiSettings) :
  let run := expandImageWithGemini net base64Image s in
  let request := buildRequest base64Image s in
  ((exists e, outcome run = Throw e) <->
     (apiKey s = ""
      \/ (exists e, net request = Throw e)
      \/ (exists r, net request = Ok r /\ responseImages r = []))) /\
  (forall v, outcome run = Ok v <->
     (apiKey s <> "" /\
      exists r payload rest,
        net request = Ok r /\ responseImages r = payload :: rest /\
        v = ("data:image/png;base64," ++ payload)%string)) /\
  (apiKey s = "" -> outcome run = Throw missingKey /\ sent run = []) /\
  (forall e, apiKey s <> "" -> net request = Throw e ->
     outcome run = Throw e) /\
  (forall r, apiKey s <> "" -> net request = Ok r ->
     responseImages r = [] -> outcome run = Throw noImageData) /\
  (List.length (sent run) <= 1)%nat.
Proof.
  cbv zeta.
  destruct (truthy (apiKey s)) eqn:Hkey.
  - pose proof (expand_with_key net base64Image s Hkey) as Hout.
    pose proof (proj1 (truthy_true_iff _) Hkey) as Hne.
    split; [|split; [|split; [|split; [|split]]]].
    + split.
      * intros [e He]. rewrite Hout in He. right.
        destruct (net (buildRequest base64Image s)) as [r|e'].
        -- right. exists r. split; [reflexivity|].
           destruct (responseImages r); [reflexivity|discriminate He].
        -- left. exists e'. reflexivity.
      * intros [Hk | [[e He] | [r [Hr Hp]]]].
        -- contradiction.
        -- exists e. rewrite Hout, He. reflexivity.
        -- exists noImageData. rewrite Hout, Hr, Hp. reflexivity.
    + intros v. split.
      * intros Hv. split; [exact Hne|]. rewrite Hout in Hv.
        destruct (net (buildRequest base64Image s)) as [r|e'];
          [|discriminate Hv].
        destruct (responseImages r) as [|payload rest] eqn:Hp;
          [discriminate Hv|].
        exists r, payload, rest. injection Hv as <-.
        split; [reflexivity|]. split; [exact Hp|reflexivity].
      * intros [_ [r [payload [rest [Hr [Hp ->]]]]]].
        rewrite Hout, Hr, Hp. reflexivity.
    + intros Hempty. contradiction.
    + intros e _ He. rewrite Hout, He. reflexivity.
    + intros r _ Hr Hp. rewrite Hout, Hr, Hp. reflexivity.
    + rewrite expand_sent. unfold requestsOf. rewrite Hkey. simpl. lia.
  - pose proof (expand_without_key net base64Image s Hkey) as Hrun.
    pose proof (proj1 (truthy_false_iff _) Hkey) as Hempty.
    rewrite Hrun. simpl.
    split; [|split; [|split; [|split; [|split]]]].
    + split.
      * intros _. left. exact Hempty.
      * intros _. exists missingKey. reflexivity.
    + intros v. split.
      * intros Hv. discriminate Hv.
      * intros [Hne _]. contradiction.
    + intros _. split; reflexivity.
    + intros e Hne. contradiction.
    + intros r Hne. contradiction.
    + lia.
Qed.

Lemma expandImageWithGemini_fails_exactly_witness :
  responseImages Sample.twoImages = ["QUJD"; "REVG"] /\
  outcome (expandImageWithGemini (fun _ => Ok Sample.twoImages)
             "data:image/png;base64,BCA" Sample.withKey)
    = Ok "data:image/png;base64,QUJD" /\
  responseImages Sample.textOnly = [] /\
  outcome (expandImageWithGemini (fun _ => Ok Sample.textOnly)
             "data:image/png;base64,BCA" Sample.withKey)
    = Throw noImageData.
Proof.
  split; [reflexivity|]. split; [|split; [reflexivity|]].
  - destruct (expandImageWithGemini_fails_exactly
                (fun _ => Ok Sample.twoImages)
                "data:image/png;base64,BCA" Sample.withKey)
      as [_ [Hok _]].
    apply Hok. split; [discriminate|].
    exists Sample.twoImages, "QUJD", ["REVG"].
    split; [reflexivity|]. split; reflexivity.
  - destruct (expandImageWithGemini_fails_exactly
                (fun _ => Ok Sample.textOnly)
                "data:image/png;base64,BCA" Sample.withKey)
      as [_ [_ [_ [_ [Hnone _]]]]].
    apply (Hnone Sample.textOnly); [discriminate|reflexivity|reflexivity].
Defined.

End Expander.

(* ===================================================================== *)
(** ** The item list and its updaters                                     *)
(* ===================================================================== *)

Section Items.
Import ImageUtils GeminiService App.

Lemma filter_keep_all {A : Type} (f : A -> bool) (l : list A) :
  (forall x, In x l -> f x = true) -> filter f l = l.
Proof.
  induction l as [|x l IH]; simpl; intros H; [reflexivity|].
  rewrite (H x (or_introl eq_refl)). f_equal. apply IH.
  intros y Hy. apply H. right. exact Hy.
Qed.

Lemma keeps_other_id (itemId : string) (item : ProcessedImage) :
  negb (String.eqb (id item) itemId) = true <-> id item <> itemId.
Proof. rewrite negb_true_iff. apply String.eqb_neq. Qed.

Lemma removeItem_missing (itemId : string) (l : list ProcessedImage) :
  ~ In itemId (map id l) ->
  filter (fun item => negb (String.eqb (id item) itemId)) l = l.
Proof.
  intros Hnot. apply filter_keep_all. intros x Hx.
  apply keeps_other_id. intros Heq. apply Hnot. rewrite <- Heq.
  apply in_map. exact Hx.
Qed.

(** C6. Removing an identifier that is not in the list leaves the list as
    it is; removing one that is present (once) removes exactly that item
    and keeps the others in order; in general the result holds exactly the
    items with another identifier, and removing twice is removing once. *)
Theorem removeItem_exact (itemId : string) (st : AppState) :
  (~ In itemId (map id (items st)) ->
   items (removeItem itemId st) = items st) /\
  (forall before item after,
     items st = before ++ item :: after ->
     id item = itemId ->
     ~ In itemId (map id before) -> ~ In itemId (map id after) ->
     items (removeItem itemId st) = before ++ after) /\
  (forall item,
     In item (items (removeItem itemId st)) <->
     In item (items st) /\ id item <> itemId) /\
  items (removeItem itemId (removeItem itemId st))
    = items (removeItem itemId st).
Proof.
  unfold removeItem. simpl. split; [|split; [|split]].
  - apply removeItem_missing.
  - intros before item after Heq Hid Hb Ha. rewrite Heq.
    rewrite filter_app. simpl.
    rewrite (removeItem_missing itemId before Hb).
    rewrite (removeItem_missing itemId after Ha).
    rewrite Hid, String.eqb_refl. reflexivity.
  - intros item. rewrite filter_In. rewrite keeps_other_id. reflexivity.
  - apply filter_keep_all. intros x Hx. apply filter_In in Hx. apply Hx.
Qed.

Lemma removeItem_exact_witness :
  items (removeItem "missing" Sample.uploaded) = items Sample.uploaded.
Proof.
  apply (proj1 (removeItem_exact "missing" Sample.uploaded)).
  vm_compute. intros [H|[]]. discriminate H.
Defined.

(** *** Updates of one half *)

Lemma sameExcept_map (itemId : string) (partNumber : PartNumber)
    (f : ProcessedImage -> ProcessedImage) (l : list ProcessedImage) :
  (forall a,
     id (f a) = id a /\ originalUrl (f a) = originalUrl a /\
     file (f a) = file a /\
     getPart (other partNumber) (f a) = getPart (other partNumber) a /\
     (id a <> itemId -> f a = a)) ->
  sameExcept itemId partNumber l (map f l).
Proof.
  intros Hf. unfold sameExcept.
  induction l as [|a l IH]; simpl; constructor; [apply Hf|exact IH].
Qed.

Lemma setPart_frame (partNumber : PartNumber) (v : SplitPart)
    (a : ProcessedImage) :
  id (setPart partNumber v a) = id a /\
  originalUrl (setPart partNumber v a) = originalUrl a /\
  file (setPart partNumber v a) = file a /\
  getPart (other partNumber) (setPart partNumber v a)
    = getPart (other partNumber) a /\
  getPart partNumber (setPart partNumber v a) = v.
Proof. destruct partNumber; simpl; repeat split. Qed.

Ltac own_half_frame :=
  match goal with
  | |- context [String.eqb (id ?a) ?itemId] =>
      destruct (String.eqb_spec (id a) itemId) as [Heq|Hne]; simpl;
      [ match goal with
        | |- context [setPart ?p ?v ?a'] =>
            destruct (setPart_frame p v a') as [H1 [H2 [H3 [H4 _]]]];
            repeat split; try assumption; intros Hc; contradiction
        end
      | repeat split ]
  end.

Lemma markExpanding_frame (itemId : string) (partNumber : PartNumber)
    (l : list ProcessedImage) :
  sameExcept itemId partNumber l (map (markExpanding itemId partNumber) l).
Proof.
  apply sameExcept_map. intros a. unfold markExpanding. own_half_frame.
Qed.

Lemma markDone_frame (itemId : string) (partNumber : PartNumber)
    (expandedBase64 : string) (l : list ProcessedImage) :
  sameExcept itemId partNumber l
    (map (markDone itemId partNumber expandedBase64) l).
Proof.
  apply sameExcept_map. intros a. unfold markDone. own_half_frame.
Qed.

Lemma markError_frame (itemId : string) (partNumber : PartNumber)
    (l : list ProcessedImage) :
  sameExcept itemId partNumber l (map (markError itemId partNumber) l).
Proof.
  apply sameExcept_map. intros a. unfold markError. own_half_frame.
Qed.

Lemma Forall2_map_same {A : Type} (R : A -> A -> Prop) (f : A -> A)
    (l : list A) :
  (forall a, R a (f a)) -> Forall2 R l (map f l).
Proof.
  intros H. induction l as [|a l IH]; simpl; constructor; [apply H|exact IH].
Qed.

Lemma Forall2_same {A : Type} (R : A -> A -> Prop) (l : list A) :
  (forall a, R a a) -> Forall2 R l l.
Proof.
  intros H. induction l as [|a l IH]; constructor; [apply H|exact IH].
Qed.

Lemma markError_own (itemId : string) (partNumber : PartNumber)
    (l : list ProcessedImage) :
  Forall2 (fun a b => id a = itemId ->
                      getPart partNumber b
                        = withStatus Error (getPart partNumber a))
          l (map (markError itemId partNumber) l).
Proof.
  apply Forall2_map_same. intros a Hid. unfold markError.
  rewrite Hid, String.eqb_refl. simpl. apply setPart_frame.
Qed.


Lemma markDone_own (itemId : string) (partNumber : PartNumber)
    (expandedBase64 : string) (l : list ProcessedImage) :
  Forall2 (fun a b => id a = itemId ->
                      getPart partNumber b
                        = mkPart (url (getPart partNumber a))
                                 (Some expandedBase64) Done)
          l (map (markDone itemId partNumber expandedBase64) l).
Proof.
  apply Forall2_map_same. intros a Hid. unfold markDone.
  rewrite Hid, String.eqb_refl. simpl. apply setPart_frame.
Qed.

End Items.

(* ===================================================================== *)
(** ** The operations of the state tracker                                *)
(* ===================================================================== *)

Section Operations.
Import ImageUtils GeminiService App.

(** C3. With no credential configured (the key in the settings is the
    empty string), the batch start operation only opens the settings
    dialog: it puts no request on the network, suspends no expansion call
    and no batch, calls the splitter for no item and leaves the items as
    they are; the same holds for the click on the start button. The client
    itself sends nothing either when it is called without a key. *)
Theorem startProcessing_without_key (B : Browser) (st : AppState) :
  apiKey (settings st) = "" ->
  startProcessing st = setShowSettings true st /\
  requests (startProcessing st) = requests st /\
  expansions (startProcessing st) = expansions st /\
  batches (startProcessing st) = batches st /\
  splitCalls (startProcessing st) = splitCalls st /\
  items (startProcessing st) = items st /\
  (forall st', exec B ClickStart st = Some st' ->
     requests st' = requests st /\ expansions st' = expansions st) /\
  (forall net base64Image,
     sent (expandImageWithGemini net base64Image (settings st)) = []).
Proof.
  intros Hkey.
  assert (Hstart : startProcessing st = setShowSettings true st).
  { unfold startProcessing. rewrite Hkey. reflexivity. }
  rewrite Hstart. simpl. repeat split.
  - unfold whenEnabled in H.
    destruct (negb (startDisabled st)); [|discriminate H].
    injection H as <-. rewrite Hstart. reflexivity.
  - unfold whenEnabled in H.
    destruct (negb (startDisabled st)); [|discriminate H].
    injection H as <-. rewrite Hstart. reflexivity.
  - intros net base64Image. rewrite expand_sent. unfold requestsOf.
    rewrite Hkey. reflexivity.
Qed.

Lemma exec_ClickStart (B : Browser) (st : AppState) :
  exec B ClickStart st
    = whenEnabled (negb (startDisabled st)) (startProcessing st).
Proof. reflexivity. Qed.

(** Two idle items are waiting and the start button is enabled, yet a
    start without a key marks none of them and suspends nothing. *)
Lemma startProcessing_without_key_witness :
  map (fun a => (id a, statusOf One a, statusOf Two a))
      (items Sample.twoIdleNoKey)
    = [(Sample.uuid 0, Idle, Idle); (Sample.uuid 1, Idle, Idle)] /\
  startDisabled Sample.twoIdleNoKey = false /\
  exec Sample.browser ClickStart Sample.twoIdleNoKey
    = Some (setShowSettings true Sample.twoIdleNoKey) /\
  items (startProcessing Sample.twoIdleNoKey) = items Sample.twoIdleNoKey /\
  requests (startProcessing Sample.twoIdleNoKey) = [] /\
  expansions (startProcessing Sample.twoIdleNoKey) = [] /\
  batches (startProcessing Sample.twoIdleNoKey) = [] /\
  splitCalls (startProcessing Sample.twoIdleNoKey) = [].
Proof.
  assert (Hkey : apiKey (settings Sample.twoIdleNoKey) = "")
    by (vm_compute; reflexivity).
  assert (Hitems : map (fun a => (id a, statusOf One a, statusOf Two a))
                       (items Sample.twoIdleNoKey)
                   = [(Sample.uuid 0, Idle, Idle);
                      (Sample.uuid 1, Idle, Idle)])
    by (vm_compute; reflexivity).
  assert (Hstart : startDisabled Sample.twoIdleNoKey = false)
    by (vm_compute; reflexivity).
  assert (Hr0 : requests Sample.twoIdleNoKey = [])
    by (vm_compute; reflexivity).
  assert (He0 : expansions Sample.twoIdleNoKey = [])
    by (vm_compute; reflexivity).
  assert (Hb0 : batches Sample.twoIdleNoKey = [])
    by (vm_compute; reflexivity).
  assert (Hs0 : splitCalls Sample.twoIdleNoKey = [])
    by (vm_compute; reflexivity).
  destruct (startProcessing_without_key Sample.browser Sample.twoIdleNoKey
              Hkey)
    as [Heq [Hr [He [Hb [Hs [Hi _]]]]]].
  split; [exact Hitems|]. split; [exact Hstart|]. split.
  - rewrite exec_ClickStart, Hstart, Heq.
    exact (eq_refl (Some (setShowSettings true Sample.twoIdleNoKey))).
  - split; [exact Hi|]. split; [rewrite Hr; exact Hr0|].
    split; [rewrite He; exact He0|]. split; [rewrite Hb; exact Hb0|].
    rewrite Hs. exact Hs0.
Defined.

(** C4. Each expansion step writes only the half it was dispatched for:
    the dispatch (status Expanding) and the settling of the call, be it a
    success or a failure, leave every other item and the sibling half of
    the same item (status, cropped image, expanded image) as they were,
    and the suspended call of the sibling stays in flight. On a failure
    the own half keeps its images and gets the status Error. *)
Theorem expansion_writes_own_half :
  (forall itemId partNumber croppedBase64 currentSettings st,
     let st' := processImagePart itemId partNumber croppedBase64
                                 currentSettings st in
     sameExcept itemId partNumber (items st) (items st') /\
     expansions st'
       = expansions st
         ++ [mkExpansion itemId partNumber croppedBase64 currentSettings]) /\
  (forall k response st st' e,
     nth_error (expansions st) k = Some e ->
     expansionSettled k response st = Some st' ->
     sameExcept (e_itemId e) (e_partNumber e) (items st) (items st') /\
     expansions st' = removeNth k (expansions st) /\
     (forall error,
        outcome (expandImageWithGemini (fun _ => response)
                                       (e_cropped e) (e_settings e))
          = Throw error ->
        Forall2
          (fun a b => id a = e_itemId e ->
                      getPart (e_partNumber e) b
                        = withStatus Error (getPart (e_partNumber e) a))
          (items st) (items st'))).
Proof.
  split.
  - intros itemId partNumber croppedBase64 currentSettings st. simpl.
    split; [apply markExpanding_frame|reflexivity].
  - intros k response st st' e He Hsettled.
    unfold expansionSettled in Hsettled. rewrite He in Hsettled.
    destruct (outcome (expandImageWithGemini (fun _ => response)
                         (e_cropped e) (e_settings e)))
      as [expandedBase64|error] eqn:Hout;
      injection Hsettled as <-; simpl.
    + split; [apply markDone_frame|]. split; [reflexivity|].
      intros error Herr. discriminate Herr.
    + split; [apply markError_frame|]. split; [reflexivity|].
      intros _ _. apply markError_own.
Qed.

Lemma expansion_writes_own_half_witness :
  sameExcept (Sample.uuid 0) One
    (items Sample.expandingBoth) (items Sample.failedFirst) /\
  expansions Sample.failedFirst
    = removeNth 0 (expansions Sample.expandingBoth).
Proof.
  assert (Hnth : nth_error (expansions Sample.expandingBoth) 0
                 = Some (mkExpansion (Sample.uuid 0) One
                           "data:image/png;base64,BCA" Sample.withKey))
    by (vm_compute; reflexivity).
  assert (Hstep : expansionSettled 0 (Throw (NetworkRejected "timeout"))
                    Sample.expandingBoth = Some Sample.failedFirst)
    by (vm_compute; reflexivity).
  destruct (proj2 expansion_writes_own_half 0
              (Throw (NetworkRejected "timeout"))
              Sample.expandingBoth Sample.failedFirst _ Hnth Hstep)
    as [Hframe [Hexp _]].
  split; [exact Hframe|exact Hexp].
Defined.






Lemma splitImage_throws_iff (B : Browser) (imageSrc : string)
    (direction : SplitDirection) :
  (exists e, splitImage B imageSrc direction = Throw e) <->
  (decodeImage B imageSrc = None \/ context2d B = false).
Proof.
  unfold splitImage, loadImage.
  destruct (decodeImage B imageSrc) as [img|].
  - destruct (context2d B).
    + destruct (splitRaster img direction). split.
      * intros [e He]. discriminate He.
      * intros [H|H]; discriminate H.
    + split; [intros _; right; reflexivity|].
      intros _. eexists. reflexivity.
  - split; [intros _; left; reflexivity|].
    intros _. eexists. reflexivity.
Qed.

Lemma markSplitting_keeps (itemId : string) (a : ProcessedImage) :
  id (markSplitting itemId a) = id a /\
  forall p,
    url (getPart p (markSplitting itemId a)) = url (getPart p a) /\
    expandedUrl (getPart p (markSplitting itemId a))
      = expandedUrl (getPart p a) /\
    (status (getPart p (markSplitting itemId a)) = status (getPart p a) \/
     (status (getPart p (markSplitting itemId a)) = Splitting /\
      id a = itemId)).
Proof.
  unfold markSplitting.
  destruct (String.eqb_spec (id a) itemId) as [Heq|Hne].
  - split; [reflexivity|]. intros [|]; simpl; repeat split; right;
      split; auto.
  - split; [reflexivity|]. intros p. repeat split. left. reflexivity.
Qed.

(** C8. When the split of an item fails (its source cannot be decoded, or
    no canvas context is available), the failure is written to the console
    and the loop goes on: no expansion call is dispatched, no request is
    sent, no status becomes Error. No item's cropped or expanded image
    changes; the only status written is Splitting, for the next item of
    the batch. *)
Theorem split_failure_is_logged_only
    (B : Browser) (k : nat) (st : AppState) (b : Batch) (e : Exn) :
  nth_error (batches st) k = Some b ->
  splitImage B (originalUrl (b_item b)) (b_direction b) = Throw e ->
  exists st',
    splitSettled B k st = Some st' /\
    console st' = console st ++ [SplittingError e] /\
    expansions st' = expansions st /\
    requests st' = requests st /\
    Forall2
      (fun a a' =>
         id a' = id a /\
         forall p,
           url (getPart p a') = url (getPart p a) /\
           expandedUrl (getPart p a') = expandedUrl (getPart p a) /\
           (status (getPart p a') = status (getPart p a) \/
            (status (getPart p a') = Splitting /\
             exists next, hd_error (b_rest b) = Some next /\
                          id a = id next)))
      (items st) (items st').
Proof.
  intros Hb Hsplit. unfold splitSettled. rewrite Hb, Hsplit.
  eexists. split; [reflexivity|].
  destruct (b_rest b) as [|next rest]; simpl.
  - repeat split. apply Forall2_same. intros a. split; [reflexivity|].
    intros p. repeat split. left. reflexivity.
  - repeat split. apply Forall2_map_same. intros a.
    destruct (markSplitting_keeps (id next) a) as [Hid Hp].
    split; [exact Hid|]. intros p.
    destruct (Hp p) as [Hu [Hx Hs]]. repeat split; try assumption.
    destruct Hs as [Hs|[Hs Hn]]; [left; exact Hs|].
    right. split; [exact Hs|]. exists next. split; [reflexivity|exact Hn].
Qed.

Lemma split_failure_is_logged_only_witness :
  exists st',
    splitSettled Sample.browser 0 Sample.splittingUndecodable = Some st' /\
    console st' = [SplittingError LoadRejected] /\
    expansions st' = [] /\
    requests st' = [] /\
    map (fun a => (status (splitPart1 a), status (splitPart2 a))) (items st')
      = [(Splitting, Splitting)].
Proof.
  assert (Hb : nth_error (batches Sample.splittingUndecodable) 0
               = Some (mkBatch
                         (mkItem (Sample.uuid 0)
                                 "data:image/png;base64,GARBAGE"
                                 Sample.undecodable idlePart idlePart)
                         [] Sample.withKey Horizontal))
    by (vm_compute; reflexivity).
  destruct (split_failure_is_logged_only Sample.browser 0
              Sample.splittingUndecodable _ LoadRejected Hb eq_refl)
    as [st' [Hst [Hc [He [Hr _]]]]].
  exists st'. split; [exact Hst|].
  split; [rewrite Hc; vm_compute; reflexivity|].
  split; [rewrite He; vm_compute; reflexivity|].
  split; [rewrite Hr; vm_compute; reflexivity|].
  vm_compute in Hst. injection Hst as <-. vm_compute. reflexivity.
Defined.

Lemma find_missing (itemId : string) (l : list ProcessedImage) :
  ~ In itemId (map id l) ->
  find (fun i => String.eqb (id i) itemId) l = None.
Proof.
  intros Hnot. induction l as [|a l IH]; simpl; [reflexivity|].
  destruct (String.eqb_spec (id a) itemId) as [Heq|Hne].
  - exfalso. apply Hnot. left. exact Heq.
  - apply IH. intros Hin. apply Hnot. right. exact Hin.
Qed.

(** C10, as amended. With a credential configured, the retry operation
    changes nothing at all and dispatches nothing when the identifier is
    not in the list or the targeted half has no stored cropped image (its
    url is null or empty). With no credential configured its only effect
    is to open the settings dialog: the items, the suspended calls and the
    requests stay as they are. The operation does not look at the status:
    with a credential, a half with a stored crop is set to Expanding and
    dispatched again whatever its status, Done included. *)
Theorem retryPart_guards (itemId : string) (part : PartNumber)
    (st : AppState) :
  (truthy (apiKey (settings st)) = true ->
   (~ In itemId (map id (items st)) \/
    exists item,
      find (fun i => String.eqb (id i) itemId) (items st) = Some item /\
      truthyOpt (url (getPart part item)) = false) ->
   retryPart itemId part st = st) /\
  (truthy (apiKey (settings st)) = false ->
   retryPart itemId part st = setShowSettings true st /\
   items (retryPart itemId part st) = items st /\
   expansions (retryPart itemId part st) = expansions st /\
   requests (retryPart itemId part st) = requests st) /\
  (truthy (apiKey (settings st)) = true ->
   forall item u,
     find (fun i => String.eqb (id i) itemId) (items st) = Some item ->
     url (getPart part item) = Some u -> truthy u = true ->
     retryPart itemId part st = processImagePart itemId part u (settings st) st /\
     expansions (retryPart itemId part st)
       = expansions st ++ [mkExpansion itemId part u (settings st)] /\
     Forall2 (fun a b => id a = itemId ->
                         status (getPart part b) = Expanding)
             (items st) (items (retryPart itemId part st))).
Proof.
  split; [|split].
  - intros Hkey Hcase. unfold retryPart. rewrite Hkey. simpl.
    destruct Hcase as [Hnot|[item [Hfind Hurl]]].
    + rewrite (find_missing itemId (items st) Hnot). reflexivity.
    + rewrite Hfind. destruct (url (getPart part item)) as [u|];
        [|reflexivity].
      simpl in Hurl. rewrite Hurl. reflexivity.
  - intros Hkey. unfold retryPart. rewrite Hkey. simpl.
    repeat split.
  - intros Hkey item u Hfind Hurl Hu. unfold retryPart.
    rewrite Hkey, Hfind, Hurl, Hu. simpl.
    split; [reflexivity|]. split; [reflexivity|].
    apply Forall2_map_same. intros a Hid. unfold markExpanding.
    rewrite Hid, String.eqb_refl. simpl.
    destruct (setPart_frame part (withStatus Expanding (getPart part a)) a)
      as [_ [_ [_ [_ Hown]]]].
    rewrite Hown. reflexivity.
Qed.

(** A half that is Done, with its crop stored, is dispatched again. *)
Lemma retryPart_guards_witness :
  map (fun a => status (splitPart2 a))
      (items (retryPart (Sample.uuid 0) Two Sample.settledBoth))
    = [Expanding] /\
  retryPart "missing" One Sample.settledBoth = Sample.settledBoth.
Proof.
  destruct (retryPart_guards (Sample.uuid 0) Two Sample.settledBoth)
    as [_ [_ Hdone]].
  destruct (retryPart_guards "missing" One Sample.settledBoth)
    as [Hnoop _].
  assert (Hkey : truthy (apiKey (settings Sample.settledBoth)) = true)
    by (vm_compute; reflexivity).
  assert (Hfind : find (fun i => String.eqb (id i) (Sample.uuid 0))
                       (items Sample.settledBoth)
                  = Some (mkItem (Sample.uuid 0) "data:image/png;base64,ODD"
                            Sample.pngOdd
                            (mkPart (Some "data:image/png;base64,BCA") None
                                    Error)
                            (mkPart (Some "data:image/png;base64,BCB")
                                    (Some "data:image/png;base64,QUJD") Done)))
    by (vm_compute; reflexivity).
  destruct (Hdone Hkey _ "data:image/png;base64,BCB" Hfind eq_refl eq_refl)
    as [Heq _].
  split.
  - rewrite Heq. vm_compute. reflexivity.
  - apply Hnoop; [exact Hkey|]. left. vm_compute.
    intros [H|[]]. discriminate H.
Defined.

(** C10 as stated fails when no credential is configured: retrying an
    identifier that is not in the list then opens the settings dialog, which
    is a change of state. *)
Lemma retry_without_key_counterexample :
  ~ In "missing" (map id (items Sample.dismissed)) /\
  showSettings Sample.dismissed = false /\
  showSettings (retryPart "missing" One Sample.dismissed) = true /\
  retryPart "missing" One Sample.dismissed <> Sample.dismissed.
Proof.
  split; [vm_compute; intros H; exact H|].
  split; [vm_compute; reflexivity|].
  split; [vm_compute; reflexivity|].
  intros Heq.
  assert (H : showSettings (retryPart "missing" One Sample.dismissed)
              = showSettings Sample.dismissed) by (rewrite Heq; reflexivity).
  vm_compute in H. discriminate H.
Qed.

End Operations.

(* ===================================================================== *)
(** ** The upload handler                                                 *)
(* ===================================================================== *)

Section Upload.
Import ImageUtils GeminiService App.

Lemma traverseFileTree_images :
  forall (item : Dropzone.FileSystemEntry) (path : string) (f : File),
    In f (Dropzone.traverseFileTree item path) -> Dropzone.isImage f = true.
Proof.
  fix IH 1. intros [f0|dirName [entries|]|] path f; simpl.
  - destruct (Dropzone.isImage f0) eqn:Himg; simpl.
    + intros [<-|[]]. exact Himg.
    + intros [].
  - induction entries as [|entry entries IHentries]; simpl.
    + intros [].
    + intros Hin. apply in_app_or in Hin. destruct Hin as [Hin|Hin].
      * exact (IH entry _ f Hin).
      * exact (IHentries Hin).
  - intros [].
  - intros [].
Qed.

Lemma handleFileSelect_images (isProcessing : bool)
    (targetFiles : option (list File)) (files : list File) :
  Dropzone.handleFileSelect isProcessing targetFiles = Some files ->
  exists fs, targetFiles = Some fs /\ isProcessing = false /\
             files = filter Dropzone.isImage fs.
Proof.
  unfold Dropzone.handleFileSelect.
  destruct targetFiles as [fs|]; [|discriminate].
  destruct isProcessing; simpl; [discriminate|].
  intros H. injection H as <-. exists fs. repeat split.
Qed.

Lemma handleDrop_images (isProcessing : bool) (dt : Dropzone.DataTransfer)
    (files : list File) :
  Dropzone.handleDrop isProcessing dt = Some files ->
  Forall (fun f => Dropzone.isImage f = true) files.
Proof.
  unfold Dropzone.handleDrop. destruct isProcessing; [discriminate|].
  match goal with
  | |- (if (0 <? List.length ?fs)%nat then _ else _) = _ -> _ =>
      assert (Hall : Forall (fun f => Dropzone.isImage f = true) fs);
      [|destruct (0 <? List.length fs)%nat; [|discriminate];
        intros H; injection H as <-; exact Hall]
  end.
  apply Forall_forall. intros f Hin.
  destruct (Dropzone.dt_items dt) as [entries|].
  - apply in_flat_map in Hin. destruct Hin as [item [_ Hin]].
    exact (traverseFileTree_images item _ f Hin).
  - apply filter_In in Hin. apply Hin.
Qed.

Lemma buildItems_ok (B : Browser) (files : list File) :
  forall calls newItems calls',
    buildItems B files calls = (Ok newItems, calls') ->
    map file newItems = files /\
    Forall (fun item => splitPart1 item = idlePart /\
                        splitPart2 item = idlePart) newItems.
Proof.
  induction files as [|f files IH]; simpl; intros calls newItems calls' H.
  - injection H as <- _. split; [reflexivity|constructor].
  - destruct (readFileAsDataURL B f) as [originalUrl|e]; [|discriminate H].
    destruct (buildItems B files (S calls)) as [[l|e] c] eqn:Hrest;
      [|discriminate H].
    injection H as <- _. destruct (IH _ _ _ Hrest) as [Hfiles Hidle].
    simpl. split; [f_equal; exact Hfiles|].
    constructor; [split; reflexivity|exact Hidle].
Qed.

Lemma buildItems_reads (B : Browser) (files : list File) :
  (forall f, In f files -> readAsDataURL B f <> None) ->
  forall calls, exists newItems calls',
    buildItems B files calls = (Ok newItems, calls').
Proof.
  induction files as [|f files IH]; simpl; intros Hread calls.
  - eexists. eexists. reflexivity.
  - unfold readFileAsDataURL.
    destruct (readAsDataURL B f) as [u|] eqn:Hu.
    + destruct (IH (fun g Hg => Hread g (or_intror Hg)) (S calls))
        as [l [c Hl]].
      rewrite Hl. eexists. eexists. reflexivity.
    + exfalso. exact (Hread f (or_introl eq_refl) Hu).
Qed.

(** What [handleFilesAdded] does to the list: it prepends one idle item per
    file, or nothing at all when a read is rejected. *)
Lemma handleFilesAdded_items (B : Browser) (files : list File)
    (st : AppState) :
  exists newItems,
    items (handleFilesAdded B files st) = newItems ++ items st /\
    Forall (fun item => In (file item) files /\
                        splitPart1 item = idlePart /\
                        splitPart2 item = idlePart) newItems /\
    ((forall f, In f files -> readAsDataURL B f <> None) ->
     map file newItems = files).
Proof.
  unfold handleFilesAdded.
  destruct (buildItems B files (uuidCalls st)) as [[newItems|e] calls]
    eqn:Hbuild.
  - destruct (buildItems_ok B files _ _ _ Hbuild) as [Hfiles Hidle].
    exists newItems. simpl. split; [reflexivity|]. split; [|intros _; exact Hfiles].
    apply Forall_forall. intros item Hin.
    rewrite Forall_forall in Hidle. destruct (Hidle item Hin) as [H1 H2].
    repeat split; try assumption.
    rewrite <- Hfiles. apply in_map. exact Hin.
  - exists []. simpl. split; [reflexivity|]. split; [constructor|].
    intros Hread. destruct (buildItems_reads B files Hread (uuidCalls st))
      as [l [c Hl]].
    rewrite Hl in Hbuild. discriminate Hbuild.
Qed.

(** The updaters keep the file of an item. *)
Lemma updaters_keep_file :
  (forall x p a, file (markExpanding x p a) = file a) /\
  (forall x p u a, file (markDone x p u a) = file a) /\
  (forall x p a, file (markError x p a) = file a) /\
  (forall x a, file (markSplitting x a) = file a) /\
  (forall x u1 u2 a, file (storeParts x u1 u2 a) = file a).
Proof.
  unfold markExpanding, markDone, markError, markSplitting, storeParts.
  repeat split; intros;
    destruct (String.eqb (id a) x); simpl; try reflexivity;
    destruct p; reflexivity.
Qed.

Lemma images_map (g : ProcessedImage -> ProcessedImage)
    (l : list ProcessedImage) :
  (forall a, file (g a) = file a) ->
  Forall (fun item => Dropzone.isImage (file item) = true) l ->
  Forall (fun item => Dropzone.isImage (file item) = true) (map g l).
Proof.
  intros Hg Hl. apply Forall_forall. intros b Hb.
  apply in_map_iff in Hb. destruct Hb as [a [<- Ha]]. rewrite Hg.
  rewrite Forall_forall in Hl. exact (Hl a Ha).
Qed.

Lemma images_filter (f : ProcessedImage -> bool) (l : list ProcessedImage) :
  Forall (fun item => Dropzone.isImage (file item) = true) l ->
  Forall (fun item => Dropzone.isImage (file item) = true) (filter f l).
Proof.
  intros Hl. apply Forall_forall. intros b Hb. apply filter_In in Hb.
  rewrite Forall_forall in Hl. apply Hl. apply Hb.
Qed.

Lemma processNext_images todo s d st :
  OnlyImages st -> OnlyImages (processNext todo s d st).
Proof.
  intros [Hi Hu]. destruct todo as [|c r]; simpl; [split; assumption|].
  split; [|exact Hu]. simpl. apply images_map; [|exact Hi].
  apply updaters_keep_file.
Qed.

Lemma processImagePart_images x p c s st :
  OnlyImages st -> OnlyImages (processImagePart x p c s st).
Proof.
  intros [Hi Hu]. split; [|exact Hu]. simpl.
  apply images_map; [|exact Hi]. apply updaters_keep_file.
Qed.

Lemma removeNth_Forall {A : Type} (P : A -> Prop) (l : list A) (k : nat) :
  Forall P l -> Forall P (removeNth k l).
Proof.
  intros Hl. apply Forall_forall. intros x Hx. rewrite Forall_forall in Hl.
  apply Hl. revert k Hx. induction l as [|y l IH]; intros k Hx.
  - destruct k; exact Hx.
  - destruct k as [|k]; simpl in Hx; [right; exact Hx|].
    destruct Hx as [<-|Hx]; [left; reflexivity|right].
    apply (IH (fun z Hz => Hl z (or_intror Hz)) k Hx).
Qed.

Lemma exec_images (B : Browser) ev st st' :
  OnlyImages st -> exec B ev st = Some st' -> OnlyImages st'.
Proof.
  intros Himg Hexec. pose proof Himg as [Hi Hu].
  destruct ev; simpl in Hexec; unfold whenEnabled in Hexec.
  - destruct (Dropzone.handleFileSelect (isProcessing st) targetFiles)
      as [files|] eqn:Hsel; injection Hexec as <-; [|exact Himg].
    destruct (handleFileSelect_images _ _ _ Hsel) as [fs [_ [_ ->]]].
    split; [exact Hi|]. simpl. apply Forall_app. split; [exact Hu|].
    constructor; [|constructor]. apply Forall_forall. intros f Hf.
    apply filter_In in Hf. apply Hf.
  - destruct (Dropzone.handleDrop (isProcessing st) dt) as [files|] eqn:Hdrop;
      injection Hexec as <-; [|exact Himg].
    split; [exact Hi|]. simpl. apply Forall_app. split; [exact Hu|].
    constructor; [|constructor]. exact (handleDrop_images _ _ _ Hdrop).
  - unfold filesRead in Hexec.
    destruct (nth_error (uploads st) k) as [files|] eqn:Hk;
      [|discriminate Hexec].
    injection Hexec as <-.
    assert (Hfiles : Forall (fun f => Dropzone.isImage f = true) files).
    { rewrite Forall_forall in Hu. apply Hu.
      exact (nth_error_In _ _ Hk). }
    pose proof (removeNth_Forall _ _ k Hu) as Hu'.
    destruct (handleFilesAdded_items B files
                (setUploads (removeNth k (uploads st)) st))
      as [newItems [Hitems [Hall _]]].
    split.
    + rewrite Hitems. simpl. apply Forall_app. split; [|exact Hi].
      apply Forall_forall. intros item Hitem.
      rewrite Forall_forall in Hall, Hfiles.
      apply Hfiles. apply (Hall item Hitem).
    + unfold handleFilesAdded.
      destruct (buildItems B files _) as [[l|e] c]; exact Hu'.
  - destruct (negb (startDisabled st)); [|discriminate Hexec].
    injection Hexec as <-. unfold startProcessing.
    destruct (negb (truthy (apiKey (settings st)))); [exact Himg|].
    apply processNext_images. exact Himg.
  - destruct (retryShown itemId part st); [|discriminate Hexec].
    injection Hexec as <-. unfold retryPart.
    destruct (negb (truthy (apiKey (settings st)))); [exact Himg|].
    destruct (find _ (items st)) as [item|]; [|exact Himg].
    destruct (url (getPart part item)) as [u|]; [|exact Himg].
    destruct (truthy u); [|exact Himg].
    apply processImagePart_images. exact Himg.
  - destruct (cardShown itemId st); [|discriminate Hexec].
    injection Hexec as <-. split; [|exact Hu]. simpl.
    apply images_filter. exact Hi.
  - destruct (0 <? List.length (items st))%nat; [|discriminate Hexec].
    injection Hexec as <-. destruct confirmed; [|exact Himg].
    split; [constructor|exact Hu].
  - injection Hexec as <-. exact Himg.
  - destruct (showSettings st); [|discriminate Hexec].
    injection Hexec as <-. exact Himg.
  - destruct (showSettings st); [|discriminate Hexec].
    injection Hexec as <-. exact Himg.
  - injection Hexec as <-. exact Himg.
  - unfold splitSettled in Hexec.
    destruct (nth_error (batches st) k) as [b|]; [|discriminate Hexec].
    injection Hexec as <-. apply processNext_images.
    destruct (splitImage B (originalUrl (b_item b)) (b_direction b))
      as [[part1 part2]|e]; [|exact Himg].
    apply processImagePart_images. apply processImagePart_images.
    split; [|exact Hu]. simpl. apply images_map; [|exact Hi].
    apply updaters_keep_file.
  - unfold expansionSettled in Hexec.
    destruct (nth_error (expansions st) k) as [e|]; [|discriminate Hexec].
    destruct (outcome _) as [expandedBase64|error];
      injection Hexec as <-; (split; [|exact Hu]); simpl;
      (apply images_map; [|exact Hi]); apply updaters_keep_file.
Qed.

Lemma reachable_images (B : Browser) st : reachable B st -> OnlyImages st.
Proof.
  intros [ls [evs Hrun]].
  assert (H0 : OnlyImages (mount ls)).
  { unfold mount. destruct (negb (truthyOpt (gemini_api_key ls)));
      split; constructor. }
  revert Hrun H0. generalize (mount ls). clear ls.
  induction evs as [|ev evs IH]; simpl; intros st0 Hrun H0.
  - injection Hrun as <-. exact H0.
  - destruct (exec B ev st0) as [st1|] eqn:Hexec; [|discriminate Hrun].
    exact (IH st1 Hrun (exec_images B ev st0 st1 H0 Hexec)).
Qed.

(** C9. In every state the application can reach, every item of the list
    belongs to a file whose MIME type starts with "image/", and so does
    every file of an upload that is still being read. A selection (single,
    multiple or a folder input) hands over exactly the image files among
    the selected ones, a drop (entries scanned recursively, or the plain
    file list of older browsers) hands over image files only, and neither
    touches the list. When an upload has been read it prepends pending
    items (both halves idle, nothing stored) for files of that upload only,
    one per file and in order when every file could be read; a file of
    another type thus never produces an item. *)
Theorem upload_makes_image_items_only (B : Browser) (st : AppState) :
  reachable B st ->
  Forall (fun item => Dropzone.isImage (file item) = true) (items st) /\
  Forall (Forall (fun f => Dropzone.isImage f = true)) (uploads st) /\
  (forall targetFiles st',
     exec B (FileSelect targetFiles) st = Some st' ->
     items st' = items st /\
     (uploads st' = uploads st \/
      exists fs, targetFiles = Some fs /\
                 uploads st' = uploads st ++ [filter Dropzone.isImage fs])) /\
  (forall dt st',
     exec B (Drop dt) st = Some st' ->
     items st' = items st /\
     (uploads st' = uploads st \/
      exists files, Forall (fun f => Dropzone.isImage f = true) files /\
                    uploads st' = uploads st ++ [files])) /\
  (forall k st',
     exec B (FilesRead k) st = Some st' ->
     exists files newItems,
       nth_error (uploads st) k = Some files /\
       items st' = newItems ++ items st /\
       Forall (fun item =>
                 Dropzone.isImage (file item) = true /\
                 In (file item) files /\
                 splitPart1 item = idlePart /\ splitPart2 item = idlePart)
              newItems /\
       ((forall f, In f files -> readAsDataURL B f <> None) ->
        map file newItems = files)).
Proof.
  intros Hreach. destruct (reachable_images B st Hreach) as [Hi Hu].
  split; [exact Hi|]. split; [exact Hu|]. split; [|split].
  - intros targetFiles st' Hexec. simpl in Hexec.
    destruct (Dropzone.handleFileSelect (isProcessing st) targetFiles)
      as [files|] eqn:Hsel; injection Hexec as <-.
    + destruct (handleFileSelect_images _ _ _ Hsel) as [fs [-> [_ ->]]].
      split; [reflexivity|]. right. exists fs. split; reflexivity.
    + split; [reflexivity|left; reflexivity].
  - intros dt st' Hexec. simpl in Hexec.
    destruct (Dropzone.handleDrop (isProcessing st) dt) as [files|] eqn:Hdrop;
      injection Hexec as <-.
    + split; [reflexivity|]. right. exists files.
      split; [exact (handleDrop_images _ _ _ Hdrop)|reflexivity].
    + split; [reflexivity|left; reflexivity].
  - intros k st' Hexec. simpl in Hexec. unfold filesRead in Hexec.
    destruct (nth_error (uploads st) k) as [files|] eqn:Hk;
      [|discriminate Hexec].
    injection Hexec as <-.
    assert (Hfiles : Forall (fun f => Dropzone.isImage f = true) files).
    { rewrite Forall_forall in Hu. apply Hu. exact (nth_error_In _ _ Hk). }
    destruct (handleFilesAdded_items B files
                (setUploads (removeNth k (uploads st)) st))
      as [newItems [Hitems [Hall Hmap]]].
    exists files, newItems. split; [reflexivity|].
    split; [exact Hitems|]. split; [|exact Hmap].
    apply Forall_forall. intros item Hitem.
    rewrite Forall_forall in Hall, Hfiles.
    destruct (Hall item Hitem) as [Hin [H1 H2]].
    split; [exact (Hfiles _ Hin)|]. split; [exact Hin|]. split; assumption.
Qed.

Lemma upload_makes_image_items_only_witness :
  map file (items Sample.uploaded) = [Sample.pngOdd] /\
  Forall (fun item => Dropzone.isImage (file item) = true)
         (items Sample.uploaded).
Proof.
  assert (Hreach : reachable Sample.browser Sample.uploaded).
  { exists Sample.keyStored, (firstn 2 Sample.session).
    vm_compute. reflexivity. }
  destruct (upload_makes_image_items_only Sample.browser Sample.uploaded
              Hreach) as [Hi _].
  split; [vm_compute; reflexivity|exact Hi].
Defined.

End Upload.

(* ===================================================================== *)
(** ** The lifecycle of a half                                            *)
(* ===================================================================== *)

Section Lifecycle.
Import ImageUtils GeminiService App.

Variable B : Browser.

(** *** The updaters, half by half *)

Lemma part_eqb_spec (p q : PartNumber) : reflect (p = q) (part_eqb p q).
Proof. destruct p, q; constructor; congruence. Qed.

Lemma markExpanding_id x p0 a : id (markExpanding x p0 a) = id a.
Proof.
  unfold markExpanding. destruct (String.eqb (id a) x); simpl;
    [destruct p0|]; reflexivity.
Qed.

Lemma markExpanding_other x p0 a : id a <> x -> markExpanding x p0 a = a.
Proof.
  intros Hne. unfold markExpanding.
  destruct (String.eqb_spec (id a) x); [contradiction|reflexivity].
Qed.

Lemma markExpanding_status x p0 a p :
  id a = x ->
  statusOf p (markExpanding x p0 a)
    = if part_eqb p p0 then Expanding else statusOf p a.
Proof.
  intros Hid. unfold markExpanding, statusOf.
  rewrite Hid, String.eqb_refl. destruct p, p0; reflexivity.
Qed.

Lemma markDone_id x p0 u a : id (markDone x p0 u a) = id a.
Proof.
  unfold markDone. destruct (String.eqb (id a) x); simpl;
    [destruct p0|]; reflexivity.
Qed.

Lemma markDone_other x p0 u a : id a <> x -> markDone x p0 u a = a.
Proof.
  intros Hne. unfold markDone.
  destruct (String.eqb_spec (id a) x); [contradiction|reflexivity].
Qed.

Lemma markDone_status x p0 u a p :
  id a = x ->
  statusOf p (markDone x p0 u a)
    = if part_eqb p p0 then Done else statusOf p a.
Proof.
  intros Hid. unfold markDone, statusOf.
  rewrite Hid, String.eqb_refl. destruct p, p0; reflexivity.
Qed.

Lemma markError_id x p0 a : id (markError x p0 a) = id a.
Proof.
  unfold markError. destruct (String.eqb (id a) x); simpl;
    [destruct p0|]; reflexivity.
Qed.

Lemma markError_other x p0 a : id a <> x -> markError x p0 a = a.
Proof.
  intros Hne. unfold markError.
  destruct (String.eqb_spec (id a) x); [contradiction|reflexivity].
Qed.

Lemma markError_status x p0 a p :
  id a = x ->
  statusOf p (markError x p0 a)
    = if part_eqb p p0 then Error else statusOf p a.
Proof.
  intros Hid. unfold markError, statusOf.
  rewrite Hid, String.eqb_refl. destruct p, p0; reflexivity.
Qed.

Lemma markSplitting_id x a : id (markSplitting x a) = id a.
Proof.
  unfold markSplitting. destruct (String.eqb (id a) x); reflexivity.
Qed.

Lemma markSplitting_other x a : id a <> x -> markSplitting x a = a.
Proof.
  intros Hne. unfold markSplitting.
  destruct (String.eqb_spec (id a) x); [contradiction|reflexivity].
Qed.

Lemma markSplitting_status x a p :
  id a = x -> statusOf p (markSplitting x a) = Splitting.
Proof.
  intros Hid. unfold markSplitting, statusOf.
  rewrite Hid, String.eqb_refl. destruct p; reflexivity.
Qed.

Lemma storeParts_id x u1 u2 a : id (storeParts x u1 u2 a) = id a.
Proof.
  unfold storeParts. destruct (String.eqb (id a) x); reflexivity.
Qed.

Lemma storeParts_other x u1 u2 a : id a <> x -> storeParts x u1 u2 a = a.
Proof.
  intros Hne. unfold storeParts.
  destruct (String.eqb_spec (id a) x); [contradiction|reflexivity].
Qed.

Lemma storeParts_status x u1 u2 a p :
  id a = x -> statusOf p (storeParts x u1 u2 a) = Idle.
Proof.
  intros Hid. unfold storeParts, statusOf.
  rewrite Hid, String.eqb_refl. destruct p; reflexivity.
Qed.

(** *** Lists with distinct identifiers *)

Lemma map_id_map (g : ProcessedImage -> ProcessedImage)
    (l : list ProcessedImage) :
  (forall a, id (g a) = id a) -> map id (map g l) = map id l.
Proof.
  intros Hg. rewrite map_map. apply map_ext. exact Hg.
Qed.

Lemma same_id_same_item (l : list ProcessedImage) (a b : ProcessedImage) :
  NoDup (map id l) -> In a l -> In b l -> id a = id b -> a = b.
Proof.
  induction l as [|c l IH]; simpl; intros Hnd Ha Hb Hid; [contradiction|].
  inversion Hnd as [|? ? Hnotin Hnd']; subst.
  destruct Ha as [<-|Ha], Hb as [<-|Hb].
  - reflexivity.
  - exfalso. apply Hnotin. rewrite Hid. apply in_map. exact Hb.
  - exfalso. apply Hnotin. rewrite <- Hid. apply in_map. exact Ha.
  - apply IH; assumption.
Qed.

Lemma in_map_same_id (g : ProcessedImage -> ProcessedImage)
    (l : list ProcessedImage) (a b : ProcessedImage) :
  (forall c, id (g c) = id c) ->
  NoDup (map id l) -> In a l -> In b (map g l) -> id a = id b -> b = g a.
Proof.
  intros Hg Hnd Ha Hb Hid. apply in_map_iff in Hb.
  destruct Hb as [c [<- Hc]]. f_equal.
  apply (same_id_same_item l c a Hnd Hc Ha). rewrite <- Hg. symmetry. exact Hid.
Qed.

Lemma NoDup_filter_map (f : ProcessedImage -> bool)
    (l : list ProcessedImage) :
  NoDup (map id l) -> NoDup (map id (filter f l)).
Proof.
  induction l as [|a l IH]; simpl; intros Hnd; [constructor|].
  inversion Hnd as [|? ? Hnotin Hnd']; subst.
  destruct (f a); simpl; [|apply IH; exact Hnd'].
  constructor; [|apply IH; exact Hnd'].
  intros Hin. apply Hnotin. apply in_map_iff in Hin.
  destruct Hin as [c [Hc Hin]]. apply filter_In in Hin.
  rewrite <- Hc. apply in_map. apply Hin.
Qed.

(** *** Calls in flight *)

Lemma inFlight_app x p es es' :
  inFlight x p (es ++ es') = (inFlight x p es + inFlight x p es')%nat.
Proof. unfold inFlight. rewrite filter_app, length_app. reflexivity. Qed.

Lemma inFlight_one x p x0 p0 c s :
  inFlight x p [mkExpansion x0 p0 c s]
    = if String.eqb x0 x && part_eqb p0 p then 1%nat else 0%nat.
Proof.
  unfold inFlight. simpl.
  destruct (String.eqb x0 x && part_eqb p0 p); reflexivity.
Qed.

Lemma inFlight_removeNth x p :
  forall es k e,
    nth_error es k = Some e ->
    inFlight x p es
      = ((if String.eqb (e_itemId e) x && part_eqb (e_partNumber e) p
          then 1 else 0)
         + inFlight x p (removeNth k es))%nat.
Proof.
  unfold inFlight.
  induction es as [|e0 es IH]; intros k e Hk.
  - destruct k; discriminate Hk.
  - destruct k as [|k]; simpl in Hk.
    + injection Hk as <-. simpl.
      destruct (String.eqb (e_itemId e0) x && part_eqb (e_partNumber e0) p);
        reflexivity.
    + specialize (IH k e Hk). simpl.
      destruct (String.eqb (e_itemId e0) x && part_eqb (e_partNumber e0) p);
        simpl; rewrite IH;
        destruct (String.eqb (e_itemId e) x && part_eqb (e_partNumber e) p);
        simpl; lia.
Qed.

Lemma removeNth_incl {A : Type} (l : list A) :
  forall k x, In x (removeNth k l) -> In x l.
Proof.
  induction l as [|y l IH]; intros k x Hin; [destruct k; exact Hin|].
  destruct k as [|k]; simpl in Hin.
  - right. exact Hin.
  - destruct Hin as [<-|Hin]; [left; reflexivity|right; exact (IH k x Hin)].
Qed.

Lemma issued_more calls calls' x :
  (calls <= calls')%nat -> issued B calls x -> issued B calls' x.
Proof.
  intros Hle [n [Hn Hx]]. exists n. split; [lia|exact Hx].
Qed.

(** *** Writes that keep the core invariant *)

Lemma lifecycle_refl s : lifecycle s s = true.
Proof. destruct s; reflexivity. Qed.

Lemma writeOk_map (g : ProcessedImage -> ProcessedImage)
    (l : list ProcessedImage) :
  NoDup (map id l) ->
  (forall a, id (g a) = id a) ->
  (forall a p, In a l -> lifecycle (statusOf p a) (statusOf p (g a)) = true) ->
  writeOk l (map g l).
Proof.
  intros Hnd Hid Hlife. split.
  - intros a b p Ha Hb Hab.
    rewrite (in_map_same_id g l a b Hid Hnd Ha Hb Hab). apply Hlife. exact Ha.
  - intros b Hb Hnew. exfalso. apply Hnew.
    apply in_map_iff in Hb. destruct Hb as [a [<- Ha]].
    rewrite Hid. apply in_map. exact Ha.
Qed.

Lemma core_map (g : ProcessedImage -> ProcessedImage)
    its es es' calls hist :
  Core B its es calls hist ->
  (forall a, id (g a) = id a) ->
  (forall a p, In a its ->
     lifecycle (statusOf p a) (statusOf p (g a)) = true) ->
  (forall e, In e es' -> issued B calls (e_itemId e)) ->
  (forall a p, In a its ->
     inFlight (id a) p es'
       = if status_eqb (statusOf p (g a)) Expanding then 1%nat else 0%nat) ->
  Core B (map g its) es' calls (its :: hist).
Proof.
  intros [Hnd [Hiss [_ [_ [Hchain Hlast]]]]] Hid Hlife Hes Hfly.
  split; [|split; [|split; [|split; [|split]]]].
  - rewrite (map_id_map g its Hid). exact Hnd.
  - intros b Hb. apply in_map_iff in Hb. destruct Hb as [a [<- Ha]].
    rewrite Hid. apply Hiss. exact Ha.
  - exact Hes.
  - intros b p Hb. apply in_map_iff in Hb. destruct Hb as [a [<- Ha]].
    rewrite Hid. apply Hfly. exact Ha.
  - split; [|exact Hchain]. apply writeOk_map; assumption.
  - exact Hlast.
Qed.

(** A write to the items with identifier [x] that moves no half into or out
    of Expanding. *)
Lemma core_quiet (g : ProcessedImage -> ProcessedImage) its es calls hist :
  Core B its es calls hist ->
  (forall a, id (g a) = id a) ->
  (forall a p, In a its ->
     lifecycle (statusOf p a) (statusOf p (g a)) = true /\
     status_eqb (statusOf p (g a)) Expanding
       = status_eqb (statusOf p a) Expanding) ->
  Core B (map g its) es calls (its :: hist).
Proof.
  intros Hcore Hid Hg. pose proof Hcore as [_ [_ [Hes [Hfly _]]]].
  apply (core_map g its es es calls hist Hcore Hid).
  - intros a p Ha. apply Hg. exact Ha.
  - exact Hes.
  - intros a p Ha. rewrite (Hfly a p Ha).
    destruct (Hg a p Ha) as [_ ->]. reflexivity.
Qed.

Lemma core_markSplitting x its es calls hist :
  Core B its es calls hist ->
  (forall a, In a its -> id a = x ->
     statusOf One a = Idle /\ statusOf Two a = Idle) ->
  Core B (map (markSplitting x) its) es calls (its :: hist).
Proof.
  intros Hcore Hidle. apply core_quiet; [exact Hcore| |].
  - intros a. apply markSplitting_id.
  - intros a p Ha. destruct (String.eqb_spec (id a) x) as [Heq|Hne].
    + rewrite (markSplitting_status x a p Heq).
      destruct (Hidle a Ha Heq) as [H1 H2].
      destruct p; [rewrite H1|rewrite H2]; split; reflexivity.
    + rewrite (markSplitting_other x a Hne).
      split; [apply lifecycle_refl|reflexivity].
Qed.

Lemma core_storeParts x u1 u2 its es calls hist :
  Core B its es calls hist ->
  (forall a, In a its -> id a = x ->
     statusOf One a = Splitting /\ statusOf Two a = Splitting) ->
  Core B (map (storeParts x u1 u2) its) es calls (its :: hist).
Proof.
  intros Hcore Hsplit. apply core_quiet; [exact Hcore| |].
  - intros a. apply storeParts_id.
  - intros a p Ha. destruct (String.eqb_spec (id a) x) as [Heq|Hne].
    + rewrite (storeParts_status x u1 u2 a p Heq).
      destruct (Hsplit a Ha Heq) as [H1 H2].
      destruct p; [rewrite H1|rewrite H2]; split; reflexivity.
    + rewrite (storeParts_other x u1 u2 a Hne).
      split; [apply lifecycle_refl|reflexivity].
Qed.

(** Dispatching a call for a half that is Idle or Error. *)
Lemma core_dispatch x p0 c s its es calls hist :
  Core B its es calls hist ->
  issued B calls x ->
  (forall a, In a its -> id a = x ->
     statusOf p0 a = Idle \/ statusOf p0 a = Error) ->
  Core B (map (markExpanding x p0) its) (es ++ [mkExpansion x p0 c s])
       calls (its :: hist).
Proof.
  intros Hcore Hx Hpre. pose proof Hcore as [_ [_ [Hes [Hfly _]]]].
  apply (core_map (markExpanding x p0) its es _ calls hist Hcore).
  - intros a. apply markExpanding_id.
  - intros a p Ha. destruct (String.eqb_spec (id a) x) as [Heq|Hne].
    + rewrite (markExpanding_status x p0 a p Heq).
      destruct (part_eqb_spec p p0) as [->|Hp]; [|apply lifecycle_refl].
      destruct (Hpre a Ha Heq) as [-> | ->]; reflexivity.
    + rewrite (markExpanding_other x p0 a Hne). apply lifecycle_refl.
  - intros e He. apply in_app_or in He. destruct He as [He|[<-|[]]].
    + apply Hes. exact He.
    + exact Hx.
  - intros a p Ha. rewrite inFlight_app, inFlight_one, (Hfly a p Ha).
    destruct (String.eqb_spec x (id a)) as [Heq|Hne].
    + symmetry in Heq. rewrite (markExpanding_status x p0 a p Heq).
      destruct (part_eqb_spec p0 p) as [<-|Hp].
      * destruct (part_eqb_spec p0 p0) as [_|Hc]; [|contradiction].
        destruct (Hpre a Ha Heq) as [-> | ->]; reflexivity.
      * destruct (part_eqb_spec p p0) as [Hc|_]; [symmetry in Hc; contradiction|].
        simpl. apply Nat.add_0_r.
    + assert (Hne' : id a <> x) by congruence.
      rewrite (markExpanding_other x p0 a Hne'). simpl. apply Nat.add_0_r.
Qed.

(** The settling of a call in flight: the half it was dispatched for is
    Expanding, and gets the final status [s]. *)
Lemma core_settle (g : ProcessedImage -> ProcessedImage)
    (s : ProcessStatus) k e its es calls hist :
  Core B its es calls hist ->
  nth_error es k = Some e ->
  s = Done \/ s = Error ->
  (forall a, id (g a) = id a) ->
  (forall a, id a <> e_itemId e -> g a = a) ->
  (forall a p, id a = e_itemId e ->
     statusOf p (g a) = if part_eqb p (e_partNumber e) then s
                        else statusOf p a) ->
  Core B (map g its) (removeNth k es) calls (its :: hist) /\
  (forall a, In a its -> id a = e_itemId e ->
     statusOf (e_partNumber e) a = Expanding).
Proof.
  intros Hcore Hk Hs Hid Hother Hstatus.
  pose proof Hcore as [_ [_ [Hes [Hfly _]]]].
  assert (Hexp : forall a, In a its -> id a = e_itemId e ->
                   statusOf (e_partNumber e) a = Expanding).
  { intros a Ha Heq. pose proof (Hfly a (e_partNumber e) Ha) as H.
    rewrite (inFlight_removeNth (id a) (e_partNumber e) es k e Hk) in H.
    rewrite Heq, String.eqb_refl in H.
    destruct (part_eqb_spec (e_partNumber e) (e_partNumber e)) as [_|Hc];
      [|contradiction].
    destruct (statusOf (e_partNumber e) a); simpl in H;
      try reflexivity; discriminate H. }
  split; [|exact Hexp].
  apply (core_map g its es _ calls hist Hcore Hid).
  - intros a p Ha. destruct (String.eqb_spec (id a) (e_itemId e)) as [Heq|Hne].
    + rewrite (Hstatus a p Heq).
      destruct (part_eqb_spec p (e_partNumber e)) as [->|Hp];
        [|apply lifecycle_refl].
      rewrite (Hexp a Ha Heq). destruct Hs as [-> | ->]; reflexivity.
    + rewrite (Hother a Hne). apply lifecycle_refl.
  - intros e' He'. apply Hes. exact (removeNth_incl es k e' He').
  - intros a p Ha. pose proof (Hfly a p Ha) as H.
    rewrite (inFlight_removeNth (id a) p es k e Hk) in H.
    destruct (String.eqb_spec (e_itemId e) (id a)) as [Heq|Hne].
    + symmetry in Heq. rewrite (Hstatus a p Heq).
      destruct (part_eqb_spec (e_partNumber e) p) as [<-|Hp].
      * destruct (part_eqb_spec (e_partNumber e) (e_partNumber e))
          as [_|Hc]; [|contradiction].
        rewrite (Hexp a Ha Heq) in H. simpl in H.
        destruct Hs as [-> | ->]; simpl; lia.
      * destruct (part_eqb_spec p (e_partNumber e)) as [Hc|_];
          [symmetry in Hc; contradiction|].
        simpl in H. exact H.
    + assert (Hne' : id a <> e_itemId e) by congruence.
      rewrite (Hother a Hne'). simpl in H. exact H.
Qed.

(** *** Uploads, removals, and the passing of time *)

Lemma buildItems_ids (files : list File) :
  forall calls newItems calls',
    buildItems B files calls = (Ok newItems, calls') ->
    calls' = (calls + List.length files)%nat /\
    map id newItems = map (uuidv4 B) (seq calls (List.length files)) /\
    Forall (fun item => splitPart1 item = idlePart /\
                        splitPart2 item = idlePart) newItems.
Proof.
  induction files as [|f files IH]; simpl; intros calls newItems calls' H.
  - injection H as <- <-. split; [lia|]. split; [reflexivity|constructor].
  - destruct (readFileAsDataURL B f) as [originalUrl|e]; [|discriminate H].
    destruct (buildItems B files (S calls)) as [[l|e] c] eqn:Hrest;
      [|discriminate H].
    injection H as <- <-. destruct (IH _ _ _ Hrest) as [Hc [Hids Hidle]].
    split; [lia|]. split.
    + simpl. f_equal. exact Hids.
    + constructor; [split; reflexivity|exact Hidle].
Qed.

Lemma buildItems_calls (files : list File) :
  forall calls r calls',
    buildItems B files calls = (r, calls') -> (calls <= calls')%nat.
Proof.
  induction files as [|f files IH]; simpl; intros calls r calls' H.
  - injection H as _ <-. lia.
  - destruct (readFileAsDataURL B f) as [originalUrl|e].
    + destruct (buildItems B files (S calls)) as [[l|e] c] eqn:Hrest;
        injection H as _ <-; pose proof (IH _ _ _ Hrest); lia.
    + injection H as _ <-. lia.
Qed.

Lemma NoDup_uuids (start len : nat) :
  uniqueIds B -> NoDup (map (uuidv4 B) (seq start len)).
Proof.
  intros Huniq. apply NoDup_map_NoDup_ForallPairs; [|apply seq_NoDup].
  intros m n _ _ Heq. apply Huniq. exact Heq.
Qed.

Lemma fresh_not_issued (calls n : nat) :
  uniqueIds B -> (calls <= n)%nat -> ~ issued B calls (uuidv4 B n).
Proof.
  intros Huniq Hle [m [Hm Heq]]. apply Huniq in Heq. lia.
Qed.

Lemma inFlight_none x p es :
  (forall e, In e es -> e_itemId e <> x) -> inFlight x p es = 0%nat.
Proof.
  unfold inFlight. induction es as [|e es IH]; simpl; intros H;
    [reflexivity|].
  destruct (String.eqb_spec (e_itemId e) x) as [Heq|Hne].
  - exfalso. exact (H e (or_introl eq_refl) Heq).
  - simpl. apply IH. intros e' He'. apply H. right. exact He'.
Qed.

Lemma core_calls its es calls calls' hist :
  Core B its es calls hist -> (calls <= calls')%nat ->
  Core B its es calls' hist.
Proof.
  intros [Hnd [Hiss [Hes [Hfly Hrest]]]] Hle.
  split; [exact Hnd|]. split; [|split; [|split; [exact Hfly|exact Hrest]]].
  - intros a Ha. exact (issued_more calls calls' (id a) Hle (Hiss a Ha)).
  - intros e He. exact (issued_more calls calls' _ Hle (Hes e He)).
Qed.

(** The new items of an upload have identifiers that were not issued
    before. *)
Lemma buildItems_fresh (files : list File) calls newItems calls' :
  uniqueIds B ->
  buildItems B files calls = (Ok newItems, calls') ->
  (calls <= calls')%nat /\
  NoDup (map id newItems) /\
  (forall b, In b newItems ->
     issued B calls' (id b) /\ ~ issued B calls (id b) /\
     splitPart1 b = idlePart /\ splitPart2 b = idlePart).
Proof.
  intros Huniq Hbuild.
  destruct (buildItems_ids files calls newItems calls' Hbuild)
    as [Hc [Hids Hidle]].
  split; [lia|]. split; [rewrite Hids; apply NoDup_uuids; exact Huniq|].
  intros b Hb. rewrite Forall_forall in Hidle.
  assert (Hin : In (id b) (map (uuidv4 B) (seq calls (List.length files))))
    by (rewrite <- Hids; apply in_map; exact Hb).
  apply in_map_iff in Hin. destruct Hin as [n [Hn Hseq]].
  apply in_seq in Hseq. rewrite <- Hn.
  split; [exists n; split; [lia|reflexivity]|].
  split; [apply fresh_not_issued; [exact Huniq|lia]|].
  apply Hidle. exact Hb.
Qed.

Lemma core_add newItems its es calls calls' hist :
  Core B its es calls hist ->
  (calls <= calls')%nat ->
  NoDup (map id newItems) ->
  (forall b, In b newItems ->
     issued B calls' (id b) /\ ~ issued B calls (id b) /\
     splitPart1 b = idlePart /\ splitPart2 b = idlePart) ->
  Core B (newItems ++ its) es calls' (its :: hist) /\
  terminalFixed its (newItems ++ its).
Proof.
  intros Hcore Hle Hnd' Hnew.
  pose proof Hcore as [Hnd [Hiss [Hes [Hfly [Hchain Hlast]]]]].
  assert (Hold : forall a b, In a its -> In b (newItems ++ its) ->
                             id a = id b -> b = a).
  { intros a b Ha Hb Hab. apply in_app_or in Hb. destruct Hb as [Hb|Hb].
    - exfalso. destruct (Hnew b Hb) as [_ [Hfresh _]]. apply Hfresh.
      rewrite <- Hab. apply Hiss. exact Ha.
    - symmetry. exact (same_id_same_item its a b Hnd Ha Hb Hab). }
  split.
  - split; [|split; [|split; [|split; [|split]]]].
    + rewrite map_app. apply NoDup_app; [exact Hnd'|exact Hnd|].
      intros x Hx Hx'. apply in_map_iff in Hx. destruct Hx as [b [<- Hb]].
      apply in_map_iff in Hx'. destruct Hx' as [a [Hab Ha]].
      destruct (Hnew b Hb) as [_ [Hfresh _]]. apply Hfresh.
      rewrite <- Hab. apply Hiss. exact Ha.
    + intros a Ha. apply in_app_or in Ha. destruct Ha as [Ha|Ha].
      * apply Hnew. exact Ha.
      * exact (issued_more calls calls' _ Hle (Hiss a Ha)).
    + intros e He. exact (issued_more calls calls' _ Hle (Hes e He)).
    + intros a p Ha. apply in_app_or in Ha. destruct Ha as [Ha|Ha].
      * destruct (Hnew a Ha) as [_ [Hfresh [H1 H2]]].
        rewrite inFlight_none.
        -- unfold statusOf. destruct p; simpl; [rewrite H1|rewrite H2];
             reflexivity.
        -- intros e He Heq. apply Hfresh. rewrite <- Heq. apply Hes. exact He.
      * apply Hfly. exact Ha.
    + split; [|exact Hchain]. split.
      * intros a b p Ha Hb Hab. rewrite (Hold a b Ha Hb Hab).
        apply lifecycle_refl.
      * intros b Hb Hnotin. apply in_app_or in Hb. destruct Hb as [Hb|Hb].
        -- apply Hnew. exact Hb.
        -- exfalso. apply Hnotin. apply in_map. exact Hb.
    + exact Hlast.
  - intros a b p Ha Hb Hab. rewrite (Hold a b Ha Hb Hab). split; auto.
Qed.

(** Any selection of the present items: a removal, or clearing all. *)
Lemma core_sub new its es calls hist :
  Core B its es calls hist ->
  NoDup (map id new) ->
  (forall b, In b new -> In b its) ->
  Core B new es calls (its :: hist) /\ terminalFixed its new.
Proof.
  intros Hcore Hnd' Hsub.
  pose proof Hcore as [Hnd [Hiss [Hes [Hfly [Hchain Hlast]]]]].
  assert (Hold : forall a b, In a its -> In b new -> id a = id b -> b = a).
  { intros a b Ha Hb Hab. symmetry.
    exact (same_id_same_item its a b Hnd Ha (Hsub b Hb) Hab). }
  split.
  - split; [exact Hnd'|]. split; [|split; [exact Hes|split; [|split]]].
    + intros a Ha. apply Hiss. apply Hsub. exact Ha.
    + intros a p Ha. apply Hfly. apply Hsub. exact Ha.
    + split; [|exact Hchain]. split.
      * intros a b p Ha Hb Hab. rewrite (Hold a b Ha Hb Hab).
        apply lifecycle_refl.
      * intros b Hb Hnotin. exfalso. apply Hnotin. apply in_map.
        apply Hsub. exact Hb.
    + exact Hlast.
  - intros a b p Ha Hb Hab. rewrite (Hold a b Ha Hb Hab). split; auto.
Qed.

Lemma terminalFixed_same its : NoDup (map id its) -> terminalFixed its its.
Proof.
  intros Hnd a b p Ha Hb Hab.
  rewrite (same_id_same_item its a b Hnd Ha Hb Hab). split; auto.
Qed.

Lemma terminalFixed_map (g : ProcessedImage -> ProcessedImage) its :
  NoDup (map id its) ->
  (forall a, id (g a) = id a) ->
  (forall a p, In a its ->
     statusOf p a = Done \/ statusOf p a = Error ->
     statusOf p (g a) = statusOf p a) ->
  terminalFixed its (map g its).
Proof.
  intros Hnd Hid Hg a b p Ha Hb Hab.
  rewrite (in_map_same_id g its a b Hid Hnd Ha Hb Hab).
  split; intros Hs; rewrite (Hg a p Ha); auto.
Qed.

Lemma terminalFixed_trans (g : ProcessedImage -> ProcessedImage) its new :
  (forall a, id (g a) = id a) ->
  terminalFixed its (map g its) ->
  terminalFixed (map g its) new ->
  terminalFixed its new.
Proof.
  intros Hid H1 H2 a b p Ha Hb Hab.
  assert (Hga : In (g a) (map g its)) by (apply in_map; exact Ha).
  assert (Hid1 : id a = id (g a)) by (symmetry; apply Hid).
  assert (Hid2 : id (g a) = id b) by (rewrite Hid; exact Hab).
  destruct (H1 a (g a) p Ha Hga Hid1) as [Hd1 He1].
  destruct (H2 (g a) b p Hga Hb Hid2) as [Hd2 He2].
  split; auto.
Qed.

Lemma terminalFixed_kept ev old new :
  terminalFixed old new -> terminalKept ev old new.
Proof.
  intros H a b p Ha Hb Hab. destruct (H a b p Ha Hb Hab) as [Hd He].
  split; [exact Hd|]. intros Hs. left. exact (He Hs).
Qed.

(** *** The items a suspended batch still has to visit *)

Lemma tracked_map (g : ProcessedImage -> ProcessedImage) its calls c r :
  Tracked B its calls c r ->
  (forall a, id (g a) = id a) ->
  (forall a p, In a its -> id a = id c \/ In (id a) (map id r) ->
     statusOf p (g a) = statusOf p a) ->
  Tracked B (map g its) calls c r.
Proof.
  intros [T1 [T2 [T3 T4]]] Hid Hg.
  split; [exact T1|]. split; [exact T2|]. split.
  - intros b Hb Hbc. apply in_map_iff in Hb. destruct Hb as [a [<- Ha]].
    rewrite Hid in Hbc. rewrite !(Hg a _ Ha (or_introl Hbc)).
    exact (T3 a Ha Hbc).
  - intros b Hb Hbr. apply in_map_iff in Hb. destruct Hb as [a [<- Ha]].
    rewrite Hid in Hbr. rewrite !(Hg a _ Ha (or_intror Hbr)).
    exact (T4 a Ha Hbr).
Qed.

Lemma tracked_sub new its calls c r :
  Tracked B its calls c r ->
  (forall b, In b new -> In b its) ->
  Tracked B new calls c r.
Proof.
  intros [T1 [T2 [T3 T4]]] Hsub.
  split; [exact T1|]. split; [exact T2|]. split.
  - intros b Hb. apply T3. apply Hsub. exact Hb.
  - intros b Hb. apply T4. apply Hsub. exact Hb.
Qed.

Lemma tracked_calls its calls calls' c r :
  Tracked B its calls c r -> (calls <= calls')%nat ->
  Tracked B its calls' c r.
Proof.
  intros [T1 [T2 [T3 T4]]] Hle.
  split; [exact T1|]. split; [|split; [exact T3|exact T4]].
  intros x Hx. exact (issued_more calls calls' _ Hle (T2 x Hx)).
Qed.

Lemma tracked_add newItems its calls calls' c r :
  Tracked B its calls c r ->
  (calls <= calls')%nat ->
  (forall b, In b newItems -> ~ issued B calls (id b)) ->
  Tracked B (newItems ++ its) calls' c r.
Proof.
  intros [T1 [T2 [T3 T4]]] Hle Hfresh.
  split; [exact T1|]. split; [|split].
  - intros x Hx. exact (issued_more calls calls' _ Hle (T2 x Hx)).
  - intros b Hb Hbc. apply in_app_or in Hb. destruct Hb as [Hb|Hb].
    + exfalso. apply (Hfresh b Hb). rewrite Hbc. apply T2. left. reflexivity.
    + exact (T3 b Hb Hbc).
  - intros b Hb Hbr. apply in_app_or in Hb. destruct Hb as [Hb|Hb].
    + exfalso. apply (Hfresh b Hb). apply in_map_iff in Hbr.
      destruct Hbr as [x [<- Hx]]. apply T2. right. exact Hx.
    + exact (T4 b Hb Hbr).
Qed.

(** A half that is neither Splitting nor Idle belongs to no tracked item. *)
Lemma tracked_elsewhere its calls c r a p :
  Tracked B its calls c r -> In a its ->
  statusOf p a <> Splitting -> statusOf p a <> Idle ->
  ~ (id a = id c \/ In (id a) (map id r)).
Proof.
  intros [_ [_ [T3 T4]]] Ha Hs Hi [Hc|Hr].
  - destruct (T3 a Ha Hc) as [H1 H2]. destruct p; [exact (Hs H1)|exact (Hs H2)].
  - destruct (T4 a Ha Hr) as [H1 H2]. destruct p; [exact (Hi H1)|exact (Hi H2)].
Qed.

(** *** The loop of the batch *)

Lemma processNext_inv todo s d st :
  Core B (items st) (expansions st) (uuidCalls st) (history st) ->
  batches st = [] ->
  isProcessing st = true ->
  NoDup (map id todo) ->
  (forall c, In c todo -> issued B (uuidCalls st) (id c)) ->
  (forall a, In a (items st) -> In (id a) (map id todo) ->
     statusOf One a = Idle /\ statusOf Two a = Idle) ->
  Inv B (processNext todo s d st) /\
  terminalFixed (items st) (items (processNext todo s d st)).
Proof.
  intros Hcore Hb Hproc Hnd Hiss Hidle.
  pose proof Hcore as [Hnd0 _].
  destruct todo as [|c r]; simpl.
  - split; [|apply terminalFixed_same; exact Hnd0].
    unfold Inv. simpl. split; [exact Hcore|]. rewrite Hb. exact I.
  - assert (Hc : forall a, In a (items st) -> id a = id c ->
                   statusOf One a = Idle /\ statusOf Two a = Idle).
    { intros a Ha Hac. apply (Hidle a Ha). rewrite Hac. left. reflexivity. }
    unfold Inv. simpl. split; [split|].
    + apply core_markSplitting; assumption.
    + rewrite Hb. simpl. split; [exact Hproc|].
      inversion Hnd as [|? ? Hnotin Hnd']; subst.
      split; [exact Hnd|]. split; [exact Hiss|]. split.
      * intros b Hbin Hbc. apply in_map_iff in Hbin.
        destruct Hbin as [a [<- Ha]]. rewrite markSplitting_id in Hbc.
        rewrite !(markSplitting_status (id c) a _ Hbc). split; reflexivity.
      * intros b Hbin Hbr. apply in_map_iff in Hbin.
        destruct Hbin as [a [<- Ha]]. rewrite markSplitting_id in Hbr.
        assert (Hne : id a <> id c) by (intros Heq; apply Hnotin; rewrite <- Heq; exact Hbr).
        rewrite (markSplitting_other (id c) a Hne).
        apply (Hidle a Ha). right. exact Hbr.
    + apply terminalFixed_map; [exact Hnd0|apply markSplitting_id|].
      intros a p Ha Hs. destruct (String.eqb_spec (id a) (id c)) as [Heq|Hne].
      * exfalso. destruct (Hc a Ha Heq) as [H1 H2].
        destruct p; [rewrite H1 in Hs|rewrite H2 in Hs];
          destruct Hs as [Hs|Hs]; discriminate Hs.
      * rewrite (markSplitting_other (id c) a Hne). reflexivity.
Qed.

(** *** Every event keeps the invariant *)

Lemma status_eqb_eq a b : status_eqb a b = true <-> a = b.
Proof. destruct a, b; simpl; split; intros H; congruence. Qed.

Lemma inv_single st k b :
  Inv B st -> nth_error (batches st) k = Some b ->
  batches st = [b] /\ k = 0%nat /\ isProcessing st = true /\
  Tracked B (items st) (uuidCalls st) (b_item b) (b_rest b).
Proof.
  intros [_ Hbatch] Hk.
  destruct (batches st) as [|b0 [|b1 l]]; [destruct k; discriminate Hk| |
                                           contradiction].
  destruct k as [|k]; simpl in Hk; [|destruct k; discriminate Hk].
  injection Hk as <-. destruct Hbatch as [Hp Ht].
  split; [reflexivity|]. split; [reflexivity|]. split; assumption.
Qed.

Lemma inv_idle st : Inv B st -> isProcessing st = false -> batches st = [].
Proof.
  intros [_ Hbatch] Hp.
  destruct (batches st) as [|b0 [|b1 l]]; [reflexivity| |contradiction].
  destruct Hbatch as [Hq _]. rewrite Hp in Hq. discriminate Hq.
Qed.

Lemma upload_inv files st :
  uniqueIds B -> Inv B st ->
  Inv B (handleFilesAdded B files st) /\
  terminalFixed (items st) (items (handleFilesAdded B files st)).
Proof.
  intros Huniq [Hcore Hbatch]. unfold handleFilesAdded.
  destruct (buildItems B files (uuidCalls st)) as [[newItems|e] calls]
    eqn:Hbuild.
  - destruct (buildItems_fresh files _ _ _ Huniq Hbuild)
      as [Hle [Hnd Hnew]].
    destruct (core_add newItems _ _ _ calls _ Hcore Hle Hnd Hnew)
      as [Hcore' Hfixed].
    split; [|exact Hfixed]. unfold Inv. simpl. split; [exact Hcore'|].
    destruct (batches st) as [|b0 [|b1 l]]; [exact I| |contradiction].
    destruct Hbatch as [Hp Ht]. split; [exact Hp|].
    apply (tracked_add newItems _ _ calls _ _ Ht Hle).
    intros b Hb. apply Hnew. exact Hb.
  - pose proof (buildItems_calls files _ _ _ Hbuild) as Hle.
    pose proof Hcore as [Hnd _].
    split; [|apply terminalFixed_same; exact Hnd].
    unfold Inv. simpl. split; [exact (core_calls _ _ _ calls _ Hcore Hle)|].
    destruct (batches st) as [|b0 [|b1 l]]; [exact I| |contradiction].
    destruct Hbatch as [Hp Ht]. split; [exact Hp|].
    exact (tracked_calls _ _ calls _ _ Ht Hle).
Qed.

Lemma start_inv st :
  Inv B st -> startDisabled st = false ->
  Inv B (startProcessing st) /\
  terminalFixed (items st) (items (startProcessing st)).
Proof.
  intros Hinv Hguard. pose proof Hinv as [Hcore Hbatch].
  pose proof Hcore as [Hnd [Hiss _]].
  assert (Hp : isProcessing st = false).
  { unfold startDisabled in Hguard.
    destruct (isProcessing st); [discriminate Hguard|reflexivity]. }
  pose proof (inv_idle st Hinv Hp) as Hnone.
  unfold startProcessing. destruct (negb (truthy (apiKey (settings st)))).
  - split; [exact Hinv|apply terminalFixed_same; exact Hnd].
  - apply (processNext_inv (filter bothIdle (items st)) (settings st)
             (splitDirection st) (setIsProcessing true st)).
    + exact Hcore.
    + exact Hnone.
    + reflexivity.
    + apply NoDup_filter_map. exact Hnd.
    + intros c Hc. apply filter_In in Hc. apply Hiss. apply Hc.
    + intros a Ha Hin. simpl in Ha. apply in_map_iff in Hin.
      destruct Hin as [c [Hca Hc]]. apply filter_In in Hc.
      destruct Hc as [Hc Hidle].
      rewrite (same_id_same_item (items st) c a Hnd Hc Ha Hca) in Hidle.
      unfold bothIdle in Hidle. apply andb_prop in Hidle.
      destruct Hidle as [H1 H2]. split; apply status_eqb_eq; assumption.
Qed.

Lemma retry_inv x p st :
  Inv B st -> retryShown x p st = true ->
  Inv B (retryPart x p st) /\
  terminalKept (ClickRetry x p) (items st) (items (retryPart x p st)).
Proof.
  intros Hinv Hshown. pose proof Hinv as [Hcore Hbatch].
  pose proof Hcore as [Hnd [Hiss _]].
  assert (Hsame : Inv B st /\
                  terminalKept (ClickRetry x p) (items st) (items st)).
  { split; [exact Hinv|].
    apply terminalFixed_kept. apply terminalFixed_same. exact Hnd. }
  unfold retryShown in Hshown. apply existsb_exists in Hshown.
  destruct Hshown as [a0 [Ha0 Hcond]]. apply andb_prop in Hcond.
  destruct Hcond as [Hx Herr]. apply String.eqb_eq in Hx.
  apply status_eqb_eq in Herr. fold (statusOf p a0) in Herr.
  assert (Hall : forall a, In a (items st) -> id a = x -> a = a0).
  { intros a Ha Hax. apply (same_id_same_item (items st) a a0 Hnd Ha Ha0).
    congruence. }
  unfold retryPart. destruct (negb (truthy (apiKey (settings st))));
    [exact Hsame|].
  destruct (find (fun i => String.eqb (id i) x) (items st)) as [item|];
    [|exact Hsame].
  destruct (url (getPart p item)) as [u|]; [|exact Hsame].
  destruct (truthy u); [|exact Hsame].
  unfold processImagePart, Inv. simpl. split; [split|].
  - apply core_dispatch; [exact Hcore| |].
    + rewrite <- Hx. apply Hiss. exact Ha0.
    + intros a Ha Hax. rewrite (Hall a Ha Hax). right. exact Herr.
  - destruct (batches st) as [|b0 [|b1 l]]; [exact I| |contradiction].
    destruct Hbatch as [Hp Ht]. split; [exact Hp|].
    apply (tracked_map _ _ _ _ _ Ht); [apply markExpanding_id|].
    intros a q Ha Htr. destruct (String.eqb_spec (id a) x) as [Heq|Hne].
    + exfalso. rewrite (Hall a Ha Heq) in Htr.
      apply (tracked_elsewhere _ _ _ _ a0 p Ht Ha0); [| |exact Htr];
        rewrite Herr; discriminate.
    + rewrite (markExpanding_other x p a Hne). reflexivity.
  - intros a b q Ha Hb Hab.
    rewrite (in_map_same_id _ _ a b (markExpanding_id x p) Hnd Ha Hb Hab).
    destruct (String.eqb_spec (id a) x) as [Heq|Hne].
    + rewrite (markExpanding_status x p a q Heq).
      destruct (part_eqb_spec q p) as [->|Hq]; [|split; auto].
      rewrite (Hall a Ha Heq), Herr. split; [discriminate|].
      intros _. right. rewrite Hx. split; reflexivity.
    + rewrite (markExpanding_other x p a Hne). split; auto.
Qed.

Lemma sub_inv (f : list ProcessedImage -> list ProcessedImage) st :
  Inv B st ->
  NoDup (map id (f (items st))) ->
  (forall b, In b (f (items st)) -> In b (items st)) ->
  Inv B (setItems f st) /\ terminalFixed (items st) (items (setItems f st)).
Proof.
  intros [Hcore Hbatch] Hnd Hsub.
  destruct (core_sub (f (items st)) _ _ _ _ Hcore Hnd Hsub)
    as [Hcore' Hfixed].
  split; [|exact Hfixed]. unfold Inv. simpl. split; [exact Hcore'|].
  destruct (batches st) as [|b0 [|b1 l]]; [exact I| |contradiction].
  destruct Hbatch as [Hp Ht]. split; [exact Hp|].
  exact (tracked_sub _ _ _ _ _ Ht Hsub).
Qed.

Lemma settle_inv k response st st' :
  Inv B st -> expansionSettled k response st = Some st' ->
  Inv B st' /\ terminalFixed (items st) (items st').
Proof.
  intros [Hcore Hbatch] Hsettled. pose proof Hcore as [Hnd _].
  unfold expansionSettled in Hsettled.
  destruct (nth_error (expansions st) k) as [e|] eqn:Hk;
    [|discriminate Hsettled].
  assert (Hgen : forall g s,
            s = Done \/ s = Error ->
            (forall a, id (g a) = id a) ->
            (forall a, id a <> e_itemId e -> g a = a) ->
            (forall a q, id a = e_itemId e ->
               statusOf q (g a) = if part_eqb q (e_partNumber e) then s
                                  else statusOf q a) ->
            Core B (map g (items st)) (removeNth k (expansions st))
                 (uuidCalls st) (items st :: history st) /\
            match batches st with
            | [] => True
            | [b] => isProcessing st = true /\
                     Tracked B (map g (items st)) (uuidCalls st)
                             (b_item b) (b_rest b)
            | _ => False
            end /\
            terminalFixed (items st) (map g (items st))).
  { intros g s Hs Hid Hother Hstatus.
    destruct (core_settle g s k e _ _ _ _ Hcore Hk Hs Hid Hother Hstatus)
      as [Hcore' Hexp].
    assert (Hkeep : forall a q, In a (items st) ->
              statusOf q a <> Expanding -> statusOf q (g a) = statusOf q a).
    { intros a q Ha Hq.
      destruct (String.eqb_spec (id a) (e_itemId e)) as [Heq|Hne];
        [|rewrite (Hother a Hne); reflexivity].
      rewrite (Hstatus a q Heq).
      destruct (part_eqb_spec q (e_partNumber e)) as [->|_]; [|reflexivity].
      exfalso. exact (Hq (Hexp a Ha Heq)). }
    split; [exact Hcore'|]. split.
    - destruct (batches st) as [|b0 [|b1 l]]; [exact I| |contradiction].
      destruct Hbatch as [Hp Ht]. split; [exact Hp|].
      apply (tracked_map _ _ _ _ _ Ht Hid).
      intros a q Ha Htr. apply (Hkeep a q Ha).
      destruct Ht as [_ [_ [T3 T4]]]. destruct Htr as [Hc|Hr].
      + destruct (T3 a Ha Hc) as [H1 H2].
        destruct q; [rewrite H1|rewrite H2]; discriminate.
      + destruct (T4 a Ha Hr) as [H1 H2].
        destruct q; [rewrite H1|rewrite H2]; discriminate.
    - apply terminalFixed_map; [exact Hnd|exact Hid|].
      intros a q Ha Hq. apply (Hkeep a q Ha).
      destruct Hq as [-> | ->]; discriminate. }
  destruct (outcome (expandImageWithGemini (fun _ => response)
                       (e_cropped e) (e_settings e)))
    as [expandedBase64|error]; injection Hsettled as <-;
    unfold Inv; simpl.
  - destruct (Hgen (markDone (e_itemId e) (e_partNumber e) expandedBase64)
                   Done (or_introl eq_refl)
                   (markDone_id _ _ _) (markDone_other _ _ _)
                   (fun a q => markDone_status _ _ _ a q))
      as [H1 [H2 H3]].
    split; [split|]; assumption.
  - destruct (Hgen (markError (e_itemId e) (e_partNumber e))
                   Error (or_intror eq_refl)
                   (markError_id _ _) (markError_other _ _)
                   (fun a q => markError_status _ _ a q))
      as [H1 [H2 H3]].
    split; [split|]; assumption.
Qed.

(** The three writes after a successful split: the crops are stored, then
    both halves are dispatched. *)
Lemma split_success_core x u1 u2 s its es calls hist c r :
  Core B its es calls hist ->
  Tracked B its calls c r ->
  x = id c ->
  let its1 := map (storeParts x u1 u2) its in
  let its2 := map (markExpanding x One) its1 in
  let its3 := map (markExpanding x Two) its2 in
  Core B its3 ((es ++ [mkExpansion x One u1 s]) ++ [mkExpansion x Two u2 s])
       calls (its2 :: its1 :: its :: hist) /\
  (forall new, terminalFixed its3 new -> terminalFixed its new) /\
  (forall a, In a its3 -> In (id a) (map id r) ->
     statusOf One a = Idle /\ statusOf Two a = Idle).
Proof.
  intros Hcore Ht Hx its1 its2 its3.
  pose proof Ht as [T1 [T2 [T3 T4]]].
  pose proof Hcore as [Hnd _].
  assert (Hissued : issued B calls x)
    by (rewrite Hx; apply T2; left; reflexivity).
  assert (Hsplit : forall a, In a its -> id a = x ->
                     statusOf One a = Splitting /\ statusOf Two a = Splitting)
    by (intros a Ha Hax; apply (T3 a Ha); congruence).
  (* the crops are stored *)
  assert (Hcore1 : Core B its1 es calls (its :: hist))
    by (apply core_storeParts; assumption).
  assert (Hidle1 : forall a q, In a its1 -> id a = x -> statusOf q a = Idle).
  { intros a q Ha Hax. apply in_map_iff in Ha. destruct Ha as [a0 [<- Ha0]].
    rewrite storeParts_id in Hax. apply storeParts_status. exact Hax. }
  assert (Hfix1 : terminalFixed its its1).
  { apply terminalFixed_map; [exact Hnd|apply storeParts_id|].
    intros a q Ha Hq. destruct (String.eqb_spec (id a) x) as [Heq|Hne];
      [|rewrite (storeParts_other x u1 u2 a Hne); reflexivity].
    exfalso. destruct (Hsplit a Ha Heq) as [H1 H2].
    destruct q; [rewrite H1 in Hq|rewrite H2 in Hq];
      destruct Hq as [Hq|Hq]; discriminate Hq. }
  (* the first half is dispatched *)
  pose proof Hcore1 as [Hnd1 _].
  assert (Hcore2 : Core B its2 (es ++ [mkExpansion x One u1 s]) calls
                        (its1 :: its :: hist)).
  { apply core_dispatch; [exact Hcore1|exact Hissued|].
    intros a Ha Hax. left. exact (Hidle1 a One Ha Hax). }
  assert (Hidle2 : forall a, In a its2 -> id a = x ->
                     statusOf One a = Expanding /\ statusOf Two a = Idle).
  { intros a Ha Hax. apply in_map_iff in Ha. destruct Ha as [a1 [<- Ha1]].
    rewrite markExpanding_id in Hax.
    rewrite !(markExpanding_status x One a1 _ Hax). simpl.
    split; [reflexivity|exact (Hidle1 a1 Two Ha1 Hax)]. }
  assert (Hfix2 : terminalFixed its1 its2).
  { apply terminalFixed_map; [exact Hnd1|apply markExpanding_id|].
    intros a q Ha Hq. destruct (String.eqb_spec (id a) x) as [Heq|Hne];
      [|rewrite (markExpanding_other x One a Hne); reflexivity].
    exfalso. rewrite (Hidle1 a q Ha Heq) in Hq.
    destruct Hq as [Hq|Hq]; discriminate Hq. }
  (* the second half is dispatched *)
  pose proof Hcore2 as [Hnd2 _].
  assert (Hcore3 : Core B its3
                        ((es ++ [mkExpansion x One u1 s])
                           ++ [mkExpansion x Two u2 s])
                        calls (its2 :: its1 :: its :: hist)).
  { apply core_dispatch; [exact Hcore2|exact Hissued|].
    intros a Ha Hax. left. apply (Hidle2 a Ha Hax). }
  assert (Hfix3 : terminalFixed its2 its3).
  { apply terminalFixed_map; [exact Hnd2|apply markExpanding_id|].
    intros a q Ha Hq. destruct (String.eqb_spec (id a) x) as [Heq|Hne];
      [|rewrite (markExpanding_other x Two a Hne); reflexivity].
    exfalso. destruct (Hidle2 a Ha Heq) as [H1 H2].
    destruct q; [rewrite H1 in Hq|rewrite H2 in Hq];
      destruct Hq as [Hq|Hq]; discriminate Hq. }
  split; [exact Hcore3|]. split.
  - intros new Hnew.
    apply (terminalFixed_trans (storeParts x u1 u2) its new);
      [apply storeParts_id|exact Hfix1|].
    apply (terminalFixed_trans (markExpanding x One) its1 new);
      [apply markExpanding_id|exact Hfix2|].
    apply (terminalFixed_trans (markExpanding x Two) its2 new);
      [apply markExpanding_id|exact Hfix3|exact Hnew].
  - intros a Ha Har.
    apply in_map_iff in Ha. destruct Ha as [a2 [<- Ha2]].
    apply in_map_iff in Ha2. destruct Ha2 as [a1 [<- Ha1]].
    apply in_map_iff in Ha1. destruct Ha1 as [a0 [<- Ha0]].
    rewrite !markExpanding_id, storeParts_id in Har.
    assert (Hne : id a0 <> x).
    { intros Heq. inversion T1 as [|? ? Hnotin _]; subst.
      apply Hnotin. rewrite <- Heq. exact Har. }
    rewrite (storeParts_other x u1 u2 a0 Hne).
    rewrite !(markExpanding_other x _ a0 Hne).
    exact (T4 a0 Ha0 Har).
Qed.

Lemma split_inv k st st' :
  Inv B st -> splitSettled B k st = Some st' ->
  Inv B st' /\ terminalFixed (items st) (items st').
Proof.
  intros Hinv Hsettled. pose proof Hinv as [Hcore _].
  unfold splitSettled in Hsettled.
  destruct (nth_error (batches st) k) as [b|] eqn:Hk; [|discriminate Hsettled].
  destruct (inv_single st k b Hinv Hk) as [Hb [-> [Hp Ht]]].
  injection Hsettled as <-.
  pose proof Ht as [T1 [T2 [_ T4]]].
  assert (Hnd : NoDup (map id (b_rest b)))
    by (inversion T1; assumption).
  assert (Hiss : forall c, In c (b_rest b) -> issued B (uuidCalls st) (id c))
    by (intros c Hc; apply T2; right; exact Hc).
  destruct (splitImage B (originalUrl (b_item b)) (b_direction b))
    as [[part1 part2]|e].
  - destruct (split_success_core (id (b_item b)) part1 part2 (b_settings b)
                _ _ _ _ _ _ Hcore Ht eq_refl)
      as [Hcore3 [Hfix Hidle]].
    match goal with
    | |- Inv B (processNext _ _ _ ?st4) /\ _ =>
        destruct (processNext_inv (b_rest b) (b_settings b) (b_direction b)
                                  st4) as [Hinv' Hfix']
    end.
    + exact Hcore3.
    + simpl. rewrite Hb. reflexivity.
    + exact Hp.
    + exact Hnd.
    + exact Hiss.
    + exact Hidle.
    + split; [exact Hinv'|]. apply Hfix. exact Hfix'.
  - match goal with
    | |- Inv B (processNext _ _ _ ?st1) /\ _ =>
        apply (processNext_inv (b_rest b) (b_settings b) (b_direction b) st1)
    end.
    + exact Hcore.
    + simpl. rewrite Hb. reflexivity.
    + exact Hp.
    + exact Hnd.
    + exact Hiss.
    + exact T4.
Qed.

Lemma exec_inv ev st st' :
  uniqueIds B -> Inv B st -> exec B ev st = Some st' ->
  Inv B st' /\ terminalKept ev (items st) (items st').
Proof.
  intros Huniq Hinv Hexec. pose proof Hinv as [[Hnd _] _].
  assert (Hsame : forall st0,
            items st0 = items st -> Inv B st0 ->
            Inv B st0 /\ terminalKept ev (items st) (items st0)).
  { intros st0 Heq H0. split; [exact H0|]. rewrite Heq.
    apply terminalFixed_kept. apply terminalFixed_same. exact Hnd. }
  assert (Hfixed : forall st0,
            Inv B st0 /\ terminalFixed (items st) (items st0) ->
            Inv B st0 /\ terminalKept ev (items st) (items st0)).
  { intros st0 [H0 H1]. split; [exact H0|].
    apply terminalFixed_kept. exact H1. }
  destruct ev; simpl in Hexec; unfold whenEnabled in Hexec.
  - destruct (Dropzone.handleFileSelect (isProcessing st) targetFiles);
      injection Hexec as <-; apply Hsame; try reflexivity; exact Hinv.
  - destruct (Dropzone.handleDrop (isProcessing st) dt);
      injection Hexec as <-; apply Hsame; try reflexivity; exact Hinv.
  - unfold filesRead in Hexec.
    destruct (nth_error (uploads st) k) as [files|]; [|discriminate Hexec].
    injection Hexec as <-. apply Hfixed.
    apply (upload_inv files (setUploads (removeNth k (uploads st)) st) Huniq).
    exact Hinv.
  - destruct (startDisabled st) eqn:Hguard; [discriminate Hexec|].
    injection Hexec as <-. apply Hfixed. apply start_inv; assumption.
  - destruct (retryShown itemId part st) eqn:Hguard; [|discriminate Hexec].
    injection Hexec as <-. apply retry_inv; assumption.
  - destruct (cardShown itemId st); [|discriminate Hexec].
    injection Hexec as <-. apply Hfixed. unfold removeItem.
    apply sub_inv; [exact Hinv| |].
    + apply NoDup_filter_map. exact Hnd.
    + intros b Hb. apply filter_In in Hb. apply Hb.
  - destruct (0 <? List.length (items st))%nat; [|discriminate Hexec].
    injection Hexec as <-. unfold clearAll. destruct confirmed.
    + apply Hfixed. apply sub_inv; [exact Hinv|constructor|].
      intros b [].
    + apply Hsame; [reflexivity|exact Hinv].
  - injection Hexec as <-. apply Hsame; [reflexivity|exact Hinv].
  - destruct (showSettings st); [|discriminate Hexec].
    injection Hexec as <-. apply Hsame; [reflexivity|exact Hinv].
  - destruct (showSettings st); [|discriminate Hexec].
    injection Hexec as <-. apply Hsame; [reflexivity|exact Hinv].
  - injection Hexec as <-. apply Hsame; [reflexivity|exact Hinv].
  - apply Hfixed. apply (split_inv k); assumption.
  - apply Hfixed. apply (settle_inv k response); assumption.
Qed.

Lemma mount_inv ls : Inv B (mount ls).
Proof.
  unfold mount. destruct (negb (truthyOpt (gemini_api_key ls)));
    unfold Inv, Core; simpl; repeat split;
    try constructor; intros; contradiction.
Qed.

Lemma run_inv evs :
  forall st st', uniqueIds B -> Inv B st -> run B evs st = Some st' ->
                 Inv B st'.
Proof.
  induction evs as [|ev evs IH]; simpl; intros st st' Huniq Hinv Hrun.
  - injection Hrun as <-. exact Hinv.
  - destruct (exec B ev st) as [st1|] eqn:Hexec; [|discriminate Hrun].
    apply (IH st1 st' Huniq); [|exact Hrun].
    apply (exec_inv ev st st1 Huniq Hinv Hexec).
Qed.

Lemma reachable_inv st : uniqueIds B -> reachable B st -> Inv B st.
Proof.
  intros Huniq [ls [evs Hrun]].
  exact (run_inv evs (mount ls) st Huniq (mount_inv ls) Hrun).
Qed.

End Lifecycle.

(* ===================================================================== *)
(** ** The lifecycle, for every reachable state                           *)
(* ===================================================================== *)

Section Reachable.
Import ImageUtils GeminiService App.

Lemma strokes_inj (m n : nat) : Sample.strokes m = Sample.strokes n -> m = n.
Proof.
  revert n. induction m as [|m IH]; intros [|n] H; simpl in H;
    try reflexivity; try discriminate H.
  injection H as H. f_equal. exact (IH n H).
Qed.

Lemma sample_uniqueIds : uniqueIds Sample.browser.
Proof.
  intros m n H. simpl in H. unfold Sample.uuid in H.
  injection H as H. exact (strokes_inj m n H).
Qed.

Lemma sample_reachable (n : nat) :
  (n <= 7)%nat -> reachable Sample.browser (Sample.after n).
Proof.
  intros Hn. exists Sample.keyStored, (firstn n Sample.session).
  do 8 (destruct n as [|n]; [vm_compute; reflexivity|]). lia.
Qed.

(** C2 as stated fails: when the split of an item succeeds, the write that
    stores the crops takes both halves from Splitting back to Idle, which
    is neither a forward step nor the step from Error to Expanding. *)
Lemma splitting_back_to_idle_counterexample :
  reachable Sample.browser Sample.expandingBoth /\
  exists later new old earlier a b,
    items Sample.expandingBoth :: history Sample.expandingBoth
      = later ++ new :: old :: earlier /\
    In a old /\ In b new /\ id a = id b /\
    statusOf One a = Splitting /\ statusOf One b = Idle /\
    claimedOrder (statusOf One a) (statusOf One b) = false.
Proof.
  split.
  - exists Sample.keyStored, (firstn 4 Sample.session). vm_compute.
    reflexivity.
  - assert (H : exists v1 v2 v3 v4 rest,
              items Sample.expandingBoth :: history Sample.expandingBoth
                = v1 :: v2 :: v3 :: v4 :: rest /\
              map (fun i => (id i, statusOf One i)) v3
                = [(Sample.uuid 0, Idle)] /\
              map (fun i => (id i, statusOf One i)) v4
                = [(Sample.uuid 0, Splitting)]).
    { vm_compute. do 5 eexists. split; [reflexivity|].
      split; reflexivity. }
    destruct H as [v1 [v2 [v3 [v4 [rest [Hvals [H3 H4]]]]]]].
    destruct v3 as [|b [|]]; try discriminate H3.
    destruct v4 as [|a [|]]; try discriminate H4.
    injection H3 as Hb1 Hb2. injection H4 as Ha1 Ha2.
    exists [v1; v2], [b], [a], rest, a, b.
    split; [exact Hvals|]. split; [left; reflexivity|].
    split; [left; reflexivity|]. split; [congruence|].
    split; [exact Ha2|]. split; [exact Hb2|].
    rewrite Ha2, Hb2. reflexivity.
Qed.

End Reachable.

(* ===================================================================== *)
(** ** More on the splitter                                               *)
(* ===================================================================== *)

Section SplitterContents.
Import ImageUtils.

Lemma split_parts_pixels
    (img : Raster) (direction : SplitDirection) (x y : N) :
  (x < width (fst (splitRaster img direction)))%N ->
  (y < height (fst (splitRaster img direction)))%N ->
  pixelAt (fst (splitRaster img direction)) x y = pixelAt img x y /\
  pixelAt (snd (splitRaster img direction)) x y
    = match direction with
      | Horizontal => pixelAt img (width img / 2 + x)%N y
      | Vertical => pixelAt img x (height img / 2 + y)%N
      end.
Proof.
  destruct direction; simpl; intros Hx Hy.
  - apply splitRaster_horizontal_pixels; assumption.
  - apply splitRaster_vertical_pixels; assumption.
Qed.

(** Inside its bounds, the first part shows the source from its origin and
    the second part shows the source from the split coordinate on. *)
Theorem split_parts_show_source
    (img : Raster) (direction : SplitDirection) (x y : N) :
  (x < width (fst (splitRaster img direction)))%N ->
  (y < height (fst (splitRaster img direction)))%N ->
  pixelAt (fst (splitRaster img direction)) x y = pixelAt img x y /\
  pixelAt (snd (splitRaster img direction)) x y
    = match direction with
      | Horizontal => pixelAt img (width img / 2 + x)%N y
      | Vertical => pixelAt img x (height img / 2 + y)%N
      end.
Proof.
  destruct direction; simpl; intros Hx Hy.
  - apply splitRaster_horizontal_pixels; assumption.
  - apply splitRaster_vertical_pixels; assumption.
Qed.

Lemma split_parts_show_source_witness :
  pixelAt (fst (splitRaster Sample.img3x2 Horizontal)) 0 1 = Some 10%N /\
  pixelAt (snd (splitRaster Sample.img3x2 Horizontal)) 0 1 = Some 11%N.
Proof.
  apply (split_parts_show_source Sample.img3x2 Horizontal 0 1);
    vm_compute; reflexivity.
Defined.

Lemma half_even (n : N) : N.even n = true -> (n = 2 * (n / 2))%N.
Proof.
  intros He. apply N.even_spec in He. destruct He as [k ->].
  rewrite N.mul_comm, N.div_mul by discriminate. apply N.mul_comm.
Qed.

(** When the split coordinate is even nothing is lost: every pixel of the
    source is in exactly one part, at the place the split assigns to it. *)
Theorem split_even_is_lossless
    (img : Raster) (direction : SplitDirection) (u v : N) :
  N.even (match direction with
          | Horizontal => width img
          | Vertical => height img
          end) = true ->
  (u < width img)%N -> (v < height img)%N ->
  pixelAt img u v
    = match direction with
      | Horizontal =>
          if (u <? width img / 2)%N
          then pixelAt (fst (splitRaster img Horizontal)) u v
          else pixelAt (snd (splitRaster img Horizontal))
                       (u - width img / 2)%N v
      | Vertical =>
          if (v <? height img / 2)%N
          then pixelAt (fst (splitRaster img Vertical)) u v
          else pixelAt (snd (splitRaster img Vertical))
                       u (v - height img / 2)%N
      end.
Proof.
  intros Heven Hu Hv. destruct direction.
  - pose proof (half_even _ Heven) as Hw.
    destruct (N.ltb_spec u (width img / 2)) as [Hlt|Hge].
    + symmetry. apply splitRaster_horizontal_pixels; assumption.
    + destruct (splitRaster_horizontal_pixels img (u - width img / 2) v)
        as [_ H]; [lia|exact Hv|].
      rewrite H. f_equal. lia.
  - pose proof (half_even _ Heven) as Hh.
    destruct (N.ltb_spec v (height img / 2)) as [Hlt|Hge].
    + symmetry. apply splitRaster_vertical_pixels; assumption.
    + destruct (splitRaster_vertical_pixels img u (v - height img / 2))
        as [_ H]; [exact Hu|lia|].
      rewrite H. f_equal. lia.
Qed.

Lemma split_even_is_lossless_witness :
  pixelAt Sample.img4x2 3 1
    = pixelAt (snd (splitRaster Sample.img4x2 Horizontal)) 1 1.
Proof.
  exact (split_even_is_lossless Sample.img4x2 Horizontal 3 1
           eq_refl eq_refl eq_refl).
Defined.

(** The parts depend on the source only up to twice the half: when the
    split coordinate is odd, the last column (or row) of the source is in
    neither part. *)
Theorem split_ignores_odd_remainder
    (img img' : Raster) (direction : SplitDirection) :
  width img' = width img -> height img' = height img ->
  (forall u v,
     (u < match direction with
          | Horizontal => 2 * (width img / 2)
          | Vertical => width img
          end)%N ->
     (v < match direction with
          | Horizontal => height img
          | Vertical => 2 * (height img / 2)
          end)%N ->
     pixelAt img' u v = pixelAt img u v) ->
  forall x y,
    (x < width (fst (splitRaster img direction)))%N ->
    (y < height (fst (splitRaster img direction)))%N ->
    pixelAt (fst (splitRaster img' direction)) x y
      = pixelAt (fst (splitRaster img direction)) x y /\
    pixelAt (snd (splitRaster img' direction)) x y
      = pixelAt (snd (splitRaster img direction)) x y.
Proof.
  intros Hw Hh Hsame x y Hx Hy.
  assert (Hx' : (x < width (fst (splitRaster img' direction)))%N)
    by (destruct direction; simpl in *; rewrite ?Hw, ?Hh; exact Hx).
  assert (Hy' : (y < height (fst (splitRaster img' direction)))%N)
    by (destruct direction; simpl in *; rewrite ?Hw, ?Hh; exact Hy).
  destruct (split_parts_pixels img direction x y Hx Hy) as [H1 H2].
  destruct (split_parts_pixels img' direction x y Hx' Hy') as [H1' H2'].
  rewrite H1, H2, H1', H2'.
  destruct direction; simpl in Hx, Hy; rewrite ?Hw, ?Hh;
    split; apply Hsame; lia.
Qed.

Lemma split_ignores_odd_remainder_witness :
  pixelAt (fst (splitRaster Sample.img3x2' Horizontal)) 0 1
    = pixelAt (fst (splitRaster Sample.img3x2 Horizontal)) 0 1 /\
  pixelAt (snd (splitRaster Sample.img3x2' Horizontal)) 0 1
    = pixelAt (snd (splitRaster Sample.img3x2 Horizontal)) 0 1.
Proof.
  apply (split_ignores_odd_remainder Sample.img3x2 Sample.img3x2' Horizontal
           eq_refl eq_refl); [|reflexivity|reflexivity].
  intros u v Hu Hv. simpl in Hu. simpl.
  destruct (N.eqb_spec u 2) as [Heq|_]; [|reflexivity].
  exfalso. revert Hu. rewrite Heq. vm_compute. discriminate.
Defined.

(** How [splitImage] fails: with the rejection of the image when the
    source cannot be decoded, else with its own error when no 2D context
    can be had, and in no other case. *)
Theorem splitImage_error_cases
    (B : Browser) (imageSrc : string) (direction : SplitDirection) :
  (decodeImage B imageSrc = None ->
   splitImage B imageSrc direction = Throw LoadRejected) /\
  (decodeImage B imageSrc <> None -> context2d B = false ->
   splitImage B imageSrc direction
     = Throw (JsError "Could not get canvas context")) /\
  (forall e, splitImage B imageSrc direction = Throw e ->
     (decodeImage B imageSrc = None /\ e = LoadRejected) \/
     (decodeImage B imageSrc <> None /\ context2d B = false /\
      e = JsError "Could not get canvas context")).
Proof.
  unfold splitImage, loadImage.
  destruct (decodeImage B imageSrc) as [img|].
  - destruct (context2d B).
    + destruct (splitRaster img direction).
      split; [discriminate|]. split; [discriminate|].
      intros e He. discriminate He.
    + split; [discriminate|]. split; [reflexivity|].
      intros e He. injection He as <-. right.
      split; [discriminate|]. split; reflexivity.
  - split; [reflexivity|]. split; [intros H; contradiction|].
    intros e He. injection He as <-. left. split; reflexivity.
Qed.

Lemma splitImage_error_cases_witness :
  splitImage Sample.browser "data:image/png;base64,GARBAGE" Vertical
    = Throw LoadRejected.
Proof.
  apply (proj1 (splitImage_error_cases Sample.browser
                  "data:image/png;base64,GARBAGE" Vertical)).
  vm_compute. reflexivity.
Defined.

End SplitterContents.

(* ===================================================================== *)
(** ** More on the expander client and the drop zone                      *)
(* ===================================================================== *)

Section ClientAndDropzone.
Import ImageUtils GeminiService App.

Lemma split_without_separator (sep : ascii) (s : string) :
  occurs sep s = false -> split sep s = [s].
Proof.
  induction s as [|c s IH]; simpl; intros H; [reflexivity|].
  apply orb_false_elim in H. destruct H as [Hc Hs].
  rewrite Hc, (IH Hs). reflexivity.
Qed.

Lemma split_at_separator (sep : ascii) (h t : string) :
  occurs sep h = false ->
  split sep (h ++ String sep t)%string = h :: split sep t.
Proof.
  induction h as [|c h IH]; simpl; intros H.
  - rewrite Ascii.eqb_refl. reflexivity.
  - apply orb_false_elim in H. destruct H as [Hc Hh].
    rewrite Hc, (IH Hh). reflexivity.
Qed.

Lemma truthy_nonempty (s : string) : s <> "" -> truthy s = true.
Proof.
  intros H. unfold truthy. apply negb_true_iff. apply String.eqb_neq. exact H.
Qed.

(** What the client sends as image data: a string without a comma goes out
    as it is; from a data URL (a header, a comma, a payload) only the
    payload goes out; what follows a second comma is cut off; and when
    nothing follows the first comma the whole string goes out. *)
Theorem cleanBase64_cases (header payload more : string) :
  occurs "," header = false ->
  occurs "," payload = false ->
  cleanBase64 header = header /\
  (payload <> "" ->
   cleanBase64 (header ++ String "," payload)%string = payload /\
   cleanBase64 (header ++ String "," (payload ++ String "," more))%string
     = payload) /\
  cleanBase64 (header ++ String "," "")%string
    = (header ++ String "," "")%string.
Proof.
  intros Hh Hp. unfold cleanBase64. split; [|split].
  - rewrite (split_without_separator _ _ Hh). reflexivity.
  - intros Hne. pose proof (truthy_nonempty payload Hne) as Ht. split.
    + rewrite (split_at_separator _ _ _ Hh),
        (split_without_separator _ _ Hp).
      simpl. rewrite Ht. reflexivity.
    + rewrite (split_at_separator _ _ _ Hh),
        (split_at_separator _ _ _ Hp).
      simpl. rewrite Ht. reflexivity.
  - rewrite (split_at_separator _ _ _ Hh). reflexivity.
Qed.

(** Feeding an image the client returned back to it sends the bare
    payload again. *)
Lemma cleanBase64_cases_witness :
  cleanBase64 "data:image/png;base64,QUJD" = "QUJD".
Proof.
  destruct (cleanBase64_cases "data:image/png;base64" "QUJD" ""
              eq_refl eq_refl) as [_ [H _]].
  apply H. discriminate.
Defined.

(** What the settling of an expansion writes to the console: nothing on
    success; on a failure the line of the tracker with the very error,
    preceded by the line of the client unless the error is the missing
    key. *)
Theorem expansion_failure_on_console
    (k : nat) (response : Result GenerateContentResponse)
    (st st' : AppState) (e : Expansion) :
  nth_error (expansions st) k = Some e ->
  expansionSettled k response st = Some st' ->
  match outcome (expandImageWithGemini (fun _ => response)
                                       (e_cropped e) (e_settings e)) with
  | Ok _ => console st' = console st
  | Throw error =>
      console st'
        = console st
          ++ (if truthy (apiKey (e_settings e))
              then [GeminiExpansionError error] else [])
          ++ [ExpansionFailed error]
  end.
Proof.
  intros He Hsettled. unfold expansionSettled in Hsettled.
  rewrite He in Hsettled. revert Hsettled.
  unfold expandImageWithGemini.
  destruct (truthy (apiKey (e_settings e))); simpl.
  - destruct response as [r|err]; simpl.
    + destruct (responseParts r) as [ps|]; simpl.
      * destruct (firstInlineData ps); simpl; intros H;
          injection H as <-; simpl;
          [apply app_nil_r|rewrite <- app_assoc; reflexivity].
      * intros H. injection H as <-. simpl.
        rewrite <- app_assoc. reflexivity.
    + intros H. injection H as <-. simpl.
      rewrite <- app_assoc. reflexivity.
  - intros H. injection H as <-. simpl. rewrite app_nil_r. reflexivity.
Qed.

Lemma expansion_failure_on_console_witness :
  console Sample.failedFirst
    = [GeminiExpansionError (NetworkRejected "timeout");
       ExpansionFailed (NetworkRejected "timeout")].
Proof.
  assert (Hnth : nth_error (expansions Sample.expandingBoth) 0
                 = Some (mkExpansion (Sample.uuid 0) One
                           "data:image/png;base64,BCA" Sample.withKey))
    by (vm_compute; reflexivity).
  assert (Hstep : expansionSettled 0 (Throw (NetworkRejected "timeout"))
                    Sample.expandingBoth = Some Sample.failedFirst)
    by (vm_compute; reflexivity).
  pose proof (expansion_failure_on_console 0
                (Throw (NetworkRejected "timeout"))
                Sample.expandingBoth Sample.failedFirst _ Hnth Hstep) as H.
  vm_compute in H. vm_compute. exact H.
Defined.

(** *** The drop zone *)

(** [startsWith] finds exactly the strings that begin with the prefix. *)
Theorem startsWith_prefix (p s : string) :
  Dropzone.startsWith p s = true <-> exists rest, s = (p ++ rest)%string.
Proof.
  revert s. induction p as [|a p IH]; intros s; simpl.
  - split; [intros _; exists s; reflexivity|reflexivity].
  - destruct s as [|b s].
    + split; [discriminate|]. intros [rest H]. discriminate H.
    + rewrite andb_true_iff, Ascii.eqb_eq, IH. split.
      * intros [-> [rest ->]]. exists rest. reflexivity.
      * intros [rest H]. injection H as -> ->. split; [reflexivity|].
        exists rest. reflexivity.
Qed.



(** While a batch runs the drop zone is inert: a selection or a drop starts
    no upload and changes nothing. *)
Theorem dropzone_inert_while_processing
    (B : Browser) (st : AppState) :
  isProcessing st = true ->
  (forall targetFiles, exec B (FileSelect targetFiles) st = Some st) /\
  (forall dt, exec B (Drop dt) st = Some st).
Proof.
  intros Hp. split.
  - intros targetFiles. simpl. unfold Dropzone.handleFileSelect.
    rewrite Hp. destruct targetFiles; reflexivity.
  - intros dt. simpl. unfold Dropzone.handleDrop. rewrite Hp. reflexivity.
Qed.

Lemma dropzone_inert_while_processing_witness :
  exec Sample.browser (FileSelect (Some [Sample.pngEven]))
       Sample.splittingState
    = Some Sample.splittingState.
Proof.
  apply (dropzone_inert_while_processing Sample.browser
           Sample.splittingState).
  vm_compute. reflexivity.
Defined.

(** [readAllEntries] returns the batches delivered before the first empty
    one (or before the reader runs dry), concatenated, and reads nothing
    after it; an error before it rejects the whole read. *)
Theorem readAllEntries_collects
    (E : Type) (batches : list (list E))
    (later : Dropzone.DirectoryReader E) :
  Forall (fun batch => batch <> []) batches ->
  Dropzone.readAllEntries (map Ok batches ++ Ok [] :: later)
    = Ok (List.concat batches) /\
  Dropzone.readAllEntries (map Ok batches) = Ok (List.concat batches) /\
  (forall err,
     Dropzone.readAllEntries (map Ok batches ++ Throw err :: later)
       = Throw err).
Proof.
  induction batches as [|batch batches IH]; intros Hne.
  - repeat split.
  - inversion Hne as [|? ? Hb Hrest]; subst.
    destruct (IH Hrest) as [H1 [H2 H3]].
    destruct batch as [|entry batch]; [contradiction|].
    simpl. rewrite H1, H2. split; [reflexivity|]. split; [reflexivity|].
    intros err. rewrite H3. reflexivity.
Qed.

Lemma readAllEntries_collects_witness :
  Dropzone.readAllEntries
    [Ok [Sample.notes; Sample.pngOdd]; Ok [Sample.pngEven]; Ok [];
     Ok [Sample.broken]]
    = Ok [Sample.notes; Sample.pngOdd; Sample.pngEven].
Proof.
  apply (readAllEntries_collects File
           [[Sample.notes; Sample.pngOdd]; [Sample.pngEven]]
           [Ok [Sample.broken]]).
  repeat constructor; discriminate.
Defined.

End ClientAndDropzone.

(* ===================================================================== *)
(** ** More on the operations of the tracker                              *)
(* ===================================================================== *)

Section MoreOperations.
Import ImageUtils GeminiService App.

Lemma orUndefined_stored (a : option string) :
  orUndefined (Some (orString (orUndefined a) "")) = orUndefined a.
Proof.
  destruct a as [u|]; [|reflexivity].
  unfold orUndefined, orString, truthyOpt.
  destruct (truthy u) eqn:Hu; [rewrite Hu; rewrite Hu|]; reflexivity.
Qed.

Lemma orString_stored (m : option string) (d : string) :
  truthy d = true ->
  orString (Some (orString (orUndefined m) d)) d = orString m d.
Proof.
  intros Hd. destruct m as [u|]; unfold orUndefined, orString, truthyOpt.
  - destruct (truthy u) eqn:Hu; [rewrite Hu; rewrite Hu|rewrite Hd];
      reflexivity.
  - rewrite Hd. reflexivity.
Qed.

(** Settings that are saved are the settings the next mount loads, as far
    as any request can tell; the dialog then opens by itself exactly when
    the saved key is empty. *)
Theorem settings_survive_reload (s : GeminiSettings) (st : AppState) :
  let reloaded := mount (storage (saveSettings s st)) in
  settings (saveSettings s st) = s /\
  showSettings (saveSettings s st) = false /\
  apiKey (settings reloaded) = apiKey s /\
  (forall base64Image,
     buildRequest base64Image (settings reloaded)
       = buildRequest base64Image s) /\
  showSettings reloaded = negb (truthy (apiKey s)).
Proof.
  cbv zeta. split; [reflexivity|]. split; [reflexivity|].
  assert (Hkey : orString (Some (apiKey s)) "" = apiKey s).
  { simpl. destruct (truthy (apiKey s)) eqn:Hk; [reflexivity|].
    symmetry. apply truthy_false_iff. exact Hk. }
  assert (Hsettings :
            settings (mount (storage (saveSettings s st)))
              = mkSettings (apiKey s)
                  (Some (orString (orUndefined (baseUrl s)) ""))
                  (Some (orString (orUndefined (modelName s))
                                  DEFAULT_MODEL))).
  { unfold mount, saveSettings. simpl.
    destruct (truthy (apiKey s)) eqn:Hk; simpl; rewrite ?Hk; simpl;
      try reflexivity.
    apply truthy_false_iff in Hk. rewrite Hk. reflexivity. }
  split; [rewrite Hsettings; reflexivity|]. split.
  - intros base64Image. rewrite Hsettings. unfold buildRequest. simpl.
    f_equal.
    + apply orUndefined_stored.
    + apply (orString_stored (modelName s) "gemini-2.5-flash-image").
      reflexivity.
  - unfold mount, saveSettings. simpl.
    destruct (truthy (apiKey s)); reflexivity.
Qed.

Lemma buildItems_aborts (B : Browser) (readable : list File)
    (bad : File) (rest : list File) :
  (forall f, In f readable -> readAsDataURL B f <> None) ->
  readAsDataURL B bad = None ->
  forall calls,
    buildItems B (readable ++ bad :: rest) calls
      = (Throw ReadRejected, (calls + List.length readable)%nat).
Proof.
  intros Hread Hbad.
  induction readable as [|f readable IH]; intros calls; simpl.
  - unfold readFileAsDataURL. rewrite Hbad. f_equal. lia.
  - unfold readFileAsDataURL.
    destruct (readAsDataURL B f) as [u|] eqn:Hu;
      [|exfalso; exact (Hread f (or_introl eq_refl) Hu)].
    rewrite (IH (fun g Hg => Hread g (or_intror Hg)) (S calls)).
    f_equal. lia.
Qed.

(** An upload is all or nothing: when one of its files cannot be read, no
    item is added, not even for the files read before it, and no write is
    made to the list; the identifiers drawn for those files are spent. *)
Theorem unreadable_file_aborts_upload
    (B : Browser) (readable : list File) (bad : File) (rest : list File)
    (st : AppState) :
  (forall f, In f readable -> readAsDataURL B f <> None) ->
  readAsDataURL B bad = None ->
  let st' := handleFilesAdded B (readable ++ bad :: rest) st in
  items st' = items st /\
  history st' = history st /\
  uuidCalls st' = (uuidCalls st + List.length readable)%nat.
Proof.
  intros Hread Hbad. cbv zeta. unfold handleFilesAdded.
  rewrite (buildItems_aborts B readable bad rest Hread Hbad).
  repeat split.
Qed.

Lemma unreadable_file_aborts_upload_witness :
  items (handleFilesAdded Sample.browser
           [Sample.pngOdd; Sample.broken; Sample.pngEven]
           Sample.uploaded)
    = items Sample.uploaded.
Proof.
  apply (unreadable_file_aborts_upload Sample.browser [Sample.pngOdd]
           Sample.broken [Sample.pngEven] Sample.uploaded).
  - intros f [<-|[]]. vm_compute. discriminate.
  - vm_compute. reflexivity.
Defined.

Lemma map_absent (g : ProcessedImage -> ProcessedImage) (x : string)
    (l : list ProcessedImage) :
  (forall a, id a <> x -> g a = a) ->
  ~ In x (map id l) -> map g l = l.
Proof.
  intros Hg Hnot. induction l as [|a l IH]; simpl; [reflexivity|].
  rewrite Hg, IH; [reflexivity| |].
  - intros Hin. apply Hnot. right. exact Hin.
  - intros Heq. apply Hnot. left. exact Heq.
Qed.

Lemma removed_absent (x : string) (l : list ProcessedImage) :
  ~ In x (map id (filter (fun item => negb (String.eqb (id item) x)) l)).
Proof.
  intros Hin. apply in_map_iff in Hin. destruct Hin as [a [Ha Hin]].
  apply filter_In in Hin. destruct Hin as [_ Hne].
  apply keeps_other_id in Hne. exact (Hne Ha).
Qed.

(** Removing an item does not cancel the expansion calls in flight for it:
    they stay suspended, and when one settles its result is dropped, the
    list being left as it is. *)
Theorem removal_does_not_cancel (itemId : string) (st : AppState) :
  expansions (removeItem itemId st) = expansions st /\
  batches (removeItem itemId st) = batches st /\
  requests (removeItem itemId st) = requests st /\
  (forall k e response st',
     nth_error (expansions st) k = Some e ->
     e_itemId e = itemId ->
     expansionSettled k response (removeItem itemId st) = Some st' ->
     items st' = items (removeItem itemId st) /\
     expansions st' = removeNth k (expansions st)).
Proof.
  split; [reflexivity|]. split; [reflexivity|]. split; [reflexivity|].
  intros k e response st' He Hid Hsettled.
  unfold expansionSettled in Hsettled. simpl in Hsettled.
  rewrite He in Hsettled.
  pose proof (removed_absent itemId (items st)) as Habsent.
  rewrite <- Hid in Habsent.
  destruct (outcome _) as [expandedBase64|error];
    injection Hsettled as <-; simpl; (split; [|reflexivity]); rewrite Hid.
  - rewrite <- Hid. apply (map_absent _ (e_itemId e)); [|exact Habsent].
    intros a Ha. apply markDone_other. exact Ha.
  - rewrite <- Hid. apply (map_absent _ (e_itemId e)); [|exact Habsent].
    intros a Ha. apply markError_other. exact Ha.
Qed.

Lemma removal_does_not_cancel_witness :
  exists st',
    expansionSettled 0 (Ok Sample.twoImages)
      (removeItem (Sample.uuid 0) Sample.expandingBoth) = Some st' /\
    items st' = [] /\
    List.length (expansions st') = 1%nat.
Proof.
  destruct (expansionSettled 0 (Ok Sample.twoImages)
              (removeItem (Sample.uuid 0) Sample.expandingBoth))
    as [st'|] eqn:Hsettled; [|vm_compute in Hsettled; discriminate Hsettled].
  destruct (removal_does_not_cancel (Sample.uuid 0) Sample.expandingBoth)
    as [_ [_ [_ Hdrop]]].
  destruct (Hdrop 0 (mkExpansion (Sample.uuid 0) One
                       "data:image/png;base64,BCA" Sample.withKey)
              (Ok Sample.twoImages) st') as [Hitems Hexp].
  - vm_compute. reflexivity.
  - reflexivity.
  - exact Hsettled.
  - exists st'. split; [reflexivity|].
    split; [rewrite Hitems|rewrite Hexp]; vm_compute; reflexivity.
Defined.

(** Nor does removing an item take it out of a batch that has captured it:
    when its turn comes it is split, and if the split succeeds both halves
    are sent to the service although no item is left to receive the
    results. *)
Theorem removed_item_is_still_expanded
    (B : Browser) (k : nat) (st : AppState) (b : Batch)
    (part1 part2 : string) :
  nth_error (batches st) k = Some b ->
  ~ In (id (b_item b)) (map id (items st)) ->
  splitImage B (originalUrl (b_item b)) (b_direction b) = Ok (part1, part2) ->
  truthy (apiKey (b_settings b)) = true ->
  exists st',
    splitSettled B k st = Some st' /\
    requests st'
      = requests st ++ [buildRequest part1 (b_settings b);
                        buildRequest part2 (b_settings b)] /\
    expansions st'
      = expansions st
        ++ [mkExpansion (id (b_item b)) One part1 (b_settings b);
            mkExpansion (id (b_item b)) Two part2 (b_settings b)] /\
    (b_rest b = [] -> items st' = items st).
Proof.
  intros Hb Habsent Hsplit Hkey. unfold splitSettled.
  rewrite Hb, Hsplit. eexists. split; [reflexivity|].
  unfold processImagePart, requestsOf. rewrite Hkey.
  assert (Hitems :
            map (markExpanding (id (b_item b)) Two)
              (map (markExpanding (id (b_item b)) One)
                 (map (storeParts (id (b_item b)) part1 part2) (items st)))
            = items st).
  { rewrite (map_absent (storeParts _ part1 part2) _ _
               (storeParts_other _ part1 part2) Habsent).
    rewrite (map_absent (markExpanding _ One) _ _
               (markExpanding_other _ One) Habsent).
    apply (map_absent (markExpanding _ Two) _ _
             (markExpanding_other _ Two) Habsent). }
  destruct (b_rest b) as [|next rest]; simpl.
  - rewrite <- !app_assoc. simpl. repeat split. intros _. exact Hitems.
  - rewrite <- !app_assoc. simpl. repeat split. intros H. discriminate H.
Qed.

Lemma removed_item_is_still_expanded_witness :
  exists st',
    splitSettled Sample.browser 0 Sample.removedWhileSplitting = Some st' /\
    items st' = [] /\
    map rq_data (requests st') = ["BCA"; "BCB"].
Proof.
  assert (Hb : nth_error (batches Sample.removedWhileSplitting) 0
               = Some (mkBatch
                         (mkItem (Sample.uuid 0) "data:image/png;base64,ODD"
                                 Sample.pngOdd idlePart idlePart)
                         [] Sample.withKey Horizontal))
    by (vm_compute; reflexivity).
  destruct (removed_item_is_still_expanded Sample.browser 0
              Sample.removedWhileSplitting _
              "data:image/png;base64,BCA" "data:image/png;base64,BCB" Hb)
    as [st' [Hst [Hreq [_ Hitems]]]].
  - vm_compute. intros H. exact H.
  - vm_compute. reflexivity.
  - vm_compute. reflexivity.
  - exists st'. split; [exact Hst|]. split.
    + rewrite (Hitems eq_refl). vm_compute. reflexivity.
    + rewrite Hreq. vm_compute. reflexivity.
Defined.

Lemma Forall2_map_in {A : Type} (R : A -> A -> Prop) (g : A -> A)
    (l : list A) :
  (forall a, In a l -> R a (g a)) -> Forall2 R l (map g l).
Proof.
  induction l as [|a l IH]; simpl; intros H; constructor.
  - apply H. left. reflexivity.
  - apply IH. intros b Hb. apply H. right. exact Hb.
Qed.

(** A start with a key configured writes to exactly one item when there
    is an idle one: the first item of the list whose halves are both Idle
    gets both set to Splitting, its images untouched, and every other
    item, idle or not, is left as it is (those further down wait for their
    turn); when no item is idle nothing is written. A start without a key
    leaves the list as it is. *)
Theorem startProcessing_marks_first_idle_item (st : AppState) :
  NoDup (map id (items st)) ->
  (truthy (apiKey (settings st)) = true ->
   Forall2
     (fun a b =>
        (hd_error (filter bothIdle (items st)) = Some a /\
         b = mkItem (id a) (originalUrl a) (file a)
                    (withStatus Splitting (splitPart1 a))
                    (withStatus Splitting (splitPart2 a))) \/
        (hd_error (filter bothIdle (items st)) <> Some a /\ b = a))
     (items st) (items (startProcessing st))) /\
  (truthy (apiKey (settings st)) = false ->
   items (startProcessing st) = items st).
Proof.
  intros Hnd. unfold startProcessing. split; intros Hkey; rewrite Hkey;
    simpl; [|reflexivity].
  destruct (filter bothIdle (items st)) as [|c r] eqn:Hfilter; simpl.
  - apply Forall2_same. intros a. right. split; [discriminate|reflexivity].
  - assert (Hc : In c (items st) /\ bothIdle c = true).
    { apply filter_In. rewrite Hfilter. left. reflexivity. }
    destruct Hc as [Hc _].
    apply Forall2_map_in. intros a Ha.
    destruct (String.eqb_spec (id a) (id c)) as [Heq|Hne].
    + left. rewrite (same_id_same_item (items st) a c Hnd Ha Hc Heq).
      split; [reflexivity|]. unfold markSplitting.
      rewrite String.eqb_refl. reflexivity.
    + right. split.
      * intros Hsome. injection Hsome as Hsame. apply Hne.
        rewrite Hsame. reflexivity.
      * apply markSplitting_other. exact Hne.
Qed.

(** Of two idle uploads the start marks the first and leaves the second. *)
Lemma startProcessing_marks_first_idle_item_witness :
  map (fun a => (id a, statusOf One a, statusOf Two a))
      (items Sample.twoUploaded)
    = [(Sample.uuid 0, Idle, Idle); (Sample.uuid 1, Idle, Idle)] /\
  map (fun a => (id a, statusOf One a, statusOf Two a))
      (items (startProcessing Sample.twoUploaded))
    = [(Sample.uuid 0, Splitting, Splitting); (Sample.uuid 1, Idle, Idle)] /\
  Forall2
    (fun a b =>
       (hd_error (filter bothIdle (items Sample.twoUploaded)) = Some a /\
        b = mkItem (id a) (originalUrl a) (file a)
                   (withStatus Splitting (splitPart1 a))
                   (withStatus Splitting (splitPart2 a))) \/
       (hd_error (filter bothIdle (items Sample.twoUploaded)) <> Some a /\
        b = a))
    (items Sample.twoUploaded) (items (startProcessing Sample.twoUploaded)).
Proof.
  assert (Hnd : NoDup (map id (items Sample.twoUploaded))).
  { vm_compute. constructor; [intros [H|[]]; discriminate H|].
    constructor; [intros []|constructor]. }
  assert (Hkey : truthy (apiKey (settings Sample.twoUploaded)) = true)
    by (vm_compute; reflexivity).
  split; [vm_compute; reflexivity|]. split; [vm_compute; reflexivity|].
  exact (proj1 (startProcessing_marks_first_idle_item Sample.twoUploaded
                  Hnd) Hkey).
Defined.

(** The updaters keep what identifies an item. *)
Lemma updaters_keep_origin :
  (forall x p a, origin (markExpanding x p a) = origin a) /\
  (forall x p u a, origin (markDone x p u a) = origin a) /\
  (forall x p a, origin (markError x p a) = origin a) /\
  (forall x a, origin (markSplitting x a) = origin a) /\
  (forall x u1 u2 a, origin (storeParts x u1 u2 a) = origin a).
Proof.
  unfold origin, markExpanding, markDone, markError, markSplitting,
    storeParts.
  repeat split; intros;
    destruct (String.eqb (id a) x); simpl; try reflexivity;
    destruct p; reflexivity.
Qed.

Lemma origin_map (g : ProcessedImage -> ProcessedImage)
    (l : list ProcessedImage) :
  (forall a, origin (g a) = origin a) ->
  map origin (map g l) = map origin l.
Proof. intros Hg. rewrite map_map. apply map_ext. exact Hg. Qed.

Lemma processNext_origin todo s d st :
  map origin (items (processNext todo s d st)) = map origin (items st).
Proof.
  destruct todo as [|c r]; simpl; [reflexivity|].
  apply origin_map. apply updaters_keep_origin.
Qed.

(** Items come into the list by an upload that has been read, at its
    front, and leave it by an explicit removal or by clearing; every other
    event keeps the items, their order, their identifiers, source images
    and files. *)
Theorem membership_changes_by_upload_and_removal_only
    (B : Browser) (ev : Event) (st st' : AppState) :
  exec B ev st = Some st' ->
  match ev with
  | FilesRead _ => exists newItems, items st' = newItems ++ items st
  | ClickRemove itemId =>
      items st'
        = filter (fun item => negb (String.eqb (id item) itemId)) (items st)
  | ClickClearAll confirmed =>
      items st' = if confirmed then [] else items st
  | _ => map origin (items st') = map origin (items st)
  end.
Proof.
  intros Hexec.
  destruct ev; simpl in Hexec; unfold whenEnabled in Hexec.
  - destruct (Dropzone.handleFileSelect _ _); injection Hexec as <-;
      reflexivity.
  - destruct (Dropzone.handleDrop _ _); injection Hexec as <-; reflexivity.
  - unfold filesRead in Hexec.
    destruct (nth_error (uploads st) k) as [files|]; [|discriminate Hexec].
    injection Hexec as <-.
    destruct (handleFilesAdded_items B files
                (setUploads (removeNth k (uploads st)) st))
      as [newItems [Hitems _]].
    exists newItems. exact Hitems.
  - destruct (negb (startDisabled st)); [|discriminate Hexec].
    injection Hexec as <-. unfold startProcessing.
    destruct (negb (truthy (apiKey (settings st)))); [reflexivity|].
    rewrite processNext_origin. reflexivity.
  - destruct (retryShown itemId part st); [|discriminate Hexec].
    injection Hexec as <-. unfold retryPart.
    destruct (negb (truthy (apiKey (settings st)))); [reflexivity|].
    destruct (find _ (items st)) as [item|]; [|reflexivity].
    destruct (url (getPart part item)) as [u|]; [|reflexivity].
    destruct (truthy u); [|reflexivity].
    simpl. apply origin_map. apply updaters_keep_origin.
  - destruct (cardShown itemId st); [|discriminate Hexec].
    injection Hexec as <-. reflexivity.
  - destruct (0 <? List.length (items st))%nat; [|discriminate Hexec].
    injection Hexec as <-. destruct confirmed; reflexivity.
  - injection Hexec as <-. reflexivity.
  - destruct (showSettings st); [|discriminate Hexec].
    injection Hexec as <-. reflexivity.
  - destruct (showSettings st); [|discriminate Hexec].
    injection Hexec as <-. reflexivity.
  - injection Hexec as <-. reflexivity.
  - unfold splitSettled in Hexec.
    destruct (nth_error (batches st) k) as [b|]; [|discriminate Hexec].
    injection Hexec as <-. rewrite processNext_origin.
    destruct (splitImage B (originalUrl (b_item b)) (b_direction b))
      as [[part1 part2]|e]; [|reflexivity].
    simpl. rewrite !origin_map; try reflexivity;
      apply updaters_keep_origin.
  - unfold expansionSettled in Hexec.
    destruct (nth_error (expansions st) k) as [e|]; [|discriminate Hexec].
    destruct (outcome _) as [expandedBase64|error];
      injection Hexec as <-; simpl; apply origin_map;
      apply updaters_keep_origin.
Qed.

Lemma membership_changes_by_upload_and_removal_only_witness :
  map origin (items Sample.retried) = map origin (items Sample.settledBoth).
Proof.
  apply (membership_changes_by_upload_and_removal_only Sample.browser
           (ClickRetry (Sample.uuid 0) One)
           Sample.settledBoth Sample.retried).
  vm_compute. reflexivity.
Defined.

End MoreOperations.

(* ===================================================================== *)
(** ** More invariants of the event loop                                  *)
(* ===================================================================== *)

Section MoreInvariants.
Import ImageUtils GeminiService App.

(** The identifiers in the list are pairwise distinct, and each was drawn
    from the generator. *)
Theorem identifiers_are_distinct (B : Browser) (st : AppState) :
  uniqueIds B -> reachable B st ->
  NoDup (map id (items st)) /\
  (forall a, In a (items st) -> issued B (uuidCalls st) (id a)).
Proof.
  intros Huniq Hreach.
  destruct (reachable_inv B st Huniq Hreach) as [[Hnd [Hiss _]] _].
  split; assumption.
Qed.

(** Two items are listed, with the two identifiers drawn for them. *)
Lemma identifiers_are_distinct_witness :
  map id (items Sample.twoRetried) = [Sample.uuid 0; Sample.uuid 1] /\
  NoDup (map id (items Sample.twoRetried)) /\
  (forall a, In a (items Sample.twoRetried) ->
     issued Sample.browser (uuidCalls Sample.twoRetried) (id a)).
Proof.
  assert (Hreach : reachable Sample.browser Sample.twoRetried).
  { exists Sample.keyStored, Sample.twoSession. vm_compute. reflexivity. }
  split; [vm_compute; reflexivity|].
  exact (identifiers_are_distinct Sample.browser Sample.twoRetried
           sample_uniqueIds Hreach).
Defined.

(** A half is shown as Expanding exactly while one expansion call is in
    flight for it: an Expanding half has one suspended call, never two,
    and any other half has none. *)
Theorem expanding_means_one_call_in_flight (B : Browser) (st : AppState) :
  uniqueIds B -> reachable B st ->
  forall a p,
    In a (items st) ->
    inFlight (id a) p (expansions st)
      = if status_eqb (statusOf p a) Expanding then 1%nat else 0%nat.
Proof.
  intros Huniq Hreach.
  destruct (reachable_inv B st Huniq Hreach) as [[_ [_ [_ [Hfly _]]]] _].
  intros a p Ha. apply Hfly. exact Ha.
Qed.

Lemma expanding_means_one_call_in_flight_witness :
  inFlight (Sample.uuid 0) Two (expansions Sample.failedFirst) = 1%nat /\
  inFlight (Sample.uuid 0) One (expansions Sample.failedFirst) = 0%nat.
Proof.
  assert (Hreach : reachable Sample.browser Sample.failedFirst)
    by (apply (sample_reachable 5); repeat constructor).
  assert (Hin : In Sample.failedItem (items Sample.failedFirst))
    by (vm_compute; left; reflexivity).
  split.
  - exact (expanding_means_one_call_in_flight Sample.browser
             Sample.failedFirst sample_uniqueIds Hreach
             Sample.failedItem Two Hin).
  - exact (expanding_means_one_call_in_flight Sample.browser
             Sample.failedFirst sample_uniqueIds Hreach
             Sample.failedItem One Hin).
Defined.

(** *** The busy flag *)

Lemma processNext_busy todo s d st :
  isProcessing (processNext todo s d st) = true ->
  batches (processNext todo s d st) <> [].
Proof.
  destruct todo as [|c r]; simpl; [discriminate|].
  intros _ H. apply app_eq_nil in H. destruct H as [_ H]. discriminate H.
Qed.

Lemma exec_busy (B : Browser) ev st st' :
  (isProcessing st = true -> batches st <> []) ->
  exec B ev st = Some st' ->
  isProcessing st' = true -> batches st' <> [].
Proof.
  intros Hbusy Hexec.
  destruct ev; simpl in Hexec; unfold whenEnabled in Hexec.
  - destruct (Dropzone.handleFileSelect _ _); injection Hexec as <-;
      exact Hbusy.
  - destruct (Dropzone.handleDrop _ _); injection Hexec as <-; exact Hbusy.
  - unfold filesRead in Hexec.
    destruct (nth_error (uploads st) k) as [files|]; [|discriminate Hexec].
    injection Hexec as <-. unfold handleFilesAdded.
    destruct (buildItems B files _) as [[l|e] c]; exact Hbusy.
  - destruct (negb (startDisabled st)); [|discriminate Hexec].
    injection Hexec as <-. unfold startProcessing.
    destruct (negb (truthy (apiKey (settings st)))); [exact Hbusy|].
    apply processNext_busy.
  - destruct (retryShown itemId part st); [|discriminate Hexec].
    injection Hexec as <-. unfold retryPart.
    destruct (negb (truthy (apiKey (settings st)))); [exact Hbusy|].
    destruct (find _ (items st)) as [item|]; [|exact Hbusy].
    destruct (url (getPart part item)) as [u|]; [|exact Hbusy].
    destruct (truthy u); exact Hbusy.
  - destruct (cardShown itemId st); [|discriminate Hexec].
    injection Hexec as <-. exact Hbusy.
  - destruct (0 <? List.length (items st))%nat; [|discriminate Hexec].
    injection Hexec as <-. destruct confirmed; exact Hbusy.
  - injection Hexec as <-. exact Hbusy.
  - destruct (showSettings st); [|discriminate Hexec].
    injection Hexec as <-. exact Hbusy.
  - destruct (showSettings st); [|discriminate Hexec].
    injection Hexec as <-. exact Hbusy.
  - injection Hexec as <-. exact Hbusy.
  - unfold splitSettled in Hexec.
    destruct (nth_error (batches st) k) as [b|]; [|discriminate Hexec].
    injection Hexec as <-. apply processNext_busy.
  - unfold expansionSettled in Hexec.
    destruct (nth_error (expansions st) k) as [e|]; [|discriminate Hexec].
    destruct (outcome _) as [expandedBase64|error];
      injection Hexec as <-; exact Hbusy.
Qed.

Lemma run_busy (B : Browser) evs :
  forall st st',
    (isProcessing st = true -> batches st <> []) ->
    run B evs st = Some st' ->
    isProcessing st' = true -> batches st' <> [].
Proof.
  induction evs as [|ev evs IH]; simpl; intros st st' Hbusy Hrun.
  - injection Hrun as <-. exact Hbusy.
  - destruct (exec B ev st) as [st1|] eqn:Hexec; [|discriminate Hrun].
    exact (IH st1 st' (exec_busy B ev st st1 Hbusy Hexec) Hrun).
Qed.

(** The page is busy exactly while a batch awaits a split, and there is
    never more than one such batch: items are split one at a time. While
    an item is being split, both its halves show Splitting. *)
Theorem busy_while_one_batch_runs (B : Browser) (st : AppState) :
  uniqueIds B -> reachable B st ->
  (List.length (batches st) <= 1)%nat /\
  (isProcessing st = true <-> batches st <> []) /\
  (forall b a,
     In b (batches st) -> In a (items st) -> id a = id (b_item b) ->
     statusOf One a = Splitting /\ statusOf Two a = Splitting).
Proof.
  intros Huniq Hreach.
  pose proof (reachable_inv B st Huniq Hreach) as [_ Hbatch].
  assert (Hbusy : isProcessing st = true -> batches st <> []).
  { destruct Hreach as [ls [evs Hrun]].
    apply (run_busy B evs (mount ls) st); [|exact Hrun].
    unfold mount. destruct (negb (truthyOpt (gemini_api_key ls)));
      simpl; discriminate. }
  destruct (batches st) as [|b0 [|b1 l]]; [| |contradiction].
  - split; [simpl; lia|]. split; [|intros b a []].
    split; [exact Hbusy|]. intros H. exfalso. apply H. reflexivity.
  - destruct Hbatch as [Hp [_ [_ [T3 _]]]].
    split; [simpl; lia|]. split.
    + split; [intros _; discriminate|intros _; exact Hp].
    + intros b a [<-|[]] Ha Hid. exact (T3 a Ha Hid).
Qed.

Lemma busy_while_one_batch_runs_witness :
  isProcessing Sample.splittingState = true <->
  batches Sample.splittingState <> [].
Proof.
  apply (busy_while_one_batch_runs Sample.browser Sample.splittingState).
  - exact sample_uniqueIds.
  - apply (sample_reachable 3). repeat constructor.
Defined.

(** *** Keys and requests *)

Lemma processImagePart_keyed x p c s st :
  Keyed st -> truthy (apiKey s) = true ->
  Keyed (processImagePart x p c s st).
Proof.
  intros [Hb [He [Hr Hin]]] Hkey. unfold processImagePart, Keyed. simpl.
  unfold requestsOf. rewrite Hkey.
  split; [exact Hb|]. split; [|split].
  - apply Forall_app. split; [exact He|]. constructor; [exact Hkey|constructor].
  - apply Forall_app. split; [exact Hr|]. constructor; [|constructor].
    simpl. apply truthy_true_iff. exact Hkey.
  - apply Forall_app. split.
    + apply Forall_forall. intros e Hein. rewrite Forall_forall in Hin.
      apply in_or_app. left. exact (Hin e Hein).
    + constructor; [|constructor]. simpl. apply in_or_app. right.
      left. reflexivity.
Qed.

Lemma processNext_keyed todo s d st :
  Keyed st -> truthy (apiKey s) = true -> Keyed (processNext todo s d st).
Proof.
  intros Hk Hkey. destruct todo as [|c r]; simpl; [exact Hk|].
  destruct Hk as [Hb [He [Hr Hin]]]. unfold Keyed. simpl.
  split; [|split; [exact He|split; [exact Hr|exact Hin]]].
  apply Forall_app. split; [exact Hb|]. constructor; [exact Hkey|constructor].
Qed.

Lemma exec_keyed (B : Browser) ev st st' :
  Keyed st -> exec B ev st = Some st' -> Keyed st'.
Proof.
  intros Hk Hexec. pose proof Hk as [Hb [He [Hr Hin]]].
  destruct ev; simpl in Hexec; unfold whenEnabled in Hexec.
  - destruct (Dropzone.handleFileSelect _ _); injection Hexec as <-;
      exact Hk.
  - destruct (Dropzone.handleDrop _ _); injection Hexec as <-; exact Hk.
  - unfold filesRead in Hexec.
    destruct (nth_error (uploads st) k) as [files|]; [|discriminate Hexec].
    injection Hexec as <-. unfold handleFilesAdded.
    destruct (buildItems B files _) as [[l|e] c]; exact Hk.
  - destruct (negb (startDisabled st)); [|discriminate Hexec].
    injection Hexec as <-. unfold startProcessing.
    destruct (truthy (apiKey (settings st))) eqn:Hkey; simpl; [|exact Hk].
    apply processNext_keyed; [exact Hk|exact Hkey].
  - destruct (retryShown itemId part st); [|discriminate Hexec].
    injection Hexec as <-. unfold retryPart.
    destruct (truthy (apiKey (settings st))) eqn:Hkey; simpl; [|exact Hk].
    destruct (find _ (items st)) as [item|]; [|exact Hk].
    destruct (url (getPart part item)) as [u|]; [|exact Hk].
    destruct (truthy u); [|exact Hk].
    apply processImagePart_keyed; [exact Hk|exact Hkey].
  - destruct (cardShown itemId st); [|discriminate Hexec].
    injection Hexec as <-. exact Hk.
  - destruct (0 <? List.length (items st))%nat; [|discriminate Hexec].
    injection Hexec as <-. destruct confirmed; exact Hk.
  - injection Hexec as <-. exact Hk.
  - destruct (showSettings st); [|discriminate Hexec].
    injection Hexec as <-. exact Hk.
  - destruct (showSettings st); [|discriminate Hexec].
    injection Hexec as <-. exact Hk.
  - injection Hexec as <-. exact Hk.
  - unfold splitSettled in Hexec.
    destruct (nth_error (batches st) k) as [b|] eqn:Hnth;
      [|discriminate Hexec].
    injection Hexec as <-.
    assert (Hkey : truthy (apiKey (b_settings b)) = true).
    { rewrite Forall_forall in Hb. apply Hb. exact (nth_error_In _ _ Hnth). }
    assert (Hk1 : Keyed (setBatches (removeNth k (batches st)) st)).
    { split; [|split; [exact He|split; [exact Hr|exact Hin]]].
      simpl. apply removeNth_Forall. exact Hb. }
    apply processNext_keyed; [|exact Hkey].
    destruct (splitImage B (originalUrl (b_item b)) (b_direction b))
      as [[part1 part2]|e]; [|exact Hk1].
    apply processImagePart_keyed; [|exact Hkey].
    apply processImagePart_keyed; [|exact Hkey]. exact Hk1.
  - unfold expansionSettled in Hexec.
    destruct (nth_error (expansions st) k) as [e|]; [|discriminate Hexec].
    destruct (outcome _) as [expandedBase64|error];
      injection Hexec as <-; unfold Keyed; simpl;
      (split; [exact Hb|]);
      (split; [apply removeNth_Forall; exact He|]);
      (split; [exact Hr|]); apply removeNth_Forall; exact Hin.
Qed.

(** The application never calls the service without a key: every request
    it has sent carries a non-empty key, every batch and every expansion
    call still suspended captured settings with a key, and the request of
    every suspended call was sent. So the missing-key error of the client
    cannot come up in the tracker. *)
Theorem no_request_without_key (B : Browser) (st : AppState) :
  reachable B st ->
  Keyed st /\
  (forall e net,
     In e (expansions st) ->
     sent (expandImageWithGemini net (e_cropped e) (e_settings e))
       = [buildRequest (e_cropped e) (e_settings e)]).
Proof.
  intros [ls [evs Hrun]].
  assert (Hk : Keyed st).
  { assert (H0 : Keyed (mount ls)).
    { unfold mount. destruct (negb (truthyOpt (gemini_api_key ls)));
        repeat split; constructor. }
    revert Hrun H0. generalize (mount ls).
    induction evs as [|ev evs IH]; simpl; intros st0 Hrun H0.
    - injection Hrun as <-. exact H0.
    - destruct (exec B ev st0) as [st1|] eqn:Hexec; [|discriminate Hrun].
      exact (IH st1 Hrun (exec_keyed B ev st0 st1 H0 Hexec)). }
  split; [exact Hk|].
  intros e net He. destruct Hk as [_ [Hkeys _]].
  rewrite Forall_forall in Hkeys. rewrite expand_sent. unfold requestsOf.
  rewrite (Hkeys e He). reflexivity.
Qed.

Lemma no_request_without_key_witness :
  Forall (fun rq => rq_apiKey rq <> "") (requests Sample.retried).
Proof.
  destruct (no_request_without_key Sample.browser Sample.retried)
    as [[_ [_ [Hr _]]] _].
  - exact (sample_reachable 7 (le_n 7)).
  - exact Hr.
Defined.

(** *** What a half has stored *)

Lemma getPart_markExpanding x p0 a p :
  id a = x ->
  getPart p (markExpanding x p0 a)
    = if part_eqb p p0 then withStatus Expanding (getPart p a)
      else getPart p a.
Proof.
  intros Hid. unfold markExpanding. rewrite Hid, String.eqb_refl.
  destruct p, p0; reflexivity.
Qed.

Lemma getPart_markDone x p0 u a p :
  id a = x ->
  getPart p (markDone x p0 u a)
    = if part_eqb p p0 then mkPart (url (getPart p a)) (Some u) Done
      else getPart p a.
Proof.
  intros Hid. unfold markDone. rewrite Hid, String.eqb_refl.
  destruct p, p0; reflexivity.
Qed.

Lemma getPart_markError x p0 a p :
  id a = x ->
  getPart p (markError x p0 a)
    = if part_eqb p p0 then withStatus Error (getPart p a) else getPart p a.
Proof.
  intros Hid. unfold markError. rewrite Hid, String.eqb_refl.
  destruct p, p0; reflexivity.
Qed.

Lemma getPart_markSplitting x a p :
  id a = x ->
  getPart p (markSplitting x a) = withStatus Splitting (getPart p a).
Proof.
  intros Hid. unfold markSplitting. rewrite Hid, String.eqb_refl.
  destruct p; reflexivity.
Qed.

Lemma getPart_storeParts x u1 u2 a p :
  id a = x ->
  getPart p (storeParts x u1 u2 a)
    = mkPart (Some (match p with One => u1 | Two => u2 end))
             (expandedUrl (getPart p a)) Idle.
Proof.
  intros Hid. unfold storeParts. rewrite Hid, String.eqb_refl.
  destruct p; reflexivity.
Qed.

Lemma firstInlineData_truthy (ps : list Part) (payload : string) :
  firstInlineData ps = Some payload -> truthy payload = true.
Proof.
  induction ps as [|part rest IH]; simpl; [discriminate|].
  destruct (inlineData part) as [d|]; [|exact IH].
  destruct (data d) as [v|]; [|exact IH].
  destruct (truthy v) eqn:Hv; [|exact IH].
  intros H. injection H as <-. exact Hv.
Qed.

(** What the client returns is a PNG data URL with a non-empty payload. *)
Lemma expand_returns_data_url net base64Image s v :
  outcome (expandImageWithGemini net base64Image s) = Ok v ->
  exists payload,
    truthy payload = true /\ v = ("data:image/png;base64," ++ payload)%string.
Proof.
  unfold expandImageWithGemini.
  destruct (negb (truthy (apiKey s))); [discriminate|].
  destruct (net (buildRequest base64Image s)) as [r|e]; [|discriminate].
  destruct (responseParts r) as [ps|]; [|discriminate].
  destruct (firstInlineData ps) as [payload|] eqn:Hp; [|discriminate].
  simpl. intros H. injection H as <-. exists payload.
  split; [exact (firstInlineData_truthy ps payload Hp)|reflexivity].
Qed.

Lemma stored_map (g : ProcessedImage -> ProcessedImage) its :
  (forall a p, In a its -> storedPart (getPart p (g a))) ->
  forall b p, In b (map g its) -> storedPart (getPart p b).
Proof.
  intros Hg b p Hb. apply in_map_iff in Hb. destruct Hb as [a [<- Ha]].
  apply Hg. exact Ha.
Qed.

Lemma processNext_stored todo s d st :
  Stored st ->
  (forall a, In a (items st) -> In (id a) (map id todo) ->
     statusOf One a = Idle /\ statusOf Two a = Idle) ->
  Stored (processNext todo s d st).
Proof.
  intros Hst Hidle. destruct todo as [|c r]; simpl; [exact Hst|].
  unfold Stored. simpl. apply stored_map. intros a p Ha.
  destruct (String.eqb_spec (id a) (id c)) as [Heq|Hne].
  - rewrite (getPart_markSplitting (id c) a p Heq).
    pose proof (Hst a p Ha) as Hsp.
    assert (Hs : statusOf p a = Idle).
    { destruct (Hidle a Ha) as [H1 H2]; [rewrite Heq; left; reflexivity|].
      destruct p; assumption. }
    unfold statusOf in Hs. unfold storedPart in *. rewrite Hs in Hsp.
    simpl. exact Hsp.
  - rewrite (markSplitting_other (id c) a Hne). exact (Hst a p Ha).
Qed.

Lemma exec_stored (B : Browser) ev st st' :
  uniqueIds B -> Inv B st -> Stored st ->
  exec B ev st = Some st' -> Stored st'.
Proof.
  intros Huniq Hinv Hst Hexec. pose proof Hinv as [Hcore Hbatch].
  pose proof Hcore as [Hnd _].
  destruct ev; simpl in Hexec; unfold whenEnabled in Hexec.
  - destruct (Dropzone.handleFileSelect _ _); injection Hexec as <-;
      exact Hst.
  - destruct (Dropzone.handleDrop _ _); injection Hexec as <-; exact Hst.
  - unfold filesRead in Hexec.
    destruct (nth_error (uploads st) k) as [files|]; [|discriminate Hexec].
    injection Hexec as <-.
    destruct (handleFilesAdded_items B files
                (setUploads (removeNth k (uploads st)) st))
      as [newItems [Hitems [Hall _]]].
    intros a p Ha. rewrite Hitems in Ha. apply in_app_or in Ha.
    destruct Ha as [Ha|Ha]; [|exact (Hst a p Ha)].
    rewrite Forall_forall in Hall. destruct (Hall a Ha) as [_ [H1 H2]].
    destruct p; simpl; [rewrite H1|rewrite H2]; split; reflexivity.
  - destruct (negb (startDisabled st)); [|discriminate Hexec].
    injection Hexec as <-. unfold startProcessing.
    destruct (negb (truthy (apiKey (settings st)))); [exact Hst|].
    apply processNext_stored; [exact Hst|].
    intros a Ha Hin. simpl in Ha. apply in_map_iff in Hin.
    destruct Hin as [c [Hca Hc]]. apply filter_In in Hc.
    destruct Hc as [Hc Hidle].
    rewrite (same_id_same_item (items st) c a Hnd Hc Ha Hca) in Hidle.
    unfold bothIdle in Hidle. apply andb_prop in Hidle.
    destruct Hidle as [H1 H2]. split; apply status_eqb_eq; assumption.
  - destruct (retryShown itemId part st) eqn:Hshown; [|discriminate Hexec].
    injection Hexec as <-.
    unfold retryShown in Hshown. apply existsb_exists in Hshown.
    destruct Hshown as [a0 [Ha0 Hcond]]. apply andb_prop in Hcond.
    destruct Hcond as [Hx Herr]. apply String.eqb_eq in Hx.
    apply status_eqb_eq in Herr.
    unfold retryPart.
    destruct (negb (truthy (apiKey (settings st)))); [exact Hst|].
    destruct (find _ (items st)) as [item|]; [|exact Hst].
    destruct (url (getPart part item)) as [u|]; [|exact Hst].
    destruct (truthy u); [|exact Hst].
    unfold Stored, processImagePart. simpl. apply stored_map.
    intros a p Ha. destruct (String.eqb_spec (id a) itemId) as [Heq|Hne];
      [|rewrite (markExpanding_other itemId part a Hne); exact (Hst a p Ha)].
    rewrite (getPart_markExpanding itemId part a p Heq).
    destruct (part_eqb_spec p part) as [->|_]; [|exact (Hst a p Ha)].
    assert (Haa : a = a0)
      by (apply (same_id_same_item (items st) a a0 Hnd Ha Ha0); congruence).
    pose proof (Hst a part Ha) as Hsp. rewrite Haa in *.
    unfold storedPart in *. rewrite Herr in Hsp. simpl. exact Hsp.
  - destruct (cardShown itemId st); [|discriminate Hexec].
    injection Hexec as <-. intros a p Ha. simpl in Ha.
    apply filter_In in Ha. apply Hst. apply Ha.
  - destruct (0 <? List.length (items st))%nat; [|discriminate Hexec].
    injection Hexec as <-. destruct confirmed; [|exact Hst].
    intros a p [].
  - injection Hexec as <-. exact Hst.
  - destruct (showSettings st); [|discriminate Hexec].
    injection Hexec as <-. exact Hst.
  - destruct (showSettings st); [|discriminate Hexec].
    injection Hexec as <-. exact Hst.
  - injection Hexec as <-. exact Hst.
  - unfold splitSettled in Hexec.
    destruct (nth_error (batches st) k) as [b|] eqn:Hk;
      [|discriminate Hexec].
    destruct (inv_single B st k b Hinv Hk) as [Hb [-> [Hp Ht]]].
    injection Hexec as <-.
    pose proof Ht as [T1 [_ [T3 T4]]].
    destruct (splitImage B (originalUrl (b_item b)) (b_direction b))
      as [[part1 part2]|e].
    + destruct (split_success_core B (id (b_item b)) part1 part2
                  (b_settings b) _ _ _ _ _ _ Hcore Ht eq_refl)
        as [_ [_ Hidle]].
      apply processNext_stored; [|exact Hidle].
      unfold Stored, processImagePart. simpl.
      intros a3 p Ha3.
      apply in_map_iff in Ha3. destruct Ha3 as [a2 [<- Ha2]].
      apply in_map_iff in Ha2. destruct Ha2 as [a1 [<- Ha1]].
      apply in_map_iff in Ha1. destruct Ha1 as [a [<- Ha]].
      destruct (String.eqb_spec (id a) (id (b_item b))) as [Heq|Hne].
      * assert (H1 : id (storeParts (id (b_item b)) part1 part2 a)
                     = id (b_item b))
          by (rewrite storeParts_id; exact Heq).
        assert (H2 : id (markExpanding (id (b_item b)) One
                           (storeParts (id (b_item b)) part1 part2 a))
                     = id (b_item b))
          by (rewrite markExpanding_id; exact H1).
        rewrite (getPart_markExpanding _ Two _ p H2).
        rewrite (getPart_markExpanding _ One _ p H1).
        rewrite (getPart_storeParts _ part1 part2 a p Heq).
        pose proof (Hst a p Ha) as Hsp.
        assert (Hs : statusOf p a = Splitting)
          by (destruct (T3 a Ha Heq); destruct p; assumption).
        unfold statusOf in Hs. unfold storedPart in Hsp.
        rewrite Hs in Hsp. destruct Hsp as [_ Hexp]. rewrite Hexp.
        destruct p; simpl; (split; [eexists; reflexivity|reflexivity]).
      * rewrite (storeParts_other _ part1 part2 a Hne).
        rewrite !(markExpanding_other _ _ a Hne). exact (Hst a p Ha).
    + apply processNext_stored; [exact Hst|exact T4].
  - unfold expansionSettled in Hexec.
    destruct (nth_error (expansions st) k) as [e|] eqn:Hk;
      [|discriminate Hexec].
    destruct (core_settle B (markError (e_itemId e) (e_partNumber e))
                Error k e _ _ _ _ Hcore Hk (or_intror eq_refl)
                (markError_id _ _) (markError_other _ _)
                (fun a q => markError_status _ _ a q))
      as [_ Hexp].
    destruct (outcome _) as [expandedBase64|error] eqn:Hout;
      injection Hexec as <-; unfold Stored; simpl; apply stored_map;
      intros a p Ha;
      destruct (String.eqb_spec (id a) (e_itemId e)) as [Heq|Hne].
    + rewrite (getPart_markDone _ _ _ a p Heq).
      destruct (part_eqb_spec p (e_partNumber e)) as [->|_];
        [|exact (Hst a p Ha)].
      pose proof (Hst a (e_partNumber e) Ha) as Hsp.
      pose proof (Hexp a Ha Heq) as Hs. unfold statusOf in Hs.
      unfold storedPart in Hsp. rewrite Hs in Hsp.
      destruct Hsp as [Hurl _]. unfold storedPart. simpl.
      split; [exact Hurl|].
      destruct (expand_returns_data_url _ _ _ _ Hout) as [payload [Ht ->]].
      exists payload. split; [exact Ht|reflexivity].
    + rewrite (markDone_other _ _ _ a Hne). exact (Hst a p Ha).
    + rewrite (getPart_markError _ _ a p Heq).
      destruct (part_eqb_spec p (e_partNumber e)) as [->|_];
        [|exact (Hst a p Ha)].
      pose proof (Hst a (e_partNumber e) Ha) as Hsp.
      pose proof (Hexp a Ha Heq) as Hs. unfold statusOf in Hs.
      unfold storedPart in Hsp. rewrite Hs in Hsp.
      unfold storedPart. simpl. exact Hsp.
    + rewrite (markError_other _ _ a Hne). exact (Hst a p Ha).
Qed.

Lemma reachable_stored (B : Browser) st :
  uniqueIds B -> reachable B st -> Stored st.
Proof.
  intros Huniq [ls [evs Hrun]].
  assert (H0 : Stored (mount ls)).
  { unfold mount. destruct (negb (truthyOpt (gemini_api_key ls)));
      intros a p []. }
  pose proof (mount_inv B ls) as Hinv0.
  revert Hrun H0 Hinv0. generalize (mount ls).
  induction evs as [|ev evs IH]; simpl; intros st0 Hrun H0 Hinv0.
  - injection Hrun as <-. exact H0.
  - destruct (exec B ev st0) as [st1|] eqn:Hexec; [|discriminate Hrun].
    apply (IH st1 Hrun).
    + exact (exec_stored B ev st0 st1 Huniq Hinv0 H0 Hexec).
    + exact (proj1 (exec_inv B ev st0 st1 Huniq Hinv0 Hexec)).
Qed.

(** Between events, the status of a half tells what it has stored: an Idle
    or Splitting half has neither image; an Expanding or Error half has
    its crop and no expanded image; a Done half has its crop and an
    expanded image, which is a PNG data URL with a non-empty payload. *)
Theorem status_tells_what_is_stored (B : Browser) (st : AppState) :
  uniqueIds B -> reachable B st ->
  forall a p, In a (items st) -> storedPart (getPart p a).
Proof.
  intros Huniq Hreach. exact (reachable_stored B st Huniq Hreach).
Qed.

Lemma status_tells_what_is_stored_witness :
  storedPart (splitPart1 Sample.settledItem) /\
  storedPart (splitPart2 Sample.settledItem).
Proof.
  assert (Hreach : reachable Sample.browser Sample.settledBoth)
    by (apply (sample_reachable 6); repeat constructor).
  assert (Hin : In Sample.settledItem (items Sample.settledBoth))
    by (vm_compute; left; reflexivity).
  split.
  - exact (status_tells_what_is_stored Sample.browser Sample.settledBoth
             sample_uniqueIds Hreach Sample.settledItem One Hin).
  - exact (status_tells_what_is_stored Sample.browser Sample.settledBoth
             sample_uniqueIds Hreach Sample.settledItem Two Hin).
Defined.

(** What the card of an item shows for a half, by its status: a Done half
    shows its expanded image with the badge and a download link to that
    image; a half in any other status offers no download; the spinner is
    on exactly for Expanding and the retry button exactly for Error; an
    Idle or Splitting half shows the waiting text. *)
Theorem card_follows_status (B : Browser) (st : AppState) :
  uniqueIds B -> reachable B st ->
  forall a p,
    In a (items st) ->
    let view := ResultCard.halfView p (ResultCard.ResultCard a) in
    ResultCard.doneBadge view = status_eqb (statusOf p a) Done /\
    ResultCard.loadingOverlay view = status_eqb (statusOf p a) Expanding /\
    ResultCard.retryButton view = status_eqb (statusOf p a) Error /\
    match statusOf p a with
    | Done =>
        exists u,
          ResultCard.content view = ResultCard.ExpandedImage u /\
          ResultCard.downloadHref view = Some u /\
          Dropzone.startsWith "data:image/png;base64," u = true
    | Idle | Splitting =>
        ResultCard.content view = ResultCard.Waiting /\
        ResultCard.downloadHref view = None
    | Expanding | Error =>
        (forall u, ResultCard.content view <> ResultCard.ExpandedImage u) /\
        ResultCard.downloadHref view = None
    end.
Proof.
  intros Huniq Hreach a p Ha.
  pose proof (reachable_stored B st Huniq Hreach a p Ha) as Hsp.
  assert (Hview : ResultCard.halfView p (ResultCard.ResultCard a)
                  = ResultCard.ImagePart (url (getPart p a))
                      (expandedUrl (getPart p a)) (status (getPart p a)))
    by (destruct p; reflexivity).
  cbv zeta. rewrite Hview. unfold statusOf.
  split; [reflexivity|]. split; [reflexivity|]. split; [reflexivity|].
  unfold storedPart in Hsp.
  destruct (status (getPart p a)).
  - destruct Hsp as [Hu He]. rewrite Hu, He. split; reflexivity.
  - destruct Hsp as [Hu He]. rewrite Hu, He. split; reflexivity.
  - destruct Hsp as [[u Hu] He]. rewrite Hu, He. simpl.
    split; [|reflexivity]. intros v. destruct (truthy u); discriminate.
  - destruct Hsp as [[u Hu] [payload [Ht He]]]. rewrite Hu, He.
    exists ("data:image/png;base64," ++ payload)%string.
    split; [reflexivity|]. split; [reflexivity|].
    apply startsWith_prefix. exists payload. reflexivity.
  - destruct Hsp as [[u Hu] He]. rewrite Hu, He. simpl.
    split; [|reflexivity]. intros v. destruct (truthy u); discriminate.
Qed.

Lemma card_follows_status_witness :
  exists u,
    ResultCard.content
      (ResultCard.half2 (ResultCard.ResultCard Sample.settledItem))
      = ResultCard.ExpandedImage u /\
    ResultCard.downloadHref
      (ResultCard.half2 (ResultCard.ResultCard Sample.settledItem))
      = Some u /\
    Dropzone.startsWith "data:image/png;base64," u = true.
Proof.
  assert (Hreach : reachable Sample.browser Sample.settledBoth)
    by (apply (sample_reachable 6); repeat constructor).
  assert (Hin : In Sample.settledItem (items Sample.settledBoth))
    by (vm_compute; left; reflexivity).
  destruct (card_follows_status Sample.browser Sample.settledBoth
              sample_uniqueIds Hreach Sample.settledItem Two Hin)
    as [_ [_ [_ H]]].
  exact H.
Defined.

(** *** A batch from start to end *)

Lemma batch_runs_to_its_end (B : Browser) todo :
  forall s d st,
    batches st = [] ->
    exists st',
      run B (repeat (SplitSettled 0) (List.length todo))
          (processNext todo s d st) = Some st' /\
      batches st' = [] /\
      isProcessing st' = false /\
      splitCalls st'
        = splitCalls st ++ map (fun item => (originalUrl item, d)) todo.
Proof.
  induction todo as [|c r IH]; intros s d st Hb.
  - exists (setIsProcessing false st). simpl.
    split; [reflexivity|]. split; [exact Hb|]. split; [reflexivity|].
    symmetry. apply app_nil_r.
  - simpl. unfold splitSettled. simpl. rewrite Hb. simpl.
    match goal with
    | |- exists st', run B _ (processNext r s d ?st2) = _ /\ _ =>
        destruct (IH s d st2) as [st' [Hrun [Hb' [Hp' Hcalls]]]]
    end.
    + destruct (splitImage B (originalUrl c) d) as [[part1 part2]|e];
        reflexivity.
    + exists st'. split; [exact Hrun|]. split; [exact Hb'|].
      split; [exact Hp'|]. rewrite Hcalls.
      destruct (splitImage B (originalUrl c) d) as [[part1 part2]|e];
        simpl; rewrite <- app_assoc; reflexivity.
Qed.

(** A batch comes to its end: started with a key on a page with no batch
    running, and followed by nothing but settlings of the splitter, it is
    over after as many of them as there were items with both halves Idle,
    whatever the outcome of each split;
    the splitter was then called once per such item, in the order of the
    list and with the direction chosen at the start, and the page is no
    longer busy. *)
Theorem batch_splits_in_list_order (B : Browser) (st : AppState) :
  truthy (apiKey (settings st)) = true ->
  batches st = [] ->
  exists st',
    run B (repeat (SplitSettled 0)
                  (List.length (filter bothIdle (items st))))
        (startProcessing st) = Some st' /\
    batches st' = [] /\
    isProcessing st' = false /\
    splitCalls st'
      = splitCalls st
        ++ map (fun item => (originalUrl item, splitDirection st))
               (filter bothIdle (items st)).
Proof.
  intros Hkey Hb. unfold startProcessing. rewrite Hkey. simpl.
  apply (batch_runs_to_its_end B (filter bothIdle (items st))
           (settings st) (splitDirection st) (setIsProcessing true st)).
  exact Hb.
Qed.

Lemma batch_splits_in_list_order_witness :
  exists st',
    run Sample.browser [SplitSettled 0] (startProcessing Sample.uploaded)
      = Some st' /\
    batches st' = [] /\
    isProcessing st' = false /\
    splitCalls st' = [("data:image/png;base64,ODD", Horizontal)].
Proof.
  destruct (batch_splits_in_list_order Sample.browser Sample.uploaded)
    as [st' [Hrun [Hb [Hp Hc]]]].
  - vm_compute. reflexivity.
  - vm_compute. reflexivity.
  - exists st'. split; [exact Hrun|]. split; [exact Hb|].
    split; [exact Hp|]. rewrite Hc. vm_compute. reflexivity.
Defined.

End MoreInvariants.

(* ===================================================================== *)
(** ** The lifecycle of a half, write by write                            *)
(* ===================================================================== *)

Section HalfLifecycle.
Import ImageUtils GeminiService App.

Variable B : Browser.

Lemma partStep_status (p q : SplitPart) :
  partStep p q -> lifecycle (status p) (status q) = true.
Proof.
  intros H. destruct H as [p|p Hs _|p crop Hs|p crop Hs _|p v Hs|p Hs|p Hs];
    simpl; try rewrite Hs; try reflexivity.
  apply lifecycle_refl.
Qed.

Lemma writeStep_map (g : ProcessedImage -> ProcessedImage)
    (l : list ProcessedImage) :
  NoDup (map id l) ->
  (forall a, id (g a) = id a) ->
  (forall a p, In a l -> partStep (getPart p a) (getPart p (g a))) ->
  writeStep l (map g l).
Proof.
  intros Hnd Hid Hstep. split.
  - intros a b p Ha Hb Hab.
    rewrite (in_map_same_id g l a b Hid Hnd Ha Hb Hab). apply Hstep. exact Ha.
  - intros b Hb Hnew. exfalso. apply Hnew.
    apply in_map_iff in Hb. destruct Hb as [a [<- Ha]].
    rewrite Hid. apply in_map. exact Ha.
Qed.

Lemma writeStep_same (old new : list ProcessedImage) :
  (forall a b, In a old -> In b new -> id a = id b -> b = a) ->
  (forall b, In b new -> ~ In (id b) (map id old) ->
     splitPart1 b = idlePart /\ splitPart2 b = idlePart) ->
  writeStep old new.
Proof.
  intros Hold Hnew. split; [|exact Hnew].
  intros a b p Ha Hb Hab. rewrite (Hold a b Ha Hb Hab). apply stays.
Qed.

Lemma writeStep_sub (old new : list ProcessedImage) :
  NoDup (map id old) ->
  (forall b, In b new -> In b old) ->
  writeStep old new.
Proof.
  intros Hnd Hsub. apply writeStep_same.
  - intros a b Ha Hb Hab. symmetry.
    exact (same_id_same_item old a b Hnd Ha (Hsub b Hb) Hab).
  - intros b Hb Hnot. exfalso. apply Hnot. apply in_map. apply Hsub. exact Hb.
Qed.

(** The batch picks its next item. *)
Lemma processNext_trail todo s d st :
  trail (items st :: history st) ->
  NoDup (map id (items st)) ->
  (forall a p, In a (items st) -> In (id a) (map id todo) ->
     status (getPart p a) = Idle /\ url (getPart p a) = None) ->
  trail (items (processNext todo s d st) :: history (processNext todo s d st)).
Proof.
  intros Htrail Hnd Hidle. destruct todo as [|c r]; simpl; [exact Htrail|].
  split; [|exact Htrail].
  apply writeStep_map; [exact Hnd|apply markSplitting_id|].
  intros a p Ha. destruct (String.eqb_spec (id a) (id c)) as [Heq|Hne].
  - rewrite (getPart_markSplitting (id c) a p Heq).
    destruct (Hidle a p Ha) as [Hs Hu]; [rewrite Heq; left; reflexivity|].
    apply picked; assumption.
  - rewrite (markSplitting_other (id c) a Hne). apply stays.
Qed.

(** An idle item that is listed has nothing stored. *)
Lemma idle_has_nothing st a p :
  Stored st -> In a (items st) -> statusOf p a = Idle ->
  status (getPart p a) = Idle /\ url (getPart p a) = None.
Proof.
  intros Hst Ha Hs. split; [exact Hs|].
  pose proof (Hst a p Ha) as Hsp. unfold statusOf in Hs.
  unfold storedPart in Hsp. rewrite Hs in Hsp. apply Hsp.
Qed.

Lemma exec_trail ev st st' :
  uniqueIds B -> Inv B st -> Stored st ->
  trail (items st :: history st) ->
  exec B ev st = Some st' ->
  trail (items st' :: history st').
Proof.
  intros Huniq Hinv Hst Htrail Hexec. pose proof Hinv as [Hcore Hbatch].
  pose proof Hcore as [Hnd [Hiss _]].
  destruct ev; simpl in Hexec; unfold whenEnabled in Hexec.
  - destruct (Dropzone.handleFileSelect _ _); injection Hexec as <-;
      exact Htrail.
  - destruct (Dropzone.handleDrop _ _); injection Hexec as <-; exact Htrail.
  - unfold filesRead in Hexec.
    destruct (nth_error (uploads st) k) as [files|]; [|discriminate Hexec].
    injection Hexec as <-. unfold handleFilesAdded. simpl.
    destruct (buildItems B files (uuidCalls st)) as [[newItems|e] calls]
      eqn:Hbuild; simpl; [|exact Htrail].
    destruct (buildItems_fresh B files _ _ _ Huniq Hbuild)
      as [_ [_ Hnew]].
    split; [|exact Htrail]. apply writeStep_same.
    + intros a b Ha Hb Hab. apply in_app_or in Hb. destruct Hb as [Hb|Hb].
      * exfalso. destruct (Hnew b Hb) as [_ [Hfresh _]]. apply Hfresh.
        rewrite <- Hab. apply Hiss. exact Ha.
      * symmetry. exact (same_id_same_item _ a b Hnd Ha Hb Hab).
    + intros b Hb Hnot. apply in_app_or in Hb. destruct Hb as [Hb|Hb].
      * apply Hnew. exact Hb.
      * exfalso. apply Hnot. apply in_map. exact Hb.
  - destruct (negb (startDisabled st)); [|discriminate Hexec].
    injection Hexec as <-. unfold startProcessing.
    destruct (negb (truthy (apiKey (settings st)))); [exact Htrail|].
    apply processNext_trail; [exact Htrail|exact Hnd|].
    intros a p Ha Hin. simpl in Ha. apply in_map_iff in Hin.
    destruct Hin as [c [Hca Hc]]. apply filter_In in Hc.
    destruct Hc as [Hc Hidle].
    rewrite (same_id_same_item (items st) c a Hnd Hc Ha Hca) in Hidle.
    unfold bothIdle in Hidle. apply andb_prop in Hidle.
    destruct Hidle as [H1 H2]. apply status_eqb_eq in H1, H2.
    apply (idle_has_nothing st a p Hst Ha). destruct p; assumption.
  - destruct (retryShown itemId part st) eqn:Hshown; [|discriminate Hexec].
    injection Hexec as <-.
    unfold retryShown in Hshown. apply existsb_exists in Hshown.
    destruct Hshown as [a0 [Ha0 Hcond]]. apply andb_prop in Hcond.
    destruct Hcond as [Hx Herr]. apply String.eqb_eq in Hx.
    apply status_eqb_eq in Herr.
    unfold retryPart.
    destruct (negb (truthy (apiKey (settings st)))); [exact Htrail|].
    destruct (find _ (items st)) as [item|]; [|exact Htrail].
    destruct (url (getPart part item)) as [u|]; [|exact Htrail].
    destruct (truthy u); [|exact Htrail].
    unfold processImagePart. simpl. split; [|exact Htrail].
    apply writeStep_map; [exact Hnd|apply markExpanding_id|].
    intros a p Ha. destruct (String.eqb_spec (id a) itemId) as [Heq|Hne];
      [|rewrite (markExpanding_other itemId part a Hne); apply stays].
    rewrite (getPart_markExpanding itemId part a p Heq).
    destruct (part_eqb_spec p part) as [->|_]; [|apply stays].
    assert (Haa : a = a0)
      by (apply (same_id_same_item (items st) a a0 Hnd Ha Ha0); congruence).
    rewrite Haa. apply retried. exact Herr.
  - destruct (cardShown itemId st); [|discriminate Hexec].
    injection Hexec as <-. simpl. split; [|exact Htrail].
    apply writeStep_sub; [exact Hnd|].
    intros b Hb. apply filter_In in Hb. apply Hb.
  - destruct (0 <? List.length (items st))%nat; [|discriminate Hexec].
    injection Hexec as <-. destruct confirmed; [|exact Htrail].
    simpl. split; [|exact Htrail].
    apply writeStep_sub; [exact Hnd|]. intros b [].
  - injection Hexec as <-. exact Htrail.
  - destruct (showSettings st); [|discriminate Hexec].
    injection Hexec as <-. exact Htrail.
  - destruct (showSettings st); [|discriminate Hexec].
    injection Hexec as <-. exact Htrail.
  - injection Hexec as <-. exact Htrail.
  - unfold splitSettled in Hexec.
    destruct (nth_error (batches st) k) as [b|] eqn:Hk;
      [|discriminate Hexec].
    destruct (inv_single B st k b Hinv Hk) as [Hb [-> [Hp Ht]]].
    injection Hexec as <-.
    pose proof Ht as [T1 [_ [T3 T4]]].
    assert (Hrest : forall a p, In a (items st) ->
              In (id a) (map id (b_rest b)) ->
              status (getPart p a) = Idle /\ url (getPart p a) = None).
    { intros a p Ha Hin. apply (idle_has_nothing st a p Hst Ha).
      destruct (T4 a Ha Hin). destruct p; assumption. }
    destruct (splitImage B (originalUrl (b_item b)) (b_direction b))
      as [[part1 part2]|e].
    + set (x := id (b_item b)).
      set (its1 := map (storeParts x part1 part2) (items st)).
      set (its2 := map (markExpanding x One) its1).
      set (its3 := map (markExpanding x Two) its2).
      assert (Hnd1 : NoDup (map id its1)).
      { unfold its1. rewrite map_id_map; [exact Hnd|].
        intros a. apply storeParts_id. }
      assert (Hnd2 : NoDup (map id its2)).
      { unfold its2. rewrite map_id_map; [exact Hnd1|].
        intros a. apply markExpanding_id. }
      assert (Hnd3 : NoDup (map id its3)).
      { unfold its3. rewrite map_id_map; [exact Hnd2|].
        intros a. apply markExpanding_id. }
      assert (Hw1 : writeStep (items st) its1).
      { apply writeStep_map; [exact Hnd|apply storeParts_id|].
        intros a p Ha. destruct (String.eqb_spec (id a) x) as [Heq|Hne];
          [|rewrite (storeParts_other x part1 part2 a Hne); apply stays].
        rewrite (getPart_storeParts x part1 part2 a p Heq).
        apply cropStored. destruct (T3 a Ha Heq). destruct p; assumption. }
      assert (Hst1 : forall a p, In a its1 -> id a = x ->
                status (getPart p a) = Idle /\
                exists crop, url (getPart p a) = Some crop).
      { intros a1 p Ha1 Hid. apply in_map_iff in Ha1.
        destruct Ha1 as [a [<- Ha]]. rewrite storeParts_id in Hid.
        rewrite (getPart_storeParts x part1 part2 a p Hid). simpl.
        split; [reflexivity|eexists; reflexivity]. }
      assert (Hw2 : writeStep its1 its2).
      { apply writeStep_map; [exact Hnd1|apply markExpanding_id|].
        intros a p Ha. destruct (String.eqb_spec (id a) x) as [Heq|Hne];
          [|rewrite (markExpanding_other x One a Hne); apply stays].
        rewrite (getPart_markExpanding x One a p Heq).
        destruct (part_eqb_spec p One) as [->|_]; [|apply stays].
        destruct (Hst1 a One Ha Heq) as [Hs [crop Hu]].
        exact (dispatched _ crop Hs Hu). }
      assert (Hw3 : writeStep its2 its3).
      { apply writeStep_map; [exact Hnd2|apply markExpanding_id|].
        intros a2 p Ha2.
        destruct (String.eqb_spec (id a2) x) as [Heq|Hne];
          [|rewrite (markExpanding_other x Two a2 Hne); apply stays].
        rewrite (getPart_markExpanding x Two a2 p Heq).
        destruct (part_eqb_spec p Two) as [->|_]; [|apply stays].
        apply in_map_iff in Ha2. destruct Ha2 as [a1 [Ha21 Ha1]].
        rewrite <- Ha21 in Heq |- *. rewrite markExpanding_id in Heq.
        rewrite (getPart_markExpanding x One a1 Two Heq). simpl.
        destruct (Hst1 a1 Two Ha1 Heq) as [Hs [crop Hu]].
        exact (dispatched _ crop Hs Hu). }
      unfold processImagePart.
      match goal with
      | |- trail (items (processNext _ _ _ ?st4)
                    :: history (processNext _ _ _ ?st4)) =>
          apply (processNext_trail (b_rest b) (b_settings b)
                   (b_direction b) st4)
      end.
      * simpl. fold x. fold its1. fold its2. fold its3.
        split; [exact Hw3|]. split; [exact Hw2|]. split; [exact Hw1|].
        exact Htrail.
      * simpl. fold x. fold its1. fold its2. fold its3. exact Hnd3.
      * simpl. fold x. fold its1. fold its2. fold its3.
        intros a3 p Ha3 Hin.
        apply in_map_iff in Ha3. destruct Ha3 as [a2 [<- Ha2]].
        apply in_map_iff in Ha2. destruct Ha2 as [a1 [<- Ha1]].
        apply in_map_iff in Ha1. destruct Ha1 as [a [<- Ha]].
        rewrite !markExpanding_id, storeParts_id in Hin.
        assert (Hne : id a <> x).
        { intros Heq. inversion T1 as [|? ? Hnotin _]; subst.
          apply Hnotin. unfold x in Heq. rewrite <- Heq. exact Hin. }
        rewrite (storeParts_other x part1 part2 a Hne).
        rewrite !(markExpanding_other x _ a Hne).
        exact (Hrest a p Ha Hin).
    + apply processNext_trail; [exact Htrail|exact Hnd|exact Hrest].
  - unfold expansionSettled in Hexec.
    destruct (nth_error (expansions st) k) as [e|] eqn:Hk;
      [|discriminate Hexec].
    destruct (core_settle B (markError (e_itemId e) (e_partNumber e))
                Error k e _ _ _ _ Hcore Hk (or_intror eq_refl)
                (markError_id _ _) (markError_other _ _)
                (fun a q => markError_status _ _ a q))
      as [_ Hexp].
    destruct (outcome _) as [expandedBase64|error];
      injection Hexec as <-; simpl; (split; [|exact Htrail]).
    + apply writeStep_map; [exact Hnd|apply markDone_id|].
      intros a p Ha.
      destruct (String.eqb_spec (id a) (e_itemId e)) as [Heq|Hne];
        [|rewrite (markDone_other _ _ _ a Hne); apply stays].
      rewrite (getPart_markDone _ _ _ a p Heq).
      destruct (part_eqb_spec p (e_partNumber e)) as [->|_]; [|apply stays].
      apply succeeded. exact (Hexp a Ha Heq).
    + apply writeStep_map; [exact Hnd|apply markError_id|].
      intros a p Ha.
      destruct (String.eqb_spec (id a) (e_itemId e)) as [Heq|Hne];
        [|rewrite (markError_other _ _ a Hne); apply stays].
      rewrite (getPart_markError _ _ a p Heq).
      destruct (part_eqb_spec p (e_partNumber e)) as [->|_]; [|apply stays].
      apply failed. exact (Hexp a Ha Heq).
Qed.

Lemma reachable_trail st :
  uniqueIds B -> reachable B st -> trail (items st :: history st).
Proof.
  intros Huniq [ls [evs Hrun]].
  assert (H0 : trail (items (mount ls) :: history (mount ls))).
  { unfold mount. destruct (negb (truthyOpt (gemini_api_key ls)));
      exact I. }
  assert (Hs0 : Stored (mount ls)).
  { unfold mount. destruct (negb (truthyOpt (gemini_api_key ls)));
      intros a p []. }
  pose proof (mount_inv B ls) as Hinv0.
  revert Hrun H0 Hs0 Hinv0. generalize (mount ls).
  induction evs as [|ev evs IH]; simpl; intros st0 Hrun H0 Hs0 Hinv0.
  - injection Hrun as <-. exact H0.
  - destruct (exec B ev st0) as [st1|] eqn:Hexec; [|discriminate Hrun].
    apply (IH st1 Hrun).
    + exact (exec_trail ev st0 st1 Huniq Hinv0 Hs0 H0 Hexec).
    + exact (exec_stored B ev st0 st1 Huniq Hinv0 Hs0 Hexec).
    + exact (proj1 (exec_inv B ev st0 st1 Huniq Hinv0 Hexec)).
Qed.

End HalfLifecycle.

Section HalfLifecycleStated.
Import ImageUtils GeminiService App.

(** C2, as amended. In every state the application can reach (identifiers
    being generated without repetition): the list started empty, and every
    write to it so far, the writes within one turn included, left each half
    of each remaining item as it was or took one step of the path
    Idle with nothing stored -> Splitting -> Idle with a crop stored ->
    Expanding -> Done with the expanded image stored | Error, or the step
    from Error back to Expanding, while every item that appeared had both
    halves Idle with nothing stored. In particular a write that changes a
    half makes it Splitting only from Idle with no crop, Expanding only
    from Idle with a crop or from Error, and Done only from Expanding.
    A half that is Done stays Done through every event; a half that is
    Error stays Error through every event other than the retry of that
    very half, which can only take it to Expanding. *)
Theorem half_lifecycle (B : Browser) (st : AppState) :
  uniqueIds B ->
  reachable B st ->
  last (items st :: history st) [] = [] /\
  trail (items st :: history st) /\
  chain (items st :: history st) /\
  (forall p q, partStep p q -> q <> p ->
     (status q = Splitting -> status p = Idle /\ url p = None) /\
     (status q = Idle -> status p = Splitting /\ url q <> None) /\
     (status q = Expanding ->
        (status p = Idle /\ url p <> None) \/ status p = Error) /\
     (status q = Done -> status p = Expanding /\ expandedUrl q <> None) /\
     (status q = Error -> status p = Expanding)) /\
  (forall s, lifecycle s Done = true -> s = Expanding \/ s = Done) /\
  (forall ev st',
     exec B ev st = Some st' -> terminalKept ev (items st) (items st')).
Proof.
  intros Huniq Hreach.
  pose proof (reachable_inv B st Huniq Hreach) as Hinv.
  pose proof Hinv as [[_ [_ [_ [_ [Hchain Hlast]]]]] _].
  split; [exact Hlast|].
  split; [exact (reachable_trail B st Huniq Hreach)|].
  split; [exact Hchain|]. split; [|split].
  - intros p q Hstep Hne.
    destruct Hstep as [p|p Hs Hu|p crop Hs|p crop Hs Hu|p v Hs|p Hs|p Hs];
      [exfalso; apply Hne; reflexivity| | | | | |]; simpl;
      (split; [|split; [|split; [|split]]]); intros Hq;
      try discriminate Hq.
    + split; assumption.
    + split; [exact Hs|discriminate].
    + left. split; [exact Hs|]. rewrite Hu. discriminate.
    + split; [exact Hs|discriminate].
    + exact Hs.
    + right. exact Hs.
  - intros s Hs. destruct s; try discriminate Hs; auto.
  - intros ev st' Hexec. apply (exec_inv B ev st st' Huniq Hinv Hexec).
Qed.

Lemma half_lifecycle_witness :
  last (items Sample.twoRetried :: history Sample.twoRetried) [] = [] /\
  trail (items Sample.twoRetried :: history Sample.twoRetried) /\
  chain (items Sample.twoRetried :: history Sample.twoRetried) /\
  List.length (items Sample.twoRetried) = 2%nat /\
  List.length (history Sample.twoRetried) = 14%nat.
Proof.
  assert (Hreach : reachable Sample.browser Sample.twoRetried).
  { exists Sample.keyStored, Sample.twoSession. vm_compute. reflexivity. }
  destruct (half_lifecycle Sample.browser Sample.twoRetried
              sample_uniqueIds Hreach) as [Hlast [Htrail [Hchain _]]].
  split; [exact Hlast|]. split; [exact Htrail|]. split; [exact Hchain|].
  split; vm_compute; reflexivity.
Defined.

End HalfLifecycleStated.
